(** * sistema_bancario: lock disciplines for two-account transfers

    A shallow embedding of the banking core of the repository
    (src/models, src/banks, src/simulation) and the properties its
    specification states about it.

    Conventions of the embedding.
    - Account ids are Python ints: [Z].
    - Balances and amounts are Python numbers.  The main development
      computes on exact rationals ([Q]); a rational of denominator 1 is
      a Python int ([py_int]), and on ints this is what Python computes.
      Python floats round: [Binary64] is [Account] and the two
      [transfer] methods once more on IEEE binary64 numbers, and the
      properties that depend on exact sums are stated for ints.
    - A [threading.Lock] is a boolean held by the account object:
      [true] while some thread owns it.  It is not re-entrant and has no
      owner field, as in Python.
    - An [Account] object is reached through the bank's dictionary; the
      dictionary key of an account is its [id] ([Bank.__init__] builds the
      dictionary that way), so a reference to an account is its id.
    - Log output is not modelled. *)

From Stdlib Require Import ZArith QArith Qabs Lqa Lia String.
From Stdlib Require Floats.
From stdpp Require Import base gmap list relations.

(* ================================================================== *)
(** * Part I: the program *)
(* ================================================================== *)

(** ** Exceptions

    One constructor per [raise] site of the core; [py_class] gives the
    Python exception class that the site raises and [kind] the name the
    specification gives to it. *)

Inductive error :=
| NegativeDeposit                (* ValueError("Deposit amount must be positive") *)
| NegativeWithdrawal             (* ValueError("Withdrawal amount must be positive") *)
| AccountInsufficientFunds       (* ValueError("Insufficient funds"), Account.withdraw *)
| SameAccount                    (* ValueError("Cannot transfer to the same account") *)
| NonPositiveAmount              (* ValueError("Transfer amount must be positive") *)
| AccountNotFound (account_id : Z)  (* KeyError(f"Account {account_id} not found") *)
| TransferInsufficientFunds (from_id : Z) (current_balance amount : Q)
                                 (* ValueError(f"Insufficient funds in {from_account} ...") *)
| PoolSizeError.                 (* ValueError("max_workers must be greater than 0") *)

Inductive exception_class := ValueError | KeyError.

Definition py_class (e : error) : exception_class :=
  match e with
  | AccountNotFound _ => KeyError
  | _ => ValueError
  end.

Inductive error_kind :=
| InvalidRequest
| AccountNotFoundKind
| InsufficientFunds
| Unclassified.          (* not in the taxonomy of the specification *)

Definition kind (e : error) : error_kind :=
  match e with
  | SameAccount | NonPositiveAmount => InvalidRequest
  | AccountNotFound _ => AccountNotFoundKind
  | AccountInsufficientFunds | TransferInsufficientFunds _ _ _ => InsufficientFunds
  | NegativeDeposit | NegativeWithdrawal | PoolSizeError => Unclassified
  end.

(** Python's [<] on numbers. *)
Definition Qltb (x y : Q) : bool := (Qnum x * QDen y <? Qnum y * QDen x)%Z.

(** ** Outcome of a call

    A call on a state of type [S] either returns, raises, or never
    returns because it waits for a lock that nobody will release.  The
    state is the one the call leaves behind. *)

Inductive outcome (S A : Type) :=
| Returned (a : A) (s : S)
| Raised (e : error) (s : S)
| Blocked (s : S).
Arguments Returned {S A} a s.
Arguments Raised {S A} e s.
Arguments Blocked {S A} s.

(** ** src/models/account.py *)

Module Account.

Record t := { id : Z; _balance : Q; lock : bool }.

Definition __init__ (account_id : Z) (initial_balance : Q) : t :=
  {| id := account_id; _balance := initial_balance; lock := false |}.

Definition set_balance (self : t) (b : Q) : t :=
  {| id := id self; _balance := b; lock := lock self |}.

Definition set_lock (self : t) (l : bool) : t :=
  {| id := id self; _balance := _balance self; lock := l |}.

(** [with self.lock: body]: waits while the lock is held; the lock is
    released on every exit of [body], so the account a sequential
    caller gets back is unlocked again. *)
Definition with_lock {A} (self : t) (body : t -> outcome t A) : outcome t A :=
  if lock self then Blocked self
  else match body (set_lock self true) with
       | Returned a s => Returned a (set_lock s false)
       | Raised e s => Raised e (set_lock s false)
       | Blocked s => Blocked s
       end.

Definition deposit (self : t) (amount : Q) : outcome t unit :=
  if Qltb amount 0 then Raised NegativeDeposit self
  else with_lock self (fun s =>
         Returned tt (set_balance s (_balance s + amount))).

Definition withdraw (self : t) (amount : Q) : outcome t unit :=
  if Qltb amount 0 then Raised NegativeWithdrawal self
  else with_lock self (fun s =>
         if Qltb (_balance s) amount then Raised AccountInsufficientFunds s
         else Returned tt (set_balance s (_balance s - amount))).

Definition get_balance (self : t) : outcome t Q :=
  with_lock self (fun s => Returned (_balance s) s).

End Account.

(** ** src/models/transaction.py

    [timestamp] (wall clock) and [thread_name] (identity of the pool
    thread) are not modelled; [error_message] keeps the exception
    instead of its text. *)

Module Transaction.

Record t := {
  from_account_id : Z;
  to_account_id : Z;
  amount : Q;
  success : bool;
  error_message : option error
}.

End Transaction.

(** ** Lock events and the state of a sequential call on a bank *)

Inductive event :=
| Acquire (account_id : Z)
| Release (account_id : Z)
| Sleep (seconds : Q).

Record world := {
  accounts : gmap Z Account.t;      (* Bank.accounts *)
  trace : list event                (* lock operations and sleeps so far *)
}.

Definition M (A : Type) : Type := world -> outcome world A.

Definition ret {A} (a : A) : M A := fun w => Returned a w.
Definition raise {A} (e : error) : M A := fun w => Raised e w.
Definition bind {A B} (m : M A) (k : A -> M B) : M B :=
  fun w => match m w with
           | Returned a w' => k a w'
           | Raised e w' => Raised e w'
           | Blocked w' => Blocked w'
           end.

Notation "x <- m ;; k" := (bind m (fun x => k))
  (at level 100, m at next level, right associativity, only parsing).
Notation "m ;;; k" := (bind m (fun _ => k))
  (at level 100, right associativity, only parsing).

(** [try: body finally: fin] *)
Definition try_finally {A} (body : M A) (fin : M unit) : M A :=
  fun w => match body w with
           | Returned a w' => bind fin (fun _ => ret a) w'
           | Raised e w' => bind fin (fun _ => raise e) w'
           | Blocked w' => Blocked w'
           end.

Definition emit (ev : event) : M unit :=
  fun w => Returned tt {| accounts := accounts w; trace := trace w ++ [ev] |}.

Definition update_account (r : Z) (f : Account.t -> Account.t) : M unit :=
  fun w => Returned tt {| accounts := alter f r (accounts w); trace := trace w |}.

(** [account.lock.acquire()] on the account with reference [r]. *)
Definition lock_acquire (r : Z) : M unit :=
  fun w => match accounts w !! r with
           | Some a =>
               if Account.lock a then Blocked w
               else (update_account r (fun a => Account.set_lock a true) ;;;
                     emit (Acquire r)) w
           | None => Blocked w
           end.

(** [account.lock.release()] *)
Definition lock_release (r : Z) : M unit :=
  update_account r (fun a => Account.set_lock a false) ;;; emit (Release r).

(** [account._balance] *)
Definition read_balance (r : Z) : M Q :=
  fun w => match accounts w !! r with
           | Some a => Returned (Account._balance a) w
           | None => Blocked w
           end.

(** [time.sleep(seconds)] *)
Definition sleep (seconds : Q) : M unit := emit (Sleep seconds).

(** ** src/banks/base_bank.py *)

Module Bank.

(** [{acc.id: acc for acc in accounts}]: a later account with the same
    id replaces an earlier one. *)
Definition __init__ (accounts : list Account.t) : gmap Z Account.t :=
  foldl (fun d acc => <[Account.id acc := acc]> d) ∅ accounts.

Definition get_account (account_id : Z) : M Account.t :=
  fun w => match accounts w !! account_id with
           | Some a => Returned a w
           | None => Raised (AccountNotFound account_id) w
           end.

(** [sum(account.get_balance() for account in self.accounts.values())];
    [get_balance] takes each account's lock in turn. *)
Definition get_total_balance (self : gmap Z Account.t) : option Q :=
  map_fold (fun _ a acc =>
              match acc, Account.get_balance a with
              | Some total, Returned b _ => Some (b + total)%Q
              | _, _ => None
              end) (Some 0%Q) self.

(** Every account is stored under its own id. *)
Definition wf (self : gmap Z Account.t) : Prop :=
  forall k a, self !! k = Some a -> Account.id a = k.

(** No lock of the bank is held. *)
Definition idle (self : gmap Z Account.t) : Prop :=
  forall k a, self !! k = Some a -> Account.lock a = false.

Definition balance_of (self : gmap Z Account.t) (k : Z) : option Q :=
  Account._balance <$> self !! k.

End Bank.

(** The critical section shared by both banks: runs with both locks held.
    [from_account] and [to_account] are references (ids). *)
Definition critical_section (from_account to_account : Z) (amount : Q) : M unit :=
  current_balance <- read_balance from_account ;;
  if Qltb current_balance amount then
    raise (TransferInsufficientFunds from_account current_balance amount)
  else
    update_account from_account
      (fun a => Account.set_balance a (Account._balance a - amount)) ;;;
    update_account to_account
      (fun a => Account.set_balance a (Account._balance a + amount)).

(** ** src/banks/phase1_bank.py *)

Module Phase1Bank.

Definition transfer (thread_delay : Q)
    (from_account_id to_account_id : Z) (amount : Q) : M unit :=
  if (from_account_id =? to_account_id)%Z then raise SameAccount
  else if Qle_bool amount 0 then raise NonPositiveAmount
  else
    from_account <- Bank.get_account from_account_id ;;
    to_account <- Bank.get_account to_account_id ;;
    lock_acquire (Account.id from_account) ;;;
    try_finally
      ((if Qltb 0 thread_delay then sleep thread_delay else ret tt) ;;;
       lock_acquire (Account.id to_account) ;;;
       try_finally
         (critical_section (Account.id from_account) (Account.id to_account) amount)
         (lock_release (Account.id to_account)))
      (lock_release (Account.id from_account)).

End Phase1Bank.

(** ** src/banks/phase2_bank.py *)

Module Phase2Bank.

Definition _get_ordered_accounts (account1 account2 : Account.t)
    : Account.t * Account.t :=
  if (Account.id account1 <? Account.id account2)%Z
  then (account1, account2)
  else (account2, account1).

Definition transfer (from_account_id to_account_id : Z) (amount : Q) : M unit :=
  if (from_account_id =? to_account_id)%Z then raise SameAccount
  else if Qle_bool amount 0 then raise NonPositiveAmount
  else
    from_account <- Bank.get_account from_account_id ;;
    to_account <- Bank.get_account to_account_id ;;
    let '(first_account, second_account) :=
      _get_ordered_accounts from_account to_account in
    lock_acquire (Account.id first_account) ;;;
    try_finally
      (lock_acquire (Account.id second_account) ;;;
       try_finally
         (critical_section (Account.id from_account) (Account.id to_account) amount)
         (lock_release (Account.id second_account)))
      (lock_release (Account.id first_account)).

End Phase2Bank.

(** The two subclasses of [Bank]. *)
Inductive bank_cls := Phase1Bank | Phase2Bank.

(** [bank.transfer(...)] on an instance of [cls]; [thread_delay] is the
    attribute of a [Phase1Bank] instance and is not used by [Phase2Bank]. *)
Definition transfer (cls : bank_cls) (thread_delay : Q) : Z -> Z -> Q -> M unit :=
  match cls with
  | Phase1Bank => Phase1Bank.transfer thread_delay
  | Phase2Bank => Phase2Bank.transfer
  end.

Definition initial_world (self : gmap Z Account.t) : world :=
  {| accounts := self; trace := [] |}.

(** ** src/simulation/metrics.py

    [duration_seconds] (wall clock) is not modelled. *)

Module SimulationMetrics.

Record t := {
  phase : string;
  total_transfers : nat;
  successful_transfers : nat;
  failed_transfers : nat;
  deadlocked : bool;
  transactions : list Transaction.t
}.

Definition success_rate (self : t) : Q :=
  if (total_transfers self =? 0)%nat then 0
  else (inject_Z (Z.of_nat (successful_transfers self))
        / inject_Z (Z.of_nat (total_transfers self))) * 100.

End SimulationMetrics.

(** ** src/simulation/simulator.py *)

(** An entry of [accounts_data]: [{"id": ..., "initial_balance": ...}]. *)
Module AccountData.
Record t := { id : Z; initial_balance : Q }.
End AccountData.

(** An entry of [transfers_data]: [{"from": ..., "to": ..., "amount": ...}]. *)
Module TransferData.
Record t := { from : Z; to : Z; amount : Q }.
End TransferData.

Module TransactionSimulator.

Record t := {
  bank_class : bank_cls;
  accounts_data : list AccountData.t;
  transfers_data : list TransferData.t;
  thread_delay : Q;
  timeout_seconds : Q
}.

(** [__init__] with its default arguments. *)
Definition __init__ (cls : bank_cls) (accounts_data : list AccountData.t)
    (transfers_data : list TransferData.t) : t :=
  {| bank_class := cls; accounts_data := accounts_data;
     transfers_data := transfers_data;
     thread_delay := 0.01; timeout_seconds := 10 |}.

Definition class_name (cls : bank_cls) : string :=
  match cls with
  | Phase1Bank => "Phase1Bank"
  | Phase2Bank => "Phase2Bank"
  end.

(** [max_workers = min(len(self.transfers_data), 20)] *)
Definition max_workers (self : t) : nat :=
  Nat.min (length (transfers_data self)) 20.

(** *** One transfer task, statement by statement

    The local variables of [Bank.transfer] once both accounts are
    found (references to the four account objects), and the control
    point of a task submitted to the pool. *)

Record locals := {
  from_account : Z;
  to_account : Z;
  first_account : Z;
  second_account : Z
}.

Inductive pc :=
| Queued                                   (* submitted, no pool thread yet *)
| Entered                                  (* transfer_task runs: calls bank.transfer *)
| AcquireFirst (l : locals)                (* at first.lock.acquire() *)
| Sleeping (l : locals)                    (* Phase1Bank: time.sleep(thread_delay) *)
| AcquireSecond (l : locals)               (* at second.lock.acquire() *)
| Critical (l : locals)                    (* both locks held *)
| ReleaseSecond (l : locals) (r : option error)  (* inner finally *)
| ReleaseFirst (l : locals) (r : option error)   (* outer finally *)
| Recording (r : option error)             (* back in transfer_task *)
| Done.                                    (* record appended, future done *)

Inductive main_pc :=
| Waiting (k : nat)              (* in futures[k].result(timeout=...) *)
| Shutdown (timed_out : bool)    (* leaving the with block: shutdown(wait=True) *)
| Finalizing (deadlocked : bool) (* after try/except, at the final balance *)
| Finished (m : SimulationMetrics.t).

Record state := {
  bank : world;                         (* the accounts, with the lock events *)
  tasks : list pc;                      (* one per future, in submission order *)
  transactions : list Transaction.t;    (* self.transactions *)
  main : main_pc
}.

Definition set_bank (w : world) (s : state) : state :=
  {| bank := w; tasks := tasks s; transactions := transactions s; main := main s |}.
Definition set_task (i : nat) (p : pc) (s : state) : state :=
  {| bank := bank s; tasks := <[i := p]> (tasks s);
     transactions := transactions s; main := main s |}.
Definition set_main (m : main_pc) (s : state) : state :=
  {| bank := bank s; tasks := tasks s; transactions := transactions s; main := m |}.

Definition is_queued (p : pc) : bool := match p with Queued => true | _ => false end.
Definition is_done (p : pc) : bool := match p with Done => true | _ => false end.
Definition is_active (p : pc) : bool := negb (is_queued p) && negb (is_done p).

(** The pool runs at most [max_workers] tasks at a time and hands them
    out in submission order. *)
Definition can_start (self : t) (i : nat) (ps : list pc) : bool :=
  forallb (fun p => negb (is_queued p)) (take i ps)
  && (length (filter (fun p => is_active p = true) ps) <? max_workers self)%nat.

(** The validation part of [transfer], up to the choice of the lock order. *)
Definition enter (cls : bank_cls) (d : TransferData.t) (w : world) : pc :=
  if (TransferData.from d =? TransferData.to d)%Z then Recording (Some SameAccount)
  else if Qle_bool (TransferData.amount d) 0 then Recording (Some NonPositiveAmount)
  else
    match Bank.get_account (TransferData.from d) w with
    | Returned from_account _ =>
        match Bank.get_account (TransferData.to d) w with
        | Returned to_account _ =>
            let '(first, second) :=
              match cls with
              | Phase1Bank => (from_account, to_account)
              | Phase2Bank => Phase2Bank._get_ordered_accounts from_account to_account
              end in
            AcquireFirst {| from_account := Account.id from_account;
                            to_account := Account.id to_account;
                            first_account := Account.id first;
                            second_account := Account.id second |}
        | Raised e _ => Recording (Some e)
        | Blocked _ => Entered          (* get_account takes no lock *)
        end
    | Raised e _ => Recording (Some e)
    | Blocked _ => Entered
    end.

(** One step of one task on the shared accounts; [None] when the task
    waits for a lock (or has nothing left to do). *)
Definition thread_step (cls : bank_cls) (thread_delay : Q) (d : TransferData.t)
    (w : world) (p : pc) : option (world * pc) :=
  match p with
  | Queued => None
  | Entered => Some (w, enter cls d w)
  | AcquireFirst l =>
      match lock_acquire (first_account l) w with
      | Returned _ w' =>
          Some (w', match cls with
                    | Phase1Bank => if Qltb 0 thread_delay then Sleeping l
                                    else AcquireSecond l
                    | Phase2Bank => AcquireSecond l
                    end)
      | _ => None
      end
  | Sleeping l =>
      match sleep thread_delay w with
      | Returned _ w' => Some (w', AcquireSecond l)
      | _ => None
      end
  | AcquireSecond l =>
      match lock_acquire (second_account l) w with
      | Returned _ w' => Some (w', Critical l)
      | _ => None
      end
  | Critical l =>
      match critical_section (from_account l) (to_account l) (TransferData.amount d) w with
      | Returned _ w' => Some (w', ReleaseSecond l None)
      | Raised e w' => Some (w', ReleaseSecond l (Some e))
      | Blocked _ => None
      end
  | ReleaseSecond l r =>
      match lock_release (second_account l) w with
      | Returned _ w' => Some (w', ReleaseFirst l r)
      | _ => None
      end
  | ReleaseFirst l r =>
      match lock_release (first_account l) w with
      | Returned _ w' => Some (w', Recording r)
      | _ => None
      end
  | Recording _ => None
  | Done => None
  end.

(** The [Transaction] that [transfer_task] builds. *)
Definition record_of (d : TransferData.t) (r : option error) : Transaction.t :=
  {| Transaction.from_account_id := TransferData.from d;
     Transaction.to_account_id := TransferData.to d;
     Transaction.amount := TransferData.amount d;
     Transaction.success := match r with None => true | Some _ => false end;
     Transaction.error_message := r |}.

(** One step of task [i] of the batch. *)
Definition task_step (self : t) (i : nat) (s : state) : option state :=
  match transfers_data self !! i, tasks s !! i with
  | Some d, Some Queued =>
      if can_start self i (tasks s) then Some (set_task i Entered s) else None
  | Some d, Some (Recording r) =>
      (* with self.transactions_lock: self.transactions.append(transaction) *)
      Some {| bank := bank s; tasks := <[i := Done]> (tasks s);
              transactions := transactions s ++ [record_of d r];
              main := main s |}
  | Some d, Some p =>
      match thread_step (bank_class self) (thread_delay self) d (bank s) p with
      | Some (w', p') => Some (set_bank w' (set_task i p' s))
      | None => None
      end
  | _, _ => None
  end.

Definition count_success (b : bool) (ts : list Transaction.t) : nat :=
  length (filter (fun t => Transaction.success t = b) ts).

(** The [SimulationMetrics] built at the end of [run]. *)
Definition metrics (self : t) (deadlocked : bool) (ts : list Transaction.t)
    : SimulationMetrics.t :=
  {| SimulationMetrics.phase := class_name (bank_class self);
     SimulationMetrics.total_transfers := length (transfers_data self);
     SimulationMetrics.successful_transfers := count_success true ts;
     SimulationMetrics.failed_transfers := count_success false ts;
     SimulationMetrics.deadlocked := deadlocked;
     SimulationMetrics.transactions := ts |}.

(** One step of the thread that called [run], other than a timeout.
    - [Waiting k]: [futures[k].result] returns once task [k] is done;
      after the last future the [with] block is left normally.
    - [Shutdown]: the executor's [__exit__] is [shutdown(wait=True)],
      which joins the pool threads: it returns when every submitted
      task has finished, also when a timeout is propagating.
    - [Finalizing]: [bank.get_total_balance()] takes every account
      lock; then the metrics are built and returned. *)
Definition main_step (self : t) (s : state) : option state :=
  match main s with
  | Waiting k =>
      match tasks s !! k with
      | Some Done => Some (set_main (Waiting (S k)) s)
      | Some _ => None
      | None => Some (set_main (Shutdown false) s)
      end
  | Shutdown timed_out =>
      if forallb is_done (tasks s) then Some (set_main (Finalizing timed_out) s)
      else None
  | Finalizing deadlocked =>
      match Bank.get_total_balance (accounts (bank s)) with
      | Some final_balance =>
          Some (set_main (Finished (metrics self deadlocked (transactions s))) s)
      | None => None
      end
  | Finished _ => None
  end.

(** [futures[k].result(timeout=self.timeout_seconds)] raises
    [TimeoutError]: possible whenever the awaited task is not done.
    How long that takes is not modelled. *)
Definition timeout_step (self : t) (s : state) : option state :=
  match main s with
  | Waiting k =>
      match tasks s !! k with
      | Some Done | None => None
      | Some _ => Some (set_main (Shutdown true) s)
      end
  | _ => None
  end.

Inductive label :=
| Task (i : nat)
| Main
| Timeout.

Definition step (self : t) (l : label) (s : state) : option state :=
  match l with
  | Task i => task_step self i s
  | Main => main_step self s
  | Timeout => timeout_step self s
  end.

(** A schedule is the list of the steps taken, in order. *)
Fixpoint exec (self : t) (ls : list label) (s : state) : option state :=
  match ls with
  | [] => Some s
  | l :: ls' =>
      match step self l s with
      | Some s' => exec self ls' s'
      | None => None
      end
  end.

(** [run] up to the point where the batch is submitted: the accounts
    and the bank are created and the pool is sized.  A pool of size 0
    is refused by [ThreadPoolExecutor], and [run] does not catch that. *)
Definition start (self : t) : error + state :=
  let accounts :=
    map (fun acc => Account.__init__ (AccountData.id acc)
                      (AccountData.initial_balance acc))
        (accounts_data self) in
  let bank := Bank.__init__ accounts in
  if (max_workers self =? 0)%nat then inl PoolSizeError
  else inr {| bank := initial_world bank;
              tasks := replicate (length (transfers_data self)) Queued;
              transactions := [];
              main := Waiting 0 |}.

(** The result of [run] under a schedule: the metrics if the schedule
    brings [run] to its [return], nothing if it does not get there. *)
Definition run (self : t) (ls : list label) : option (error + SimulationMetrics.t) :=
  match start self with
  | inl e => Some (inl e)
  | inr s0 =>
      match exec self ls s0 with
      | Some s => match main s with
                  | Finished m => Some (inr m)
                  | _ => None
                  end
      | None => None
      end
  end.

(** A task alone on the bank: [thread_step] repeated until the task is
    back in [transfer_task] or waits forever. *)
Fixpoint thread_run (fuel : nat) (cls : bank_cls) (thread_delay : Q)
    (d : TransferData.t) (w : world) (p : pc) : outcome world unit :=
  match p with
  | Recording None => Returned tt w
  | Recording (Some e) => Raised e w
  | _ =>
      match fuel with
      | O => Blocked w
      | S fuel' =>
          match thread_step cls thread_delay d w p with
          | Some (w', p') => thread_run fuel' cls thread_delay d w' p'
          | None => Blocked w
          end
      end
  end.

End TransactionSimulator.


(** ** src/utils/config_loader.py

    The value that [json.load] returns.  A dict is given by its
    entries (for a repeated key the first entry counts).  A float is a
    finite one: NaN and the infinities, which [json.load] also reads,
    are not modelled. *)
#[warnings="-register-all"] Inductive json :=
| JNull
| JBool (b : bool)
| JInt (n : Z)
| JFloat (x : Q)
| JString (s : string)
| JList (items : list json)
| JDict (items : list (string * json)).

Module ConfigLoader.

(** The [ValueError]s of [_validate], one per [raise], and the
    [TypeError] of the interpreter when [config] is not a dict. *)
Inductive config_error :=
| MissingKey (key : string)
| AccountsNotList
| AccountNotDict (i : nat)
| AccountMissingFields (i : nat)
| AccountIdNotInt (i : nat)
| AccountBalanceNotNumber (i : nat)
| TransfersNotList
| TransferNotDict (i : nat)
| TransferMissingField (i : nat) (key : string)
| TransferFromNotInt (i : nat)
| TransferToNotInt (i : nat)
| TransferAmountNotNumber (i : nat)
| TransferAmountNotPositive (i : nat)
| SimulationNotDict
| SimulationMissing (key : string)
| PyTypeError.

(** [d[key]] and [key in d] on the entries of a dict. *)
Fixpoint dict_get (key : string) (items : list (string * json)) : option json :=
  match items with
  | [] => None
  | (k, v) :: items' => if String.eqb k key then Some v else dict_get key items'
  end.

Definition dict_has (key : string) (items : list (string * json)) : bool :=
  match dict_get key items with Some _ => true | None => false end.

(** [key in s] on a string: [key] occurs in [s]. *)
Fixpoint occurs (key s : string) : bool :=
  String.prefix key s ||
  match s with
  | EmptyString => false
  | String _ s' => occurs key s'
  end.

(** [key in config] for a string [key]; [None] is the [TypeError] of a
    value that is no container. *)
Definition py_in (key : string) (config : json) : option bool :=
  match config with
  | JDict items => Some (dict_has key items)
  | JList items =>
      Some (existsb (fun v => match v with JString s => String.eqb s key | _ => false end)
              items)
  | JString s => Some (occurs key s)
  | _ => None
  end.

(** [isinstance(v, int)]: a [bool] is an [int]. *)
Definition is_int (v : json) : bool :=
  match v with JInt _ | JBool _ => true | _ => false end.

(** [isinstance(v, (int, float))] *)
Definition is_number (v : json) : bool :=
  match v with JInt _ | JBool _ | JFloat _ => true | _ => false end.

(** The value of a number in a comparison. *)
Definition number_value (v : json) : option Q :=
  match v with
  | JInt n => Some (inject_Z n)
  | JBool b => Some (if b then 1 else 0)%Q
  | JFloat x => Some x
  | _ => None
  end.

(** The loop over the required keys: the first one that is missing. *)
Fixpoint first_missing (keys : list string) (has : string -> bool) : option string :=
  match keys with
  | [] => None
  | key :: keys' => if has key then first_missing keys' has else Some key
  end.

Definition validate_account (i : nat) (account : json) : option config_error :=
  match account with
  | JDict items =>
      match dict_get "id" items, dict_get "initial_balance" items with
      | Some id, Some initial_balance =>
          if negb (is_int id) then Some (AccountIdNotInt i)
          else if negb (is_number initial_balance) then Some (AccountBalanceNotNumber i)
          else None
      | _, _ => Some (AccountMissingFields i)
      end
  | _ => Some (AccountNotDict i)
  end.

Definition validate_transfer (i : nat) (transfer : json) : option config_error :=
  match transfer with
  | JDict items =>
      match first_missing ["from"; "to"; "amount"]%string (fun key => dict_has key items) with
      | Some key => Some (TransferMissingField i key)
      | None =>
          match dict_get "from" items, dict_get "to" items, dict_get "amount" items with
          | Some from, Some to, Some amount =>
              if negb (is_int from) then Some (TransferFromNotInt i)
              else if negb (is_int to) then Some (TransferToNotInt i)
              else match number_value amount with
                   | None => Some (TransferAmountNotNumber i)
                   | Some a =>
                       if Qle_bool a 0 then Some (TransferAmountNotPositive i) else None
                   end
          | _, _, _ => Some PyTypeError      (* not reached: the keys are there *)
          end
      end
  | _ => Some (TransferNotDict i)
  end.

(** [for i, x in enumerate(xs): check(i, x)]: the first error. *)
Fixpoint for_each (check : nat -> json -> option config_error) (i : nat)
    (xs : list json) : option config_error :=
  match xs with
  | [] => None
  | x :: xs' =>
      match check i x with
      | Some e => Some e
      | None => for_each check (S i) xs'
      end
  end.

Definition validate_simulation (simulation : json) : option config_error :=
  match simulation with
  | JDict items =>
      match first_missing
              ["thread_delay_seconds"; "deadlock_timeout_seconds"; "verbose_logging"]%string
              (fun key => dict_has key items) with
      | Some key => Some (SimulationMissing key)
      | None => None
      end
  | _ => Some SimulationNotDict
  end.

(** [_validate(config)]: [None] when it returns, the exception otherwise. *)
Definition _validate (config : json) : option config_error :=
  match py_in "accounts" config, py_in "transfers" config, py_in "simulation" config with
  | None, _, _ => Some PyTypeError
  | Some false, _, _ => Some (MissingKey "accounts")
  | Some true, Some false, _ => Some (MissingKey "transfers")
  | Some true, Some true, Some false => Some (MissingKey "simulation")
  | Some true, Some true, Some true =>
      match config with
      | JDict items =>
          match dict_get "accounts" items, dict_get "transfers" items,
                dict_get "simulation" items with
          | Some accounts, Some transfers, Some simulation =>
              match accounts with
              | JList accs =>
                  match for_each validate_account 0 accs with
                  | Some e => Some e
                  | None =>
                      match transfers with
                      | JList trs =>
                          match for_each validate_transfer 0 trs with
                          | Some e => Some e
                          | None => validate_simulation simulation
                          end
                      | _ => Some TransfersNotList
                      end
                  end
              | _ => Some AccountsNotList
              end
          | _, _, _ => Some PyTypeError    (* not reached: the keys are there *)
          end
      | _ => Some PyTypeError              (* config["accounts"] on a list or a string *)
      end
  | _, _, _ => Some PyTypeError            (* not reached *)
  end.

End ConfigLoader.

(** ** src/ui/menu.py: the simulator that [run_phase1] and [run_phase2]
    build from the loaded configuration, with what [run] and
    [transfer_task] read from its entries.  [None] when an entry that
    they subscript is missing, or is not an integer or a number where
    the simulator computes with one. *)
Module InteractiveMenu.

Import ConfigLoader.

Definition as_int (v : json) : option Z :=
  match v with
  | JInt n => Some n
  | JBool b => Some (if b then 1 else 0)%Z
  | _ => None
  end.

(** [d[key]] read as an integer, as a number. *)
Definition get_int (key : string) (items : list (string * json)) : option Z :=
  match dict_get key items with Some v => as_int v | None => None end.

Definition get_number (key : string) (items : list (string * json)) : option Q :=
  match dict_get key items with Some v => number_value v | None => None end.

Definition account_data (v : json) : option AccountData.t :=
  match v with
  | JDict items =>
      match get_int "id" items, get_number "initial_balance" items with
      | Some id, Some initial_balance =>
          Some {| AccountData.id := id; AccountData.initial_balance := initial_balance |}
      | _, _ => None
      end
  | _ => None
  end.

Definition transfer_data (v : json) : option TransferData.t :=
  match v with
  | JDict items =>
      match get_int "from" items, get_int "to" items, get_number "amount" items with
      | Some from, Some to, Some amount =>
          Some {| TransferData.from := from; TransferData.to := to;
                  TransferData.amount := amount |}
      | _, _, _ => None
      end
  | _ => None
  end.

(** [run_phase1] passes the configured delay; [run_phase2] leaves the
    default of [TransactionSimulator.__init__]. *)
Definition thread_delay_of (cls : bank_cls) (simulation : list (string * json)) : option Q :=
  match cls with
  | Phase1Bank => get_number "thread_delay_seconds" simulation
  | Phase2Bank => Some 0.01%Q
  end.

Definition simulator (cls : bank_cls) (config : json) : option TransactionSimulator.t :=
  match config with
  | JDict items =>
      match dict_get "accounts" items, dict_get "transfers" items,
            dict_get "simulation" items with
      | Some (JList accs), Some (JList trs), Some (JDict simulation) =>
          match mapM account_data accs, mapM transfer_data trs,
                thread_delay_of cls simulation,
                get_number "deadlock_timeout_seconds" simulation with
          | Some accounts, Some transfers, Some delay, Some timeout =>
              Some {| TransactionSimulator.bank_class := cls;
                      TransactionSimulator.accounts_data := accounts;
                      TransactionSimulator.transfers_data := transfers;
                      TransactionSimulator.thread_delay := delay;
                      TransactionSimulator.timeout_seconds := timeout |}
          | _, _, _, _ => None
          end
      | _, _, _ => None
      end
  | _ => None
  end.

End InteractiveMenu.

(** ** The same code on Python floats

    [Binary64] is [Account] and the two [transfer] methods once more,
    for balances and amounts that are Python floats: IEEE 754 binary64
    numbers with round-to-nearest, which are Rocq's primitive floats.
    [<], [<=], [+] and [-] are those of the machine, NaN and the
    infinities included.  A world is the dictionary of the bank; lock
    events and sleeps are not recorded here.  [get_total_balance] is
    left out: a sum of floats depends on the order of the dictionary,
    which a [gmap] does not keep. *)
Module Binary64.

Import PrimFloat.

Inductive error :=
| NegativeDeposit
| NegativeWithdrawal
| AccountInsufficientFunds
| SameAccount
| NonPositiveAmount
| AccountNotFound (account_id : Z)
| TransferInsufficientFunds (from_id : Z) (current_balance amount : float).

Inductive outcome (S A : Type) :=
| Returned (a : A) (s : S)
| Raised (e : error) (s : S)
| Blocked (s : S).
Arguments Returned {S A} a s.
Arguments Raised {S A} e s.
Arguments Blocked {S A} s.

Module Account.

Record t := { id : Z; _balance : float; lock : bool }.

Definition __init__ (account_id : Z) (initial_balance : float) : t :=
  {| id := account_id; _balance := initial_balance; lock := false |}.

Definition set_balance (self : t) (b : float) : t :=
  {| id := id self; _balance := b; lock := lock self |}.

Definition set_lock (self : t) (l : bool) : t :=
  {| id := id self; _balance := _balance self; lock := l |}.

Definition with_lock {A} (self : t) (body : t -> outcome t A) : outcome t A :=
  if lock self then Blocked self
  else match body (set_lock self true) with
       | Returned a s => Returned a (set_lock s false)
       | Raised e s => Raised e (set_lock s false)
       | Blocked s => Blocked s
       end.

Definition deposit (self : t) (amount : float) : outcome t unit :=
  if ltb amount 0 then Raised NegativeDeposit self
  else with_lock self (fun s =>
         Returned tt (set_balance s (add (_balance s) amount))).

Definition withdraw (self : t) (amount : float) : outcome t unit :=
  if ltb amount 0 then Raised NegativeWithdrawal self
  else with_lock self (fun s =>
         if ltb (_balance s) amount then Raised AccountInsufficientFunds s
         else Returned tt (set_balance s (sub (_balance s) amount))).

End Account.

Definition M (A : Type) : Type := gmap Z Account.t -> outcome (gmap Z Account.t) A.

Definition ret {A} (a : A) : M A := fun w => Returned a w.
Definition raise {A} (e : error) : M A := fun w => Raised e w.
Definition bind {A B} (m : M A) (k : A -> M B) : M B :=
  fun w => match m w with
           | Returned a w' => k a w'
           | Raised e w' => Raised e w'
           | Blocked w' => Blocked w'
           end.

Definition try_finally {A} (body : M A) (fin : M unit) : M A :=
  fun w => match body w with
           | Returned a w' => bind fin (fun _ => ret a) w'
           | Raised e w' => bind fin (fun _ => raise e) w'
           | Blocked w' => Blocked w'
           end.

Definition update_account (r : Z) (f : Account.t -> Account.t) : M unit :=
  fun w => Returned tt (alter f r w).

Definition lock_acquire (r : Z) : M unit :=
  fun w => match w !! r with
           | Some a =>
               if Account.lock a then Blocked w
               else update_account r (fun a => Account.set_lock a true) w
           | None => Blocked w
           end.

Definition lock_release (r : Z) : M unit :=
  update_account r (fun a => Account.set_lock a false).

Definition read_balance (r : Z) : M float :=
  fun w => match w !! r with
           | Some a => Returned (Account._balance a) w
           | None => Blocked w
           end.

Definition sleep (seconds : float) : M unit := ret tt.

Module Bank.

Definition __init__ (accounts : list Account.t) : gmap Z Account.t :=
  foldl (fun d acc => <[Account.id acc := acc]> d) ∅ accounts.

Definition get_account (account_id : Z) : M Account.t :=
  fun w => match w !! account_id with
           | Some a => Returned a w
           | None => Raised (AccountNotFound account_id) w
           end.

Definition wf (self : gmap Z Account.t) : Prop :=
  forall k a, self !! k = Some a -> Account.id a = k.

Definition balance_of (self : gmap Z Account.t) (k : Z) : option float :=
  Account._balance <$> self !! k.

End Bank.

Definition critical_section (from_account to_account : Z) (amount : float) : M unit :=
  bind (read_balance from_account) (fun current_balance =>
  if ltb current_balance amount then
    raise (TransferInsufficientFunds from_account current_balance amount)
  else
    bind (update_account from_account
            (fun a => Account.set_balance a (sub (Account._balance a) amount)))
      (fun _ =>
    update_account to_account
      (fun a => Account.set_balance a (add (Account._balance a) amount)))).

Module Phase1Bank.

Definition transfer (thread_delay : float)
    (from_account_id to_account_id : Z) (amount : float) : M unit :=
  if (from_account_id =? to_account_id)%Z then raise SameAccount
  else if leb amount 0 then raise NonPositiveAmount
  else
    bind (Bank.get_account from_account_id) (fun from_account =>
    bind (Bank.get_account to_account_id) (fun to_account =>
    bind (lock_acquire (Account.id from_account)) (fun _ =>
    try_finally
      (bind (if ltb 0 thread_delay then sleep thread_delay else ret tt) (fun _ =>
       bind (lock_acquire (Account.id to_account)) (fun _ =>
       try_finally
         (critical_section (Account.id from_account) (Account.id to_account) amount)
         (lock_release (Account.id to_account)))))
      (lock_release (Account.id from_account))))).

End Phase1Bank.

Module Phase2Bank.

Definition _get_ordered_accounts (account1 account2 : Account.t)
    : Account.t * Account.t :=
  if (Account.id account1 <? Account.id account2)%Z
  then (account1, account2)
  else (account2, account1).

Definition transfer (from_account_id to_account_id : Z) (amount : float) : M unit :=
  if (from_account_id =? to_account_id)%Z then raise SameAccount
  else if leb amount 0 then raise NonPositiveAmount
  else
    bind (Bank.get_account from_account_id) (fun from_account =>
    bind (Bank.get_account to_account_id) (fun to_account =>
    let '(first_account, second_account) :=
      _get_ordered_accounts from_account to_account in
    bind (lock_acquire (Account.id first_account)) (fun _ =>
    try_finally
      (bind (lock_acquire (Account.id second_account)) (fun _ =>
       try_finally
         (critical_section (Account.id from_account) (Account.id to_account) amount)
         (lock_release (Account.id second_account))))
      (lock_release (Account.id first_account))))).

End Phase2Bank.

Definition transfer (cls : bank_cls) (thread_delay : float) : Z -> Z -> float -> M unit :=
  match cls with
  | Phase1Bank => Phase1Bank.transfer thread_delay
  | Phase2Bank => Phase2Bank.transfer
  end.

(** The dictionary after the two updates of the critical section. *)
Definition transferred (m : gmap Z Account.t) (from_id to_id : Z) (amount : float) : gmap Z Account.t :=
  alter (fun a => Account.set_balance a (add (Account._balance a) amount)) to_id
    (alter (fun a => Account.set_balance a (sub (Account._balance a) amount)) from_id m).



(** The first scenario of the specification, with float balances. *)
Definition example_bank : gmap Z Account.t :=
  Bank.__init__ [Account.__init__ 1 1000; Account.__init__ 2 1000].

End Binary64.

(* ================================================================== *)
(** * Part II: the vocabulary of the properties *)
(* ================================================================== *)

(** The accounts after [amount] has moved from [from_id] to [to_id]. *)
Definition transferred (m : gmap Z Account.t) (from_id to_id : Z) (amount : Q)
    : gmap Z Account.t :=
  alter (fun a => Account.set_balance a (Account._balance a + amount)) to_id
    (alter (fun a => Account.set_balance a (Account._balance a - amount)) from_id m).

(** The order in which a bank of class [cls] takes the two locks. *)
Definition lock_order (cls : bank_cls) (from_id to_id : Z) : Z * Z :=
  match cls with
  | Phase1Bank => (from_id, to_id)
  | Phase2Bank => if (from_id <? to_id)%Z then (from_id, to_id) else (to_id, from_id)
  end.

(** What happens between the two acquisitions. *)
Definition delay_events (cls : bank_cls) (thread_delay : Q) : list event :=
  match cls with
  | Phase1Bank => if Qltb 0 thread_delay then [Sleep thread_delay] else []
  | Phase2Bank => []
  end.

(** The events of one complete pass through the locks. *)
Definition lock_events (cls : bank_cls) (thread_delay : Q) (from_id to_id : Z)
    : list event :=
  let '(first, second) := lock_order cls from_id to_id in
  [Acquire first] ++ delay_events cls thread_delay
    ++ [Acquire second; Release second; Release first].

(** The part of [transfer] after the validation. *)
Definition locked_section (first second : Z) (pre : M unit) (body : M unit) : M unit :=
  lock_acquire first ;;;
  try_finally
    (pre ;;; lock_acquire second ;;; try_finally body (lock_release second))
    (lock_release first).

(** [pre] only adds the events [evs] to the trace. *)
Definition only_events (pre : M unit) (evs : list event) : Prop :=
  forall w, pre w = Returned tt {| accounts := accounts w; trace := trace w ++ evs |}.

(** What [transfer] does between the two acquisitions. *)
Definition between_locks (cls : bank_cls) (thread_delay : Q) : M unit :=
  match cls with
  | Phase1Bank => if Qltb 0 thread_delay then sleep thread_delay else ret tt
  | Phase2Bank => ret tt
  end.

Ltac same_account :=
  repeat match goal with H : Some _ = Some _ |- _ => injection H as <- end.

Definition example_bank : gmap Z Account.t :=
  Bank.__init__ [Account.__init__ 1 1000; Account.__init__ 2 1000].


Definition final_world {A} (r : outcome world A) : world :=
  match r with Returned _ w | Raised _ w | Blocked w => w end.



(** The invariant of the states of a batch, and the measure that
    bounds its schedules. *)
Module Inv.

Import TransactionSimulator.

Definition pc_locals (p : pc) : option locals :=
  match p with
  | AcquireFirst l | Sleeping l | AcquireSecond l | Critical l
  | ReleaseSecond l _ | ReleaseFirst l _ => Some l
  | _ => None
  end.

Definition indicator (r r' : Z) : nat := if decide (r = r') then 1 else 0.

(** How many times the task at [p] holds the lock of account [r]. *)
Definition holds (r : Z) (p : pc) : nat :=
  match p with
  | Sleeping l | AcquireSecond l | ReleaseFirst l _ => indicator r (first_account l)
  | Critical l | ReleaseSecond l _ =>
      indicator r (first_account l) + indicator r (second_account l)
  | _ => 0
  end.

Definition holders (r : Z) (ps : list pc) : nat := sum_list_with (holds r) ps.

(** 1 if the lock of account [r] is taken, 0 otherwise. *)
Definition locked (m : gmap Z Account.t) (r : Z) : nat :=
  match m !! r with
  | Some a => if Account.lock a then 1 else 0
  | None => 0
  end.

(** The locals of a task are accounts of the bank, in the lock order
    of the class. *)
Definition good_locals (cls : bank_cls) (m : gmap Z Account.t) (l : locals) : Prop :=
  first_account l ∈ dom m /\ second_account l ∈ dom m /\
  from_account l <> to_account l /\
  ((first_account l = from_account l /\ second_account l = to_account l) \/
   (first_account l = to_account l /\ second_account l = from_account l)) /\
  (cls = Phase2Bank -> (first_account l < second_account l)%Z).

Definition all_done (ps : list pc) : Prop := Forall (fun p => p = Done) ps.

(** What the control point of the caller of [run] knows. *)
Definition main_ok (self : t) (s : state) : Prop :=
  match main s with
  | Waiting k => forall j, (j < k)%nat -> tasks s !! j = Some Done
  | Shutdown timed_out => timed_out = false -> all_done (tasks s)
  | Finalizing _ => all_done (tasks s)
  | Finished m =>
      all_done (tasks s) /\
      m = metrics self (SimulationMetrics.deadlocked m) (transactions s)
  end.

Record inv (self : t) (s : state) : Prop := {
  inv_wf : Bank.wf (accounts (bank s));
  inv_length : length (tasks s) = length (transfers_data self);
  inv_locals : forall i p l, tasks s !! i = Some p -> pc_locals p = Some l ->
                 good_locals (bank_class self) (accounts (bank s)) l;
  inv_locks : forall r, holders r (tasks s) = locked (accounts (bank s)) r;
  inv_log : length (transactions s)
            = length (filter (fun p => is_done p = true) (tasks s));
  inv_active : (length (filter (fun p => is_active p = true) (tasks s))
                <= max_workers self)%nat;
  inv_main : main_ok self s
}.

(** The whole remaining work: every step of a schedule lowers it. *)
Definition rank (p : pc) : nat :=
  match p with
  | Queued => 9 | Entered => 8 | AcquireFirst _ => 7 | Sleeping _ => 6
  | AcquireSecond _ => 5 | Critical _ => 4 | ReleaseSecond _ _ => 3
  | ReleaseFirst _ _ => 2 | Recording _ => 1 | Done => 0
  end.

Definition main_rank (n : nat) (m : main_pc) : nat :=
  match m with
  | Waiting k => 3 + (n - k)
  | Shutdown _ => 2
  | Finalizing _ => 1
  | Finished _ => 0
  end.

Definition measure (self : t) (s : state) : nat :=
  sum_list_with rank (tasks s) + main_rank (length (transfers_data self)) (main s).

(** The flag that [run] will report. *)
Definition flag (s : state) : bool :=
  match main s with
  | Waiting _ => false
  | Shutdown b | Finalizing b => b
  | Finished m => SimulationMetrics.deadlocked m
  end.

(** A task that needs no lock to go on. *)
Definition runnable (p : pc) : bool :=
  match p with
  | Entered | Sleeping _ | Critical _ | ReleaseSecond _ _ | ReleaseFirst _ _
  | Recording _ => true
  | _ => false
  end.

(** The lock a task is waiting to take. *)
Definition wanted (p : pc) : option Z :=
  match p with
  | AcquireFirst l => Some (first_account l)
  | AcquireSecond l => Some (second_account l)
  | _ => None
  end.

(** Task [i] waits for a lock that task [j] holds. *)
Definition waits_for (s : state) (i j : nat) : Prop :=
  exists p q r, tasks s !! i = Some p /\ tasks s !! j = Some q /\
                wanted p = Some r /\ (0 < holds r q)%nat.

Definition wants_first (p : pc) : bool :=
  match p with AcquireFirst _ => true | _ => false end.

Definition second_wanted (p : pc) : option locals :=
  match p with AcquireSecond l => Some l | _ => None end.

End Inv.

(** The batch of the deadlock scenario: two opposing transfers between
    accounts 1 and 2. *)
Definition opposing_accounts : list AccountData.t :=
  [ {| AccountData.id := 1; AccountData.initial_balance := 1000 |};
    {| AccountData.id := 2; AccountData.initial_balance := 1000 |} ].

Definition opposing_transfers : list TransferData.t :=
  [ {| TransferData.from := 1; TransferData.to := 2; TransferData.amount := 100 |};
    {| TransferData.from := 2; TransferData.to := 1; TransferData.amount := 50 |} ].

Definition naive_sim : TransactionSimulator.t :=
  TransactionSimulator.__init__ Phase1Bank opposing_accounts opposing_transfers.

Definition ordered_sim : TransactionSimulator.t :=
  TransactionSimulator.__init__ Phase2Bank opposing_accounts opposing_transfers.

(** Both tasks take their first lock, sleep, and ask for the second
    one; then the wait for the first future times out. *)
Definition deadlock_schedule : list TransactionSimulator.label :=
  let T := TransactionSimulator.Task in
  [T 0; T 1; T 0; T 0; T 1; T 1; T 0; T 1; TransactionSimulator.Timeout]%nat.

(** Both tasks start; the first runs to its end while the second waits
    for lock 1, then the second runs, then [run] returns. *)
Definition ordered_schedule : list TransactionSimulator.label :=
  let T := TransactionSimulator.Task in
  let M := TransactionSimulator.Main in
  [T 0; T 1; T 0; T 0; T 1; T 0; T 0; T 0; T 0; T 0; M;
   T 1; T 1; T 1; T 1; T 1; T 1; M; M; M; M]%nat.

(** Follows the specification's words: the pool that [run] would use
    for a batch under a worker cap. *)
Definition spec_pool_size (requests : list TransferData.t) (workerCap : nat) : nat :=
  Nat.min (length requests) workerCap.

(** The third scenario of the specification: 80 opposing transfers
    over four accounts. *)
Definition stress_accounts : list AccountData.t :=
  [ {| AccountData.id := 1; AccountData.initial_balance := 10000 |};
    {| AccountData.id := 2; AccountData.initial_balance := 10000 |};
    {| AccountData.id := 3; AccountData.initial_balance := 10000 |};
    {| AccountData.id := 4; AccountData.initial_balance := 10000 |} ].

Definition stress_transfers : list TransferData.t :=
  concat (replicate 10
    [TransferData.Build_t 1 2 10; TransferData.Build_t 2 1 15;
     TransferData.Build_t 3 4 20; TransferData.Build_t 4 3 25;
     TransferData.Build_t 1 3 5; TransferData.Build_t 3 1 8;
     TransferData.Build_t 2 4 12; TransferData.Build_t 4 2 18]).

Definition stress_sim : TransactionSimulator.t :=
  TransactionSimulator.__init__ Phase2Bank stress_accounts stress_transfers.

(** One task after the other, eight steps each, then the caller. *)
Definition stress_schedule : list TransactionSimulator.label :=
  concat (map (fun i => replicate 8 (TransactionSimulator.Task i)) (seq 0 80))
  ++ replicate 83 TransactionSimulator.Main.

(** The bank of the second scenario of the specification. *)
Definition scenario2_bank : gmap Z Account.t :=
  Bank.__init__ [Account.__init__ 5 1000; Account.__init__ 2 1000].

(** ** Vocabulary of the further properties *)

(** The sum of the balances, whatever the locks. *)
Definition sum_balances (m : gmap Z Account.t) : Q :=
  map_fold (fun _ a acc => (Account._balance a + acc)%Q) 0%Q m.

(** A call of one of the two updating methods of an account. *)
Inductive account_call :=
| CallDeposit (amount : Q)
| CallWithdraw (amount : Q).

Definition call (a : Account.t) (c : account_call) : outcome Account.t unit :=
  match c with
  | CallDeposit amount => Account.deposit a amount
  | CallWithdraw amount => Account.withdraw a amount
  end.

(** The account that a call leaves behind, however it ends. *)
Definition account_after {A} (r : outcome Account.t A) : Account.t :=
  match r with Returned _ a | Raised _ a | Blocked a => a end.

(** Calls made one after the other by a caller that goes on after an
    exception. *)
Fixpoint calls (a : Account.t) (cs : list account_call) : Account.t :=
  match cs with
  | [] => a
  | c :: cs' => calls (account_after (call a c)) cs'
  end.

(** The amount that the call [c] moves when it returns. *)
Definition call_amount (c : account_call) : Q :=
  match c with
  | CallDeposit amount => amount
  | CallWithdraw amount => - amount
  end.

(** The sum of the amounts of the calls of [cs] that return, made one
    after the other on [a]. *)
Fixpoint moved (a : Account.t) (cs : list account_call) : Q :=
  match cs with
  | [] => 0
  | c :: cs' =>
      match call a c with
      | Returned _ a' => call_amount c + moved a' cs'
      | r => moved (account_after r) cs'
      end
  end.

(** No account is overdrawn. *)
Definition no_overdraft (m : gmap Z Account.t) : Prop :=
  forall k a, m !! k = Some a -> (0 <= Account._balance a)%Q.

(** The locals of every task past the validation belong to its request,
    and the request has a positive amount. *)
Definition validated (self : TransactionSimulator.t) (s : TransactionSimulator.state) : Prop :=
  forall i p l d,
    TransactionSimulator.tasks s !! i = Some p -> Inv.pc_locals p = Some l ->
    TransactionSimulator.transfers_data self !! i = Some d ->
    (0 < TransferData.amount d)%Q /\
    TransactionSimulator.from_account l = TransferData.from d /\
    TransactionSimulator.to_account l = TransferData.to d.

(** The request that a record was made for. *)
Definition request_of (t : Transaction.t) : TransferData.t :=
  {| TransferData.from := Transaction.from_account_id t;
     TransferData.to := Transaction.to_account_id t;
     TransferData.amount := Transaction.amount t |}.

(** The requests whose tasks are done, in submission order. *)
Fixpoint done_requests (ds : list TransferData.t) (ps : list TransactionSimulator.pc)
    : list TransferData.t :=
  match ds, ps with
  | d :: ds', p :: ps' =>
      if TransactionSimulator.is_done p then d :: done_requests ds' ps'
      else done_requests ds' ps'
  | _, _ => []
  end.

(** A record is marked successful exactly when it carries no error. *)
Definition record_consistent (t : Transaction.t) : Prop :=
  Transaction.success t = true <-> Transaction.error_message t = None.

(** The ids of the accounts that [run] creates. *)
Definition account_ids (self : TransactionSimulator.t) : gset Z :=
  list_to_set (map AccountData.id (TransactionSimulator.accounts_data self)).

(** The error that the checks of [transfer] before the locks find in a
    request, on a bank with the accounts [ids]. *)
Definition validation_error (ids : gset Z) (d : TransferData.t) : option error :=
  if (TransferData.from d =? TransferData.to d)%Z then Some SameAccount
  else if Qle_bool (TransferData.amount d) 0 then Some NonPositiveAmount
  else if decide (TransferData.from d ∈ ids) then
         if decide (TransferData.to d ∈ ids) then None
         else Some (AccountNotFound (TransferData.to d))
       else Some (AccountNotFound (TransferData.from d)).

(** The result [r] of a transfer is the one its request calls for: the
    validation error if there is one, otherwise success or a lack of
    funds. *)
Definition result_explained (ids : gset Z) (d : TransferData.t) (r : option error) : Prop :=
  match validation_error ids d with
  | Some e => r = Some e
  | None =>
      r = None \/
      exists current_balance,
        r = Some (TransferInsufficientFunds (TransferData.from d) current_balance
                    (TransferData.amount d)) /\
        (current_balance < TransferData.amount d)%Q
  end.

(** What is known of the result of a task at its control point. *)
Definition pc_explained (ids : gset Z) (d : TransferData.t) (p : TransactionSimulator.pc)
    : Prop :=
  match p with
  | TransactionSimulator.Queued | TransactionSimulator.Entered
  | TransactionSimulator.Done => True
  | TransactionSimulator.AcquireFirst _ | TransactionSimulator.Sleeping _
  | TransactionSimulator.AcquireSecond _ | TransactionSimulator.Critical _ =>
      validation_error ids d = None
  | TransactionSimulator.ReleaseSecond _ r | TransactionSimulator.ReleaseFirst _ r =>
      validation_error ids d = None /\ result_explained ids d r
  | TransactionSimulator.Recording r => result_explained ids d r
  end.

(** The records so far are those of the tasks that are done, and every
    result, recorded or not yet, is explained. *)
Record log_ok (self : TransactionSimulator.t) (s : TransactionSimulator.state) : Prop := {
  log_dom : dom (accounts (TransactionSimulator.bank s)) = account_ids self;
  log_requests :
    Permutation (map request_of (TransactionSimulator.transactions s))
      (done_requests (TransactionSimulator.transfers_data self)
         (TransactionSimulator.tasks s));
  log_records :
    Forall (fun t => record_consistent t /\
                     result_explained (account_ids self) (request_of t)
                       (Transaction.error_message t))
      (TransactionSimulator.transactions s);
  log_tasks :
    forall i p d, TransactionSimulator.tasks s !! i = Some p ->
      TransactionSimulator.transfers_data self !! i = Some d ->
      pc_explained (account_ids self) d p
}.






(** A configuration without transfers. *)
Definition empty_batch_config : json :=
  JDict [("accounts"%string,
          JList [JDict [("id"%string, JInt 1); ("initial_balance"%string, JFloat 1000)]]);
         ("transfers"%string, JList []);
         ("simulation"%string,
          JDict [("thread_delay_seconds"%string, JFloat 0.01);
                 ("deadlock_timeout_seconds"%string, JInt 10);
                 ("verbose_logging"%string, JBool false)])].

(** Runs a batch under a schedule: the start state, the state reached,
    and the two equations. *)
Ltac run_batch sim schedule s0 s Hstart Hexec :=
  destruct (TransactionSimulator.start sim) as [?|s0] eqn:Hstart;
    [vm_compute in Hstart; discriminate|];
  destruct (TransactionSimulator.exec sim schedule s0) as [s|] eqn:Hexec;
    [|exfalso; vm_compute in Hstart; injection Hstart as <-;
      vm_compute in Hexec; discriminate].

(** ** Python ints *)

(** A balance or an amount that is a Python int.  On ints Python's
    [+], [-], [<], [<=] and [sum] are exact, and they are the
    operations of [Q] on the rationals of denominator 1. *)
Definition py_int (q : Q) : Prop := Qden q = 1%positive.

(** Every balance of the bank is an int. *)
Definition int_accounts (m : gmap Z Account.t) : Prop :=
  forall k a, m !! k = Some a -> py_int (Account._balance a).

(** The amount of a call is an int. *)
Definition int_call (c : account_call) : Prop :=
  match c with CallDeposit amount | CallWithdraw amount => py_int amount end.




(* ================================================================== *)
(** * Part III: lemmas and theorems *)
(* ================================================================== *)

(** ** Comparisons *)

Lemma Qltb_lt (x y : Q) : Qltb x y = true <-> (x < y)%Q.
Proof. unfold Qltb, Qlt. apply Z.ltb_lt. Qed.

Lemma Qltb_ge (x y : Q) : Qltb x y = false <-> (y <= x)%Q.
Proof. unfold Qltb, Qle. apply Z.ltb_ge. Qed.

Lemma Qle_bool_gt (x y : Q) : Qle_bool x y = false <-> (y < x)%Q.
Proof.
  split; intros H.
  - apply Qnot_le_lt. intros Hle. apply Qle_bool_iff in Hle. congruence.
  - destruct (Qle_bool x y) eqn:E; [|reflexivity].
    apply Qle_bool_iff in E. exfalso. eapply Qlt_not_le; eassumption.
Qed.

(** ** Account *)

Section AccountFacts.

Import Account.

Lemma set_lock_twice (a : t) (b c : bool) : set_lock (set_lock a b) c = set_lock a c.
Proof. reflexivity. Qed.

Lemma set_lock_same (a : t) : set_lock a (lock a) = a.
Proof. destruct a; reflexivity. Qed.

(** What [deposit] does on an unlocked account, by the sign of the amount. *)
Lemma deposit_spec (self : t) (amount : Q) :
  lock self = false ->
  ((amount < 0)%Q -> deposit self amount = Raised NegativeDeposit self) /\
  ((0 <= amount)%Q ->
     deposit self amount = Returned tt (set_balance self (_balance self + amount))).
Proof.
  intros Hl. unfold deposit, with_lock. split; intros H.
  - apply Qltb_lt in H. rewrite H. reflexivity.
  - apply Qltb_ge in H. rewrite H, Hl. destruct self; simpl in *; subst; reflexivity.
Qed.

(** What [withdraw] does on an unlocked account. *)
Lemma withdraw_spec (self : t) (amount : Q) :
  lock self = false ->
  ((amount < 0)%Q -> withdraw self amount = Raised NegativeWithdrawal self) /\
  ((0 <= amount)%Q -> (_balance self < amount)%Q ->
     withdraw self amount = Raised AccountInsufficientFunds self) /\
  ((0 <= amount)%Q -> (amount <= _balance self)%Q ->
     withdraw self amount = Returned tt (set_balance self (_balance self - amount))).
Proof.
  intros Hl. unfold withdraw, with_lock. repeat split.
  - intros H. apply Qltb_lt in H. rewrite H. reflexivity.
  - intros H H'. apply Qltb_ge in H. rewrite H, Hl. simpl.
    apply Qltb_lt in H'. rewrite H'. destruct self; simpl in *; subst; reflexivity.
  - intros H H'. apply Qltb_ge in H. rewrite H, Hl. simpl.
    apply Qltb_ge in H'. rewrite H'. destruct self; simpl in *; subst; reflexivity.
Qed.

End AccountFacts.

(** C9 (evaluation at the failing input).  The claim asks [deposit] and
    [withdraw] to reject every amount that is not positive.  The guards
    of both are [amount < 0], so the amount 0 is accepted: on an account
    with balance 1000 both calls return normally and the balance is
    still 1000. *)
Theorem zero_amount_is_accepted :
  (exists a, Account.deposit (Account.__init__ 1 1000) 0 = Returned tt a
             /\ (Account._balance a == 1000)%Q) /\
  (exists a, Account.withdraw (Account.__init__ 1 1000) 0 = Returned tt a
             /\ (Account._balance a == 1000)%Q).
Proof. split; eexists; (split; [reflexivity | reflexivity]). Qed.

(** ** The lock order of Phase2Bank *)

(** C6.  For two accounts with distinct ids, [_get_ordered_accounts]
    gives the same pair whichever way round they are passed: the account
    with the lower id first, the one with the higher id second. *)
Theorem get_ordered_accounts_symmetric (A B : Account.t) :
  Account.id A <> Account.id B ->
  Phase2Bank._get_ordered_accounts A B = Phase2Bank._get_ordered_accounts B A /\
  Account.id (fst (Phase2Bank._get_ordered_accounts A B))
    = Z.min (Account.id A) (Account.id B) /\
  Account.id (snd (Phase2Bank._get_ordered_accounts A B))
    = Z.max (Account.id A) (Account.id B) /\
  (Phase2Bank._get_ordered_accounts A B = (A, B) \/
   Phase2Bank._get_ordered_accounts A B = (B, A)).
Proof.
  intros Hne. unfold Phase2Bank._get_ordered_accounts.
  destruct (Z.ltb_spec (Account.id A) (Account.id B)) as [Hab|Hab];
    destruct (Z.ltb_spec (Account.id B) (Account.id A)) as [Hba|Hba]; simpl;
    repeat split; try lia; auto.
Qed.

Lemma get_ordered_accounts_symmetric_witness :
  let A := Account.__init__ 5 1000 in
  let B := Account.__init__ 2 1000 in
  Phase2Bank._get_ordered_accounts A B = (B, A) /\
  Phase2Bank._get_ordered_accounts B A = (B, A).
Proof.
  intros A B.
  destruct (get_ordered_accounts_symmetric A B) as (Hsym & _ & _ & _).
  - simpl. lia.
  - split; [reflexivity | rewrite <- Hsym; reflexivity].
Defined.

(** ** A transfer running alone on the bank *)

Section TransferFacts.

Implicit Types (w : world) (m : gmap Z Account.t).

Lemma lock_acquire_free r w a :
  accounts w !! r = Some a -> Account.lock a = false ->
  lock_acquire r w =
    Returned tt {| accounts := alter (fun a => Account.set_lock a true) r (accounts w);
                   trace := trace w ++ [Acquire r] |}.
Proof. intros Ha Hl. unfold lock_acquire. rewrite Ha, Hl. reflexivity. Qed.

Lemma lock_acquire_held r w a :
  accounts w !! r = Some a -> Account.lock a = true -> lock_acquire r w = Blocked w.
Proof. intros Ha Hl. unfold lock_acquire. rewrite Ha, Hl. reflexivity. Qed.

Lemma lock_acquire_inv r w w' :
  lock_acquire r w = Returned tt w' ->
  exists a, accounts w !! r = Some a /\ Account.lock a = false /\
    w' = {| accounts := alter (fun a => Account.set_lock a true) r (accounts w);
            trace := trace w ++ [Acquire r] |}.
Proof.
  unfold lock_acquire. destruct (accounts w !! r) as [a|] eqn:Ha; [|discriminate].
  destruct (Account.lock a) eqn:Hl; [discriminate|].
  intros [= <-]. eauto.
Qed.

Lemma transferred_lookup_from m from_id to_id amount fa :
  from_id <> to_id -> m !! from_id = Some fa ->
  transferred m from_id to_id amount !! from_id
    = Some (Account.set_balance fa (Account._balance fa - amount)).
Proof.
  intros Hne Hfa. unfold transferred.
  rewrite lookup_alter_ne by congruence. rewrite lookup_alter_eq, Hfa. reflexivity.
Qed.

Lemma transferred_lookup_to m from_id to_id amount ta :
  from_id <> to_id -> m !! to_id = Some ta ->
  transferred m from_id to_id amount !! to_id
    = Some (Account.set_balance ta (Account._balance ta + amount)).
Proof.
  intros Hne Hta. unfold transferred.
  rewrite lookup_alter_eq, lookup_alter_ne by congruence. rewrite Hta. reflexivity.
Qed.

Lemma transferred_lookup_other m from_id to_id amount k :
  k <> from_id -> k <> to_id ->
  transferred m from_id to_id amount !! k = m !! k.
Proof.
  intros H1 H2. unfold transferred. rewrite !lookup_alter_ne by congruence. reflexivity.
Qed.

End TransferFacts.

Section LockedSection.

Variables (first second from_id to_id : Z) (pre : M unit) (evs : list event).
Variables (w : world) (fa ta : Account.t).
Hypothesis Hpre : only_events pre evs.
Hypothesis Hne : from_id <> to_id.
Hypothesis Hord :
  (first = from_id /\ second = to_id) \/ (first = to_id /\ second = from_id).
Hypothesis Hfa : accounts w !! from_id = Some fa.
Hypothesis Hta : accounts w !! to_id = Some ta.

(** Both locks free: the section runs to its end and releases both. *)
Lemma locked_section_free (amount : Q) :
  Account.lock fa = false -> Account.lock ta = false ->
  locked_section first second pre (critical_section from_id to_id amount) w =
    let tr := trace w ++ [Acquire first] ++ evs
                ++ [Acquire second; Release second; Release first] in
    if Qltb (Account._balance fa) amount
    then Raised (TransferInsufficientFunds from_id (Account._balance fa) amount)
           {| accounts := accounts w; trace := tr |}
    else Returned tt {| accounts := transferred (accounts w) from_id to_id amount;
                        trace := tr |}.
Proof.
  intros Hlf Hlt.
  assert (exists a1 a2, accounts w !! first = Some a1 /\ accounts w !! second = Some a2
            /\ Account.lock a1 = false /\ Account.lock a2 = false /\ first <> second)
    as (a1 & a2 & H1 & H2 & Hl1 & Hl2 & Hne12).
  { destruct Hord as [[-> ->]|[-> ->]]; eauto 10. }
  unfold locked_section, bind, try_finally.
  rewrite (lock_acquire_free _ _ _ H1 Hl1).
  rewrite Hpre. cbn [accounts trace].
  erewrite lock_acquire_free; cycle 1.
  { cbn [accounts]. rewrite lookup_alter_ne by done. exact H2. }
  { done. }
  unfold critical_section, bind, read_balance. cbn [accounts trace].
  assert (Hbal : alter (fun a : Account.t => Account.set_lock a true) second
      (alter (fun a : Account.t => Account.set_lock a true) first (accounts w)) !! from_id
       = Some (Account.set_lock fa true)).
  { destruct Hord as [[-> ->]|[-> ->]].
    - rewrite lookup_alter_ne by done. rewrite lookup_alter_eq, Hfa. done.
    - rewrite lookup_alter_eq, lookup_alter_ne by done. rewrite Hfa. done. }
  rewrite Hbal. cbn [Account._balance Account.set_lock].
  destruct (Qltb (Account._balance fa) amount) eqn:Hlt';
    unfold raise, lock_release, bind, update_account, emit, ret; cbn [accounts trace];
    (f_equal; f_equal; [| rewrite <- !app_assoc; done]);
    apply map_eq; intros k; unfold transferred; rewrite !lookup_alter;
    repeat case_decide; subst; try congruence;
    destruct (accounts w !! k) as [[]|] eqn:E; simpl in *; try done;
    same_account; simpl in *; subst; done.
Qed.


End LockedSection.

Section SequentialTransfer.

Variables (cls : bank_cls) (thread_delay : Q).

Lemma between_locks_events :
  only_events (between_locks cls thread_delay) (delay_events cls thread_delay).
Proof.
  intros [m tr]. unfold between_locks, delay_events.
  destruct cls; [destruct (Qltb 0 thread_delay)|];
    unfold sleep, emit, ret; simpl; rewrite ?app_nil_r; reflexivity.
Qed.

Lemma lock_order_cases (from_id to_id : Z) :
  (fst (lock_order cls from_id to_id) = from_id /\
   snd (lock_order cls from_id to_id) = to_id) \/
  (fst (lock_order cls from_id to_id) = to_id /\
   snd (lock_order cls from_id to_id) = from_id).
Proof.
  unfold lock_order. destruct cls; [auto|].
  destruct (from_id <? to_id)%Z; auto.
Qed.

(** The outcome of the three validations, in the order of the code.
    Each of them leaves the world as it is: no lock event, no change
    of any account. *)
Lemma transfer_validation (from_id to_id : Z) (amount : Q) (w : world) :
  (from_id = to_id ->
     transfer cls thread_delay from_id to_id amount w = Raised SameAccount w) /\
  (from_id <> to_id -> (amount <= 0)%Q ->
     transfer cls thread_delay from_id to_id amount w = Raised NonPositiveAmount w) /\
  (from_id <> to_id -> (0 < amount)%Q -> accounts w !! from_id = None ->
     transfer cls thread_delay from_id to_id amount w
       = Raised (AccountNotFound from_id) w) /\
  (from_id <> to_id -> (0 < amount)%Q -> is_Some (accounts w !! from_id) ->
     accounts w !! to_id = None ->
     transfer cls thread_delay from_id to_id amount w
       = Raised (AccountNotFound to_id) w).
Proof.
  repeat split.
  - intros ->. destruct cls; simpl; unfold Phase1Bank.transfer, Phase2Bank.transfer;
      rewrite Z.eqb_refl; reflexivity.
  - intros Hne Hle. apply Z.eqb_neq in Hne. apply Qle_bool_iff in Hle.
    destruct cls; simpl; unfold Phase1Bank.transfer, Phase2Bank.transfer;
      rewrite Hne, Hle; reflexivity.
  - intros Hne Hpos Hnone. apply Z.eqb_neq in Hne. apply Qle_bool_gt in Hpos.
    destruct cls; simpl; unfold Phase1Bank.transfer, Phase2Bank.transfer;
      rewrite Hne, Hpos; unfold bind, Bank.get_account; rewrite Hnone; reflexivity.
  - intros Hne Hpos [fa Hfa] Hnone. apply Z.eqb_neq in Hne. apply Qle_bool_gt in Hpos.
    destruct cls; simpl; unfold Phase1Bank.transfer, Phase2Bank.transfer;
      rewrite Hne, Hpos; unfold bind, Bank.get_account; rewrite Hfa, Hnone;
      reflexivity.
Qed.

(** Past the validations, [transfer] is the locked section in the lock
    order of its class. *)
Lemma transfer_validated (from_id to_id : Z) (amount : Q) (w : world) fa ta :
  Bank.wf (accounts w) ->
  from_id <> to_id -> (0 < amount)%Q ->
  accounts w !! from_id = Some fa -> accounts w !! to_id = Some ta ->
  transfer cls thread_delay from_id to_id amount w =
    locked_section (fst (lock_order cls from_id to_id))
                   (snd (lock_order cls from_id to_id))
                   (between_locks cls thread_delay)
                   (critical_section from_id to_id amount) w.
Proof.
  intros Hwf Hne Hpos Hfa Hta.
  pose proof (Hwf _ _ Hfa) as Hidf. pose proof (Hwf _ _ Hta) as Hidt.
  apply Z.eqb_neq in Hne. apply Qle_bool_gt in Hpos.
  destruct cls; simpl; unfold Phase1Bank.transfer, Phase2Bank.transfer;
    rewrite Hne, Hpos; unfold bind at 1 2, Bank.get_account; rewrite Hfa, Hta.
  - rewrite Hidf, Hidt. reflexivity.
  - unfold Phase2Bank._get_ordered_accounts. rewrite Hidf, Hidt.
    destruct (from_id <? to_id)%Z; simpl; rewrite ?Hidf, ?Hidt; reflexivity.
Qed.

(** A valid transfer between two unlocked accounts of a well-formed bank. *)
Lemma transfer_free (from_id to_id : Z) (amount : Q) (w : world) fa ta :
  Bank.wf (accounts w) ->
  from_id <> to_id -> (0 < amount)%Q ->
  accounts w !! from_id = Some fa -> accounts w !! to_id = Some ta ->
  Account.lock fa = false -> Account.lock ta = false ->
  transfer cls thread_delay from_id to_id amount w =
    let tr := trace w ++ lock_events cls thread_delay from_id to_id in
    if Qltb (Account._balance fa) amount
    then Raised (TransferInsufficientFunds from_id (Account._balance fa) amount)
           {| accounts := accounts w; trace := tr |}
    else Returned tt {| accounts := transferred (accounts w) from_id to_id amount;
                        trace := tr |}.
Proof.
  intros Hwf Hne Hpos Hfa Hta Hlf Hlt.
  rewrite (transfer_validated _ _ _ _ _ _ Hwf Hne Hpos Hfa Hta).
  rewrite (locked_section_free _ _ _ _ _ _ _ _ _ between_locks_events Hne
             (lock_order_cases from_id to_id) Hfa Hta amount Hlf Hlt).
  unfold lock_events. destruct (lock_order cls from_id to_id). reflexivity.
Qed.


End SequentialTransfer.

(** ** The claims about a single transfer *)

Lemma example_bank_wf : Bank.wf example_bank.
Proof.
  intros k a. unfold example_bank, Bank.__init__. simpl.
  rewrite !lookup_insert. repeat case_decide; subst; try rewrite lookup_empty;
    intros [= <-] || discriminate; reflexivity.
Qed.

Lemma example_bank_idle : Bank.idle example_bank.
Proof.
  intros k a. unfold example_bank, Bank.__init__. simpl.
  rewrite !lookup_insert. repeat case_decide; subst; try rewrite lookup_empty;
    intros [= <-] || discriminate; reflexivity.
Qed.

(** C5.  For either bank class: a transfer to the same account fails as
    an invalid request whatever the amount; otherwise a non-positive
    amount (0 included) fails as an invalid request; otherwise an id
    that is not in the bank fails as account-not-found.  In all three
    cases the call leaves the world exactly as it found it: the trace
    has no new lock event and no account has changed, so the validation
    comes before any lock is touched. *)
Theorem transfer_validation_first (cls : bank_cls) (thread_delay : Q)
    (from_id to_id : Z) (amount : Q) (w : world) :
  (from_id = to_id ->
     exists e, transfer cls thread_delay from_id to_id amount w = Raised e w
               /\ kind e = InvalidRequest /\ py_class e = ValueError) /\
  (from_id <> to_id -> (amount <= 0)%Q ->
     exists e, transfer cls thread_delay from_id to_id amount w = Raised e w
               /\ kind e = InvalidRequest /\ py_class e = ValueError) /\
  (from_id <> to_id -> (0 < amount)%Q ->
     accounts w !! from_id = None \/ accounts w !! to_id = None ->
     exists e, transfer cls thread_delay from_id to_id amount w = Raised e w
               /\ kind e = AccountNotFoundKind /\ py_class e = KeyError).
Proof.
  destruct (transfer_validation cls thread_delay from_id to_id amount w)
    as (Hsame & Hamount & Hfrom & Hto).
  repeat split.
  - intros Heq. exists SameAccount. auto.
  - intros Hne Hle. exists NonPositiveAmount. auto.
  - intros Hne Hpos Hmissing.
    destruct (accounts w !! from_id) as [fa|] eqn:Hfa.
    + destruct Hmissing as [|Hnone]; [discriminate|].
      exists (AccountNotFound to_id). split; [apply Hto; eauto | auto].
    + exists (AccountNotFound from_id). auto.
Qed.

Lemma transfer_validation_first_witness :
  let w := initial_world example_bank in
  (exists e, transfer Phase2Bank 0 1 1 100 w = Raised e w /\ kind e = InvalidRequest) /\
  (exists e, transfer Phase1Bank 0 1 2 0 w = Raised e w /\ kind e = InvalidRequest) /\
  (exists e, transfer Phase2Bank 0 1 3 100 w = Raised e w /\ kind e = AccountNotFoundKind).
Proof.
  intros w. repeat split.
  - destruct (transfer_validation_first Phase2Bank 0 1 1 100 w) as (H & _ & _).
    destruct H as (e & ? & ? & ?); [reflexivity | eauto].
  - destruct (transfer_validation_first Phase1Bank 0 1 2 0 w) as (_ & H & _).
    destruct H as (e & ? & ? & ?); [lia | apply Qle_refl | eauto].
  - destruct (transfer_validation_first Phase2Bank 0 1 3 100 w) as (_ & _ & H).
    destruct H as (e & ? & ? & ?); [lia | reflexivity | right; reflexivity | eauto].
Defined.



(** Transferring the whole balance, and one cent more. *)
Example transfer_full_balance :
  (exists w', transfer Phase1Bank 0 1 2 1000 (initial_world example_bank) = Returned tt w'
              /\ Bank.balance_of (accounts w') 1 = Some 0%Q) /\
  (exists e w', transfer Phase1Bank 0 1 2 1000.01 (initial_world example_bank) = Raised e w'
                /\ kind e = InsufficientFunds).
Proof. split; [eexists | do 2 eexists]; (split; [reflexivity|reflexivity]). Qed.

(** ** Phase1Bank against Phase2Bank, one transfer at a time *)






(** The second scenario of the specification: [transfer(5,2,100)] then
    [transfer(2,5,50)] on a Phase2Bank; both take lock 2 before lock 5. *)
Example scenario2 :
  exists w1 w2,
    transfer Phase2Bank 0 5 2 100 (initial_world scenario2_bank) = Returned tt w1 /\
    transfer Phase2Bank 0 2 5 50 w1 = Returned tt w2 /\
    Bank.balance_of (accounts w2) 5 = Some 950%Q /\
    Bank.balance_of (accounts w2) 2 = Some 1050%Q /\
    trace w2 = [Acquire 2; Acquire 5; Release 5; Release 2;
                Acquire 2; Acquire 5; Release 5; Release 2].
Proof.
  do 2 eexists. split; [vm_compute; reflexivity|].
  split; [vm_compute; reflexivity|]. repeat split.
Qed.

(** ** The steps of a task against the sequential call *)

Section ThreadRun.

Import TransactionSimulator.

Lemma lock_acquire_never_raises r w e w' : lock_acquire r w <> Raised e w'.
Proof.
  unfold lock_acquire. destruct (accounts w !! r) as [a|]; [|discriminate].
  destruct (Account.lock a); discriminate.
Qed.

Lemma lock_acquire_blocked r w w' : lock_acquire r w = Blocked w' -> w' = w.
Proof.
  unfold lock_acquire. destruct (accounts w !! r) as [a|]; [|congruence].
  destruct (Account.lock a); [congruence|discriminate].
Qed.

Lemma critical_section_blocked f t a w w' :
  critical_section f t a w = Blocked w' -> w' = w.
Proof.
  unfold critical_section, bind, read_balance.
  destruct (accounts w !! f) as [fa|]; [|congruence].
  destruct (Qltb (Account._balance fa) a); discriminate.
Qed.

Lemma thread_run_unfold fuel cls thread_delay d w p :
  (forall r, p <> Recording r) ->
  thread_run (S fuel) cls thread_delay d w p =
    match thread_step cls thread_delay d w p with
    | Some (w', p') => thread_run fuel cls thread_delay d w' p'
    | None => Blocked w
    end.
Proof. intros H. destruct p; try reflexivity. destruct (H r). reflexivity. Qed.

Lemma thread_run_recording fuel cls thread_delay d w r :
  thread_run fuel cls thread_delay d w (Recording r) =
    match r with None => Returned tt w | Some e => Raised e w end.
Proof. destruct fuel, r; reflexivity. Qed.

Ltac next_step :=
  rewrite thread_run_unfold by discriminate;
  cbn [thread_step first_account second_account from_account to_account
       TransferData.from TransferData.to TransferData.amount].

Ltac acquire_cases :=
  match goal with
  | |- context [lock_acquire ?r ?w] =>
      let E := fresh "E" in
      destruct (lock_acquire r w) as [[] ?|? ?|?] eqn:E;
      [ | exfalso; exact (lock_acquire_never_raises _ _ _ _ E)
        | apply lock_acquire_blocked in E; subst; reflexivity ]
  end.

Ltac finish_section :=
  next_step;
  match goal with
  | |- context [critical_section ?f ?t ?a ?w] =>
      let E := fresh "E" in
      destruct (critical_section f t a w) as [[] ?|? ?|?] eqn:E;
      [| |apply critical_section_blocked in E; subst; reflexivity]
  end;
  (next_step; unfold lock_release at 1, bind, update_account, emit;
   next_step; unfold lock_release at 1, bind, update_account, emit;
   rewrite thread_run_recording; reflexivity).

(** Stepping one task alone from its entry, seven steps at most, is
    the sequential [transfer] of its class: same result, same accounts,
    same trace. *)
Lemma thread_run_transfer (cls : bank_cls) (thread_delay : Q)
    (d : TransferData.t) (w : world) :
  thread_run 7 cls thread_delay d w Entered
  = transfer cls thread_delay
      (TransferData.from d) (TransferData.to d) (TransferData.amount d) w.
Proof.
  destruct d as [f t a]. cbn [TransferData.from TransferData.to TransferData.amount].
  destruct cls; cbn [transfer]; unfold Phase1Bank.transfer, Phase2Bank.transfer;
    next_step; unfold enter;
    cbn [TransferData.from TransferData.to TransferData.amount];
    (destruct (f =? t)%Z; [rewrite thread_run_recording; reflexivity|]);
    (destruct (Qle_bool a 0); [rewrite thread_run_recording; reflexivity|]);
    unfold bind at 1 2, Bank.get_account;
    (destruct (accounts w !! f) as [fa|]; [|rewrite thread_run_recording; reflexivity]);
    (destruct (accounts w !! t) as [ta|]; [|rewrite thread_run_recording; reflexivity]).
  - next_step. unfold try_finally, bind. acquire_cases.
    destruct (Qltb 0 thread_delay).
    + next_step. unfold sleep, emit, ret. next_step. acquire_cases. finish_section.
    + next_step. unfold ret. acquire_cases. finish_section.
  - destruct (Phase2Bank._get_ordered_accounts fa ta) as [first second].
    next_step. unfold try_finally, bind. acquire_cases.
    next_step. acquire_cases. finish_section.
Qed.

End ThreadRun.

(** ** Sums and counts over the tasks of a batch *)

Section ListFacts.

Context {A : Type}.
Implicit Types (f : A -> nat) (l : list A).

Lemma sum_list_with_insert f l i x y :
  l !! i = Some x ->
  sum_list_with f (<[i := y]> l) + f x = sum_list_with f l + f y.
Proof.
  revert i. induction l as [|a l IH]; intros [|i] H; simpl in *; try discriminate.
  - injection H as ->. lia.
  - specialize (IH i H). lia.
Qed.

Lemma sum_list_with_lookup f l i x :
  l !! i = Some x -> (f x <= sum_list_with f l)%nat.
Proof.
  revert i. induction l as [|a l IH]; intros [|i] H; simpl in *; try discriminate.
  - injection H as ->. lia.
  - specialize (IH i H). lia.
Qed.

Lemma sum_list_with_pos f l :
  (0 < sum_list_with f l)%nat -> exists i x, l !! i = Some x /\ (0 < f x)%nat.
Proof.
  induction l as [|a l IH]; simpl; [lia|]. intros H.
  destruct (f a) eqn:E.
  - destruct IH as (i & x & Hi & Hx); [lia|]. exists (S i), x. auto.
  - exists 0%nat, a. split; [reflexivity | lia].
Qed.

Lemma sum_list_with_zero f l :
  (forall x, x ∈ l -> f x = 0%nat) -> sum_list_with f l = 0%nat.
Proof.
  induction l as [|a l IH]; simpl; [reflexivity|]. intros H.
  rewrite (H a), IH; [reflexivity | | left]. intros x Hx. apply H. now right.
Qed.

Lemma filter_length_sum (P : A -> Prop) `{forall x, Decision (P x)} l :
  length (filter P l) = sum_list_with (fun x => if decide (P x) then 1%nat else 0%nat) l.
Proof.
  induction l as [|a l IH]; [reflexivity|].
  rewrite filter_cons. simpl. destruct (decide (P a)); simpl; lia.
Qed.

(** An element with the largest key. *)
Lemma list_argmax (g : A -> Z) l :
  l <> [] -> exists x, x ∈ l /\ forall y, y ∈ l -> (g y <= g x)%Z.
Proof.
  induction l as [|a l IH]; [congruence|]. intros _.
  destruct l as [|b l].
  - exists a. split; [left|]. intros y Hy. apply list_elem_of_singleton in Hy. subst. lia.
  - destruct IH as (x & Hx & Hmax); [congruence|].
    destruct (Z_le_gt_dec (g a) (g x)).
    + exists x. split; [now right|]. intros y Hy.
      apply elem_of_cons in Hy as [->|Hy]; auto.
    + exists a. split; [left|]. intros y Hy.
      apply elem_of_cons in Hy as [->|Hy]; [lia|]. specialize (Hmax y Hy). lia.
Qed.

End ListFacts.

(** ** One step of one task *)

Section StepFacts.

Import TransactionSimulator Inv.

Implicit Types (m : gmap Z Account.t) (w : world) (p : pc).

Lemma wf_alter m r (f : Account.t -> Account.t) :
  (forall a, Account.id (f a) = Account.id a) -> Bank.wf m -> Bank.wf (alter f r m).
Proof.
  intros Hf Hwf k a. rewrite lookup_alter. case_decide; [subst|apply Hwf].
  destruct (m !! k) as [b|] eqn:E; simpl; [|discriminate].
  intros [= <-]. rewrite Hf. eapply Hwf; eassumption.
Qed.

Lemma locked_le_1 m r : (locked m r <= 1)%nat.
Proof. unfold locked. destruct (m !! r) as [a|]; [destruct (Account.lock a)|]; lia. Qed.

Lemma locked_alter_lock m r a r' :
  m !! r = Some a -> Account.lock a = false ->
  locked (alter (fun a => Account.set_lock a true) r m) r' = (locked m r' + indicator r' r)%nat.
Proof.
  intros Ha Hl. unfold locked, indicator. rewrite lookup_alter.
  destruct (decide (r = r')) as [<-|Hne].
  - rewrite Ha. simpl. rewrite Hl. rewrite decide_True by done. reflexivity.
  - rewrite decide_False by congruence. lia.
Qed.

Lemma locked_alter_unlock m r r' :
  locked m r = 1%nat ->
  (locked (alter (fun a => Account.set_lock a false) r m) r' + indicator r' r)%nat = locked m r'.
Proof.
  unfold locked, indicator. rewrite lookup_alter.
  destruct (decide (r = r')) as [<-|Hne].
  - rewrite decide_True by done. destruct (m !! r) as [a|]; simpl; [|lia].
    destruct (Account.lock a); lia.
  - rewrite decide_False by congruence. lia.
Qed.

Lemma locked_alter_balance m r (f : Account.t -> Account.t) r' :
  (forall a, Account.lock (f a) = Account.lock a) ->
  locked (alter f r m) r' = locked m r'.
Proof.
  intros Hf. unfold locked. rewrite lookup_alter. case_decide; [subst|reflexivity].
  destruct (m !! r') as [a|]; simpl; [rewrite Hf|]; reflexivity.
Qed.

Lemma critical_section_accounts f t a w :
  match critical_section f t a w with
  | Returned _ w' => accounts w' = transferred (accounts w) f t a
  | Raised _ w' => w' = w
  | Blocked w' => w' = w
  end.
Proof.
  unfold critical_section, bind, read_balance.
  destruct (accounts w !! f) as [fa|]; [|reflexivity].
  destruct (Qltb (Account._balance fa) a); reflexivity.
Qed.

Lemma good_locals_dom cls m m' l :
  dom m = dom m' -> good_locals cls m l -> good_locals cls m' l.
Proof. unfold good_locals. intros ->. auto. Qed.

Lemma thread_step_inv cls thread_delay d w p w' p' :
  Bank.wf (accounts w) ->
  (forall r, (holds r p <= locked (accounts w) r)%nat) ->
  (forall l, pc_locals p = Some l -> good_locals cls (accounts w) l) ->
  thread_step cls thread_delay d w p = Some (w', p') ->
  Bank.wf (accounts w') /\ dom (accounts w') = dom (accounts w) /\
  (forall r, (locked (accounts w') r + holds r p = locked (accounts w) r + holds r p')%nat) /\
  (forall l, pc_locals p' = Some l -> good_locals cls (accounts w') l) /\
  (rank p' < rank p)%nat /\ is_active p = true /\ is_active p' = true.
Proof.
  intros Hwf Hheld Hloc Hstep.
  destruct p as [| |l|l|l|l|l r0|l r0|r0|]; simpl in Hstep; try discriminate.
  - (* Entered *)
    injection Hstep as <- <-.
    split; [assumption|]. split; [reflexivity|].
    assert (Hrec : forall r0, (forall r : Z,
              (locked (accounts w) r + holds r Entered
               = locked (accounts w) r + holds r (Recording r0))%nat) /\
             (forall l, pc_locals (Recording r0) = Some l -> good_locals cls (accounts w) l) /\
             (rank (Recording r0) < rank Entered)%nat /\ is_active Entered = true
             /\ is_active (Recording r0) = true).
    { intros r0. split_and!; simpl; try lia; try done. }
    unfold enter, Bank.get_account.
    destruct (_ =? _)%Z eqn:Hft; [apply Hrec|].
    destruct (Qle_bool _ _); [apply Hrec|].
    destruct (accounts w !! TransferData.from d) as [fa|] eqn:Hfa; [|apply Hrec].
    destruct (accounts w !! TransferData.to d) as [ta|] eqn:Hta; [|apply Hrec].
    apply Z.eqb_neq in Hft.
    pose proof (Hwf _ _ Hfa) as Hidf. pose proof (Hwf _ _ Hta) as Hidt.
    assert (Hdf : TransferData.from d ∈ dom (accounts w)) by (apply elem_of_dom; eauto).
    assert (Hdt : TransferData.to d ∈ dom (accounts w)) by (apply elem_of_dom; eauto).
    assert (Hgood : forall first second,
              (first = fa /\ second = ta) \/
              (first = ta /\ second = fa /\ (Account.id ta < Account.id fa)%Z) ->
              (cls = Phase2Bank -> (Account.id first < Account.id second)%Z) ->
              good_locals cls (accounts w)
                {| from_account := Account.id fa; to_account := Account.id ta;
                   first_account := Account.id first;
                   second_account := Account.id second |}).
    { intros first second Hfs Hlt. unfold good_locals. simpl.
      destruct Hfs as [[-> ->]|(-> & -> & _)]; rewrite ?Hidf, ?Hidt in *;
        split_and!; auto. }
    destruct cls; simpl.
    + split_and!; try lia; try done. intros l [= <-]. apply Hgood; [auto|discriminate].
    + unfold Phase2Bank._get_ordered_accounts.
      destruct (Z.ltb_spec (Account.id fa) (Account.id ta)); simpl;
        (split_and!; try lia; try done); intros l [= <-]; apply Hgood; auto.
      right. split_and!; auto. lia.
      intros _. lia.
  - (* AcquireFirst *)
    destruct (lock_acquire (first_account l) w) as [[] w1|?|?] eqn:E; try discriminate.
    apply lock_acquire_inv in E as (a & Ha & Hl & ->).
    injection Hstep as <- <-. cbn [accounts].
    split_and!.
    + apply wf_alter; auto.
    + apply dom_alter_L.
    + intros r. rewrite (locked_alter_lock _ _ _ _ Ha Hl).
      destruct cls; [destruct (Qltb 0 thread_delay)|]; simpl; lia.
    + intros l' Hl'. eapply good_locals_dom; [symmetry; apply dom_alter_L|].
      apply Hloc. destruct cls; [destruct (Qltb 0 thread_delay)|]; exact Hl'.
    + destruct cls; [destruct (Qltb 0 thread_delay)|]; simpl; lia.
    + reflexivity.
    + destruct cls; [destruct (Qltb 0 thread_delay)|]; reflexivity.
  - (* Sleeping *)
    injection Hstep as <- <-. cbn [accounts].
    split_and!; auto; simpl; lia.
  - (* AcquireSecond *)
    destruct (lock_acquire (second_account l) w) as [[] w1|?|?] eqn:E; try discriminate.
    apply lock_acquire_inv in E as (a & Ha & Hl & ->).
    injection Hstep as <- <-. cbn [accounts].
    split_and!.
    + apply wf_alter; auto.
    + apply dom_alter_L.
    + intros r. rewrite (locked_alter_lock _ _ _ _ Ha Hl). simpl. lia.
    + intros l' Hl'. eapply good_locals_dom; [symmetry; apply dom_alter_L|].
      apply Hloc. exact Hl'.
    + simpl; lia.
    + reflexivity.
    + reflexivity.
  - (* Critical *)
    pose proof (critical_section_accounts (from_account l) (to_account l)
                  (TransferData.amount d) w) as Hcs.
    destruct (critical_section _ _ _ w) as [[] w1|e w1|w1]; try discriminate;
      injection Hstep as <- <-.
    + rewrite Hcs. unfold transferred. split_and!.
      * do 2 (apply wf_alter; auto).
      * rewrite !dom_alter_L. reflexivity.
      * intros r. rewrite !locked_alter_balance by reflexivity. simpl. lia.
      * intros l' Hl'. eapply good_locals_dom; [|apply Hloc; exact Hl'].
        rewrite !dom_alter_L. reflexivity.
      * simpl; lia.
      * reflexivity.
      * reflexivity.
    + subst w1. split_and!; auto; simpl; lia.
  - (* ReleaseSecond *)
    unfold lock_release, bind, update_account, emit in Hstep.
    injection Hstep as <- <-. cbn [accounts].
    assert (Hone : locked (accounts w) (second_account l) = 1%nat).
    { pose proof (Hheld (second_account l)) as H1.
      pose proof (locked_le_1 (accounts w) (second_account l)).
      simpl in H1. unfold indicator at 2 in H1. rewrite decide_True in H1 by done. lia. }
    split_and!.
    + apply wf_alter; auto.
    + apply dom_alter_L.
    + intros r. pose proof (locked_alter_unlock _ _ r Hone). simpl. lia.
    + intros l' Hl'. eapply good_locals_dom; [symmetry; apply dom_alter_L|].
      apply Hloc. exact Hl'.
    + simpl; lia.
    + reflexivity.
    + reflexivity.
  - (* ReleaseFirst *)
    unfold lock_release, bind, update_account, emit in Hstep.
    injection Hstep as <- <-. cbn [accounts].
    assert (Hone : locked (accounts w) (first_account l) = 1%nat).
    { pose proof (Hheld (first_account l)) as H1.
      pose proof (locked_le_1 (accounts w) (first_account l)).
      simpl in H1. unfold indicator in H1. rewrite decide_True in H1 by done. lia. }
    split_and!.
    + apply wf_alter; auto.
    + apply dom_alter_L.
    + intros r. pose proof (locked_alter_unlock _ _ r Hone). simpl. lia.
    + intros l' [=].
    + simpl; lia.
    + reflexivity.
    + reflexivity.
Qed.

End StepFacts.

(** ** Every step keeps the invariant and lowers the measure *)

Section Preservation.

Import TransactionSimulator Inv.

Variable self : t.
Implicit Types (s : state) (p : pc).

Lemma is_done_true p : is_done p = true <-> p = Done.
Proof. destruct p; simpl; split; congruence. Qed.

Lemma all_done_lookup s i p :
  all_done (tasks s) -> tasks s !! i = Some p -> p = Done.
Proof. intros H Hi. eapply Forall_lookup in H; eauto. Qed.

(** Updating a task that is not done keeps what the caller knows. *)
Lemma main_ok_update s s' i p p' :
  tasks s !! i = Some p -> p <> Done ->
  tasks s' = <[i := p']> (tasks s) -> main s' = main s ->
  main_ok self s -> main_ok self s'.
Proof.
  intros Hi Hp Htasks Hmain. unfold main_ok. rewrite Hmain, Htasks.
  destruct (main s) as [k|b|b|m].
  - intros H j Hj. destruct (decide (j = i)) as [->|Hne].
    + specialize (H i Hj). congruence.
    + rewrite list_lookup_insert_ne by congruence. auto.
  - intros H Hb. destruct Hp. eapply all_done_lookup; eauto.
  - intros H. destruct Hp. eapply all_done_lookup; eauto.
  - intros [H _]. destruct Hp. eapply all_done_lookup; eauto.
Qed.

Lemma count_insert (P : pc -> bool) (ps : list pc) i p p' :
  ps !! i = Some p ->
  (length (filter (fun q => P q = true) (<[i := p']> ps)) + (if P p then 1 else 0)
   = length (filter (fun q => P q = true) ps) + (if P p' then 1 else 0))%nat.
Proof.
  intros Hi. rewrite !filter_length_sum.
  pose proof (sum_list_with_insert
    (fun x => if decide (P x = true) then 1%nat else 0%nat) ps i p p' Hi) as H.
  simpl in H. destruct (P p), (P p'); simpl in *;
    repeat (rewrite decide_True in H by done);
    repeat (rewrite decide_False in H by done); lia.
Qed.

Lemma holders_insert r (ps : list pc) i p p' :
  ps !! i = Some p ->
  (holders r (<[i := p']> ps) + holds r p = holders r ps + holds r p')%nat.
Proof. apply sum_list_with_insert. Qed.

Lemma task_step_inv i s s' :
  inv self s -> task_step self i s = Some s' ->
  inv self s' /\ (measure self s' < measure self s)%nat /\ flag s' = flag s.
Proof.
  intros [Hwf Hlen Hloc Hlocks Hlog Hact Hmain] Hstep.
  unfold task_step in Hstep.
  destruct (transfers_data self !! i) as [d|] eqn:Hd; [|discriminate].
  destruct (tasks s !! i) as [p|] eqn:Hp; [|discriminate].
  assert (Hrank : forall p', (rank p' < rank p)%nat ->
            (sum_list_with rank (<[i := p']> (tasks s)) < sum_list_with rank (tasks s))%nat).
  { intros p' Hlt. pose proof (sum_list_with_insert rank _ _ _ p' Hp). lia. }
  assert (Hsimple : forall p' ts,
            p <> Done -> pc_locals p' = None ->
            (forall r, holds r p = 0%nat) -> (forall r, holds r p' = 0%nat) ->
            (rank p' < rank p)%nat ->
            (length ts + (if is_done p then 1 else 0)
             = length (transactions s) + (if is_done p' then 1 else 0))%nat ->
            ((if is_active p' then 1 else 0)
               + length (filter (fun q => is_active q = true) (tasks s))
             <= max_workers self + (if is_active p then 1 else 0))%nat ->
            let s1 := {| bank := bank s; tasks := <[i := p']> (tasks s);
                         transactions := ts; main := main s |} in
            inv self s1 /\ (measure self s1 < measure self s)%nat /\ flag s1 = flag s).
  { intros p' ts Hnd Hnl Hh Hh' Hlt Hts Hac s1. subst s1. split; [|split].
    - constructor; cbn [bank tasks transactions main].
      + assumption.
      + rewrite length_insert. assumption.
      + intros j q l Hj Hq. destruct (decide (j = i)) as [->|Hne].
        * rewrite list_lookup_insert_eq in Hj by (eapply lookup_lt_Some; eauto).
          injection Hj as <-. congruence.
        * rewrite list_lookup_insert_ne in Hj by congruence. eauto.
      + intros r. pose proof (holders_insert r _ _ _ p' Hp).
        rewrite <- Hlocks. rewrite Hh, Hh' in H. lia.
      + pose proof (count_insert is_done _ _ _ p' Hp). lia.
      + pose proof (count_insert is_active _ _ _ p' Hp). lia.
      + eapply main_ok_update; eauto.
    - unfold measure. cbn [tasks main]. specialize (Hrank p' Hlt). lia.
    - reflexivity. }
  assert (Hthread :
            match thread_step (bank_class self) (thread_delay self) d (bank s) p with
            | Some (w', p') => Some (set_bank w' (set_task i p' s))
            | None => None
            end = Some s' ->
            inv self s' /\ (measure self s' < measure self s)%nat /\ flag s' = flag s).
  { destruct (thread_step _ _ d (bank s) p) as [[w' p']|] eqn:E; [|discriminate].
    intros [= <-].
    destruct (thread_step_inv _ _ _ _ _ _ _ Hwf
                ltac:(intros r; rewrite <- Hlocks; eapply sum_list_with_lookup; eauto)
                ltac:(intros l Hl; eapply Hloc; eauto) E)
      as (Hwf' & Hdom & Hlk & Hloc' & Hrk & Hact1 & Hact2).
    assert (Hnd : is_done p = false /\ is_done p' = false).
    { unfold is_active in *. split.
      - destruct (is_done p); [|reflexivity]. rewrite andb_false_r in Hact1. discriminate.
      - destruct (is_done p'); [|reflexivity]. rewrite andb_false_r in Hact2. discriminate. }
    destruct Hnd as [Hnd Hnd'].
    split; [|split].
    - constructor; cbn [bank tasks transactions main set_bank set_task].
      + assumption.
      + rewrite length_insert. assumption.
      + intros j q l Hj Hq. destruct (decide (j = i)) as [->|Hne].
        * rewrite list_lookup_insert_eq in Hj by (eapply lookup_lt_Some; eauto).
          injection Hj as <-. auto.
        * rewrite list_lookup_insert_ne in Hj by congruence.
          eapply good_locals_dom; [symmetry; exact Hdom|]. eauto.
      + intros r. pose proof (holders_insert r _ _ _ p' Hp).
        specialize (Hlk r). specialize (Hlocks r). lia.
      + pose proof (count_insert is_done _ _ _ p' Hp).
        rewrite Hnd, Hnd' in H. lia.
      + pose proof (count_insert is_active _ _ _ p' Hp).
        rewrite Hact1, Hact2 in H. lia.
      + eapply main_ok_update; [exact Hp| |reflexivity|reflexivity|assumption].
        intros ->. discriminate.
    - unfold measure. cbn [tasks main set_bank set_task]. specialize (Hrank p' Hrk). lia.
    - reflexivity. }
  destruct p as [| |l|l|l|l|l r0|l r0|r0|].
  - (* Queued *)
    destruct (can_start self i (tasks s)) eqn:Hcs; [|discriminate].
    injection Hstep as <-.
    apply (Hsimple Entered (transactions s)); simpl; try done; try lia.
    unfold can_start in Hcs. apply andb_true_iff in Hcs as [_ Hcs].
    apply Nat.ltb_lt in Hcs. lia.
  - exact (Hthread Hstep).
  - exact (Hthread Hstep).
  - exact (Hthread Hstep).
  - exact (Hthread Hstep).
  - exact (Hthread Hstep).
  - exact (Hthread Hstep).
  - exact (Hthread Hstep).
  - (* Recording *)
    injection Hstep as <-.
    apply (Hsimple Done (transactions s ++ [record_of d r0])); simpl; try done; try lia.
    rewrite length_app. simpl. lia.
  - discriminate.
Qed.

Lemma main_step_inv s s' :
  inv self s -> main_step self s = Some s' ->
  inv self s' /\ (measure self s' < measure self s)%nat /\ flag s' = flag s.
Proof.
  intros [Hwf Hlen Hloc Hlocks Hlog Hact Hmain] Hstep.
  unfold main_step in Hstep. unfold main_ok in Hmain. unfold measure, flag.
  destruct (main s) as [k|b|b|m] eqn:Hm.
  - destruct (tasks s !! k) as [p|] eqn:Hk.
    + destruct p; try discriminate. injection Hstep as <-.
      split; [|split]; [constructor; cbn [bank tasks transactions main set_main]; auto| |].
      * unfold main_ok. cbn [main set_main tasks transactions]. intros j Hj.
        destruct (decide (j = k)) as [->|]; [assumption|]. apply Hmain. lia.
      * cbn [tasks main set_main main_rank]. apply lookup_lt_Some in Hk. lia.
      * reflexivity.
    + injection Hstep as <-.
      split; [|split]; [constructor; cbn [bank tasks transactions main set_main]; auto| |].
      * unfold main_ok. cbn [main set_main tasks transactions]. intros _.
        apply Forall_lookup. intros j p Hj. apply lookup_ge_None in Hk.
        pose proof (lookup_lt_Some _ _ _ Hj) as Hlt.
        assert (Hjk : (j < k)%nat) by lia.
        specialize (Hmain j Hjk). congruence.
      * cbn [tasks main set_main main_rank]. lia.
      * reflexivity.
  - destruct (forallb is_done (tasks s)) eqn:Hall; [|discriminate].
    injection Hstep as <-.
    split; [|split]; [constructor; cbn [bank tasks transactions main set_main]; auto| |].
    + unfold main_ok. cbn [main set_main tasks transactions].
      apply Forall_forall. intros p Hp%list_elem_of_In.
      rewrite forallb_forall in Hall. apply is_done_true. auto.
    + cbn [tasks main set_main main_rank]. lia.
    + reflexivity.
  - destruct (Bank.get_total_balance _) as [final|]; [|discriminate].
    injection Hstep as <-.
    split; [|split]; [constructor; cbn [bank tasks transactions main set_main]; auto| |].
    + unfold main_ok. cbn [main set_main tasks transactions]. split; [assumption|reflexivity].
    + cbn [tasks main set_main main_rank]. lia.
    + reflexivity.
  - discriminate.
Qed.

Lemma timeout_step_inv s s' :
  inv self s -> timeout_step self s = Some s' ->
  inv self s' /\ (measure self s' < measure self s)%nat.
Proof.
  intros [Hwf Hlen Hloc Hlocks Hlog Hact Hmain] Hstep.
  unfold timeout_step in Hstep. unfold measure.
  destruct (main s) as [k|b|b|m] eqn:Hm; try discriminate.
  destruct (tasks s !! k) as [p|] eqn:Hk; [|discriminate].
  assert (s' = set_main (Shutdown true) s) as -> by (destruct p; congruence).
  split; [constructor; cbn [bank tasks transactions main set_main]; auto|].
  - unfold main_ok. cbn [main set_main tasks transactions]. discriminate.
  - cbn [tasks main set_main main_rank]. lia.
Qed.

Lemma step_inv l s s' :
  inv self s -> step self l s = Some s' ->
  inv self s' /\ (measure self s' < measure self s)%nat /\
  (l <> Timeout -> flag s' = flag s).
Proof.
  intros Hinv Hstep. destruct l as [i| |]; simpl in Hstep.
  - destruct (task_step_inv _ _ _ Hinv Hstep) as (? & ? & ?). auto.
  - destruct (main_step_inv _ _ Hinv Hstep) as (? & ? & ?). auto.
  - destruct (timeout_step_inv _ _ Hinv Hstep) as (? & ?). split_and!; auto. congruence.
Qed.

Lemma exec_inv ls s s' :
  inv self s -> exec self ls s = Some s' ->
  inv self s' /\ (length ls + measure self s' <= measure self s)%nat /\
  (Timeout ∉ ls -> flag s' = flag s).
Proof.
  revert s. induction ls as [|l ls IH]; intros s Hinv Hexec; simpl in Hexec.
  - injection Hexec as <-. auto.
  - destruct (step self l s) as [s1|] eqn:Hstep; [|discriminate].
    destruct (step_inv _ _ _ Hinv Hstep) as (Hinv1 & Hlt & Hflag).
    destruct (IH _ Hinv1 Hexec) as (Hinv' & Hle & Hflag').
    split_and!; [assumption|simpl; lia|].
    intros Hnot. rewrite Hflag', Hflag; [reflexivity| |].
    + intros ->. apply Hnot. left.
    + intros Hin. apply Hnot. now right.
Qed.

End Preservation.

(** ** The state in which the batch starts *)

Section Start.

Import TransactionSimulator Inv.

Lemma bank_init_wf (l : list Account.t) : Bank.wf (Bank.__init__ l).
Proof.
  unfold Bank.__init__.
  assert (H : forall m, Bank.wf m ->
            Bank.wf (foldl (fun d acc => <[Account.id acc := acc]> d) m l)).
  { induction l as [|a l IH]; intros m Hm; simpl; [assumption|].
    apply IH. intros k b. rewrite lookup_insert. case_decide; [|apply Hm].
    intros [= <-]. assumption. }
  apply H. intros k a. rewrite lookup_empty. discriminate.
Qed.

Lemma bank_init_idle (l : list Account.t) :
  Forall (fun a => Account.lock a = false) l -> Bank.idle (Bank.__init__ l).
Proof.
  unfold Bank.__init__. intros Hl.
  assert (H : forall m, Bank.idle m ->
            Bank.idle (foldl (fun d acc => <[Account.id acc := acc]> d) m l)).
  { induction Hl as [|a l Ha Hl IH]; intros m Hm; simpl; [assumption|].
    apply IH. intros k b. rewrite lookup_insert. case_decide; [|apply Hm].
    intros [= <-]. assumption. }
  apply H. intros k a. rewrite lookup_empty. discriminate.
Qed.

Lemma idle_locked m : Bank.idle m <-> forall r, locked m r = 0%nat.
Proof.
  unfold locked. split.
  - intros H r. destruct (m !! r) as [a|] eqn:E; [|reflexivity]. rewrite (H _ _ E). reflexivity.
  - intros H k a E. specialize (H k). rewrite E in H. destruct (Account.lock a); [discriminate|reflexivity].
Qed.

Lemma get_total_balance_idle (m : gmap Z Account.t) :
  Bank.idle m -> is_Some (Bank.get_total_balance m).
Proof.
  unfold Bank.get_total_balance.
  apply (map_fold_weak_ind (fun r (m : gmap Z Account.t) => Bank.idle m -> is_Some r)).
  - intros _. eauto.
  - intros k a m' r Hk IH Hidle.
    destruct IH as [total ->].
    { intros k' a' E. apply (Hidle k' a'). rewrite lookup_insert_ne; [assumption|].
      intros ->. congruence. }
    assert (Account.lock a = false) as Hl.
    { apply (Hidle k a). apply lookup_insert_eq. }
    unfold Account.get_balance, Account.with_lock. rewrite Hl. eauto.
Qed.

Variable self : t.

Lemma start_inv s0 :
  start self = inr s0 ->
  inv self s0 /\ flag s0 = false /\ (0 < max_workers self)%nat /\
  measure self s0 = (10 * length (transfers_data self) + 3)%nat.
Proof.
  unfold start. destruct (Nat.eqb_spec (max_workers self) 0) as [|Hmw]; [discriminate|].
  intros [= <-]. split_and!.
  - constructor; cbn [bank tasks transactions main initial_world accounts].
    + apply bank_init_wf.
    + apply length_replicate.
    + intros i p l Hi Hl. apply lookup_replicate in Hi as [-> _]. discriminate.
    + intros r. unfold holders. rewrite sum_list_with_zero.
      * symmetry. apply idle_locked. apply bank_init_idle.
        apply Forall_forall. intros a Ha.
        apply list_elem_of_fmap in Ha as (x & -> & _). reflexivity.
      * intros p Hp%elem_of_replicate. destruct Hp as [-> _]. reflexivity.
    + simpl. induction (length (transfers_data self)); simpl; auto.
    + induction (length (transfers_data self)); simpl; [lia|].
      rewrite filter_cons. simpl. assumption.
    + unfold main_ok. simpl. intros j Hj. lia.
  - reflexivity.
  - lia.
  - unfold measure. cbn [tasks main main_rank].
    induction (length (transfers_data self)) as [|n IH]; simpl in *; lia.
Qed.

(** [run] gets as far as dispatching the batch exactly when the batch
    is not empty. *)
Lemma start_nonempty :
  transfers_data self <> [] <-> exists s0, start self = inr s0.
Proof.
  unfold start, max_workers. split.
  - intros Hne. destruct (transfers_data self) as [|d ds]; [congruence|].
    simpl. eauto.
  - intros [s0 Hs0] Hnil. rewrite Hnil in Hs0. discriminate.
Qed.

End Start.

(** ** Progress under ordered locking *)

Section Progress.

Import TransactionSimulator Inv.

Variable self : t.
Implicit Types (s : state) (p : pc).

Lemma none_or_some (f : pc -> bool) (ps : list pc) :
  Forall (fun p => f p = false) ps \/ exists i p, ps !! i = Some p /\ f p = true.
Proof.
  induction ps as [|p ps IH]; [left; constructor|].
  destruct (f p) eqn:E; [right; exists 0%nat, p; auto|].
  destruct IH as [IH|(i & q & Hi & Hq)]; [left; constructor; assumption|].
  right. exists (S i), q. auto.
Qed.

Lemma task_data s i p :
  inv self s -> tasks s !! i = Some p -> is_Some (transfers_data self !! i).
Proof.
  intros Hinv Hi. apply lookup_lt_is_Some. rewrite <- (inv_length _ _ Hinv).
  eapply lookup_lt_Some; eauto.
Qed.

Lemma good_locals_lookup cls m l :
  good_locals cls m l ->
  is_Some (m !! first_account l) /\ is_Some (m !! second_account l) /\
  is_Some (m !! from_account l) /\ is_Some (m !! to_account l).
Proof.
  intros (H1 & H2 & _ & Hord & _). apply elem_of_dom in H1, H2.
  destruct Hord as [[<- <-]|[<- <-]]; auto.
Qed.

Lemma runnable_steps s i p :
  inv self s -> tasks s !! i = Some p -> runnable p = true ->
  is_Some (task_step self i s).
Proof.
  intros Hinv Hi Hrun. destruct (task_data _ _ _ Hinv Hi) as [d Hd].
  unfold task_step. rewrite Hd, Hi.
  destruct p as [| |l|l|l|l|l r0|l r0|r0|]; try discriminate; simpl; eauto.
  destruct (good_locals_lookup _ _ _ (inv_locals _ _ Hinv _ _ _ Hi eq_refl))
    as (_ & _ & [fa Hfa] & _).
  unfold critical_section, bind, read_balance. rewrite Hfa.
  destruct (Qltb _ _); simpl; eauto.
Qed.

Lemma acquire_steps s i p l r :
  inv self s -> tasks s !! i = Some p ->
  (p = AcquireFirst l /\ r = first_account l) \/
  (p = AcquireSecond l /\ r = second_account l) ->
  locked (accounts (bank s)) r = 0%nat ->
  is_Some (task_step self i s).
Proof.
  intros Hinv Hi Hp Hfree. destruct (task_data _ _ _ Hinv Hi) as [d Hd].
  assert (Hl : pc_locals p = Some l) by (destruct Hp as [[-> _]|[-> _]]; reflexivity).
  destruct (good_locals_lookup _ _ _ (inv_locals _ _ Hinv _ _ _ Hi Hl))
    as ([a1 H1] & [a2 H2] & _).
  unfold task_step. rewrite Hd, Hi.
  unfold locked in Hfree.
  destruct Hp as [[-> ->]|[-> ->]]; simpl.
  - rewrite H1 in Hfree. destruct (Account.lock a1) eqn:E; [discriminate|].
    rewrite (lock_acquire_free _ _ _ H1 E). eauto.
  - rewrite H2 in Hfree. destruct (Account.lock a2) eqn:E; [discriminate|].
    rewrite (lock_acquire_free _ _ _ H2 E). eauto.
Qed.

(** The first queued task. *)
Lemma first_queued (ps : list pc) :
  Exists (fun p => is_queued p = true) ps ->
  exists i, ps !! i = Some Queued /\
            forallb (fun p => negb (is_queued p)) (take i ps) = true.
Proof.
  induction ps as [|p ps IH]; intros H; [inversion H|].
  destruct (is_queued p) eqn:E.
  - exists 0%nat. destruct p; try discriminate. split; reflexivity.
  - destruct IH as (i & Hi & Hall).
    { inversion H; subst; [congruence|assumption]. }
    exists (S i). split; [assumption|]. simpl. rewrite E. assumption.
Qed.

Hypothesis Hordered : bank_class self = Phase2Bank.
Hypothesis Hpool : (0 < max_workers self)%nat.

(** Among the tasks that wait for their second lock, the one that
    holds the highest first lock finds its second lock free. *)
Lemma highest_waiter_steps s :
  inv self s ->
  Forall (fun p => runnable p = false) (tasks s) ->
  omap second_wanted (tasks s) <> [] ->
  exists i, is_Some (task_step self i s).
Proof.
  intros Hinv Hnone Hsome.
  destruct (list_argmax first_account _ Hsome) as (l & Hl & Hmax).
  apply list_elem_of_omap in Hl as (p & Hp & Hw).
  assert (p = AcquireSecond l) as -> by (destruct p; simpl in Hw; try discriminate; congruence).
  apply list_elem_of_lookup in Hp as [i Hi].
  exists i. eapply acquire_steps; eauto.
  destruct (locked (accounts (bank s)) (second_account l)) as [|n] eqn:Hlk; [reflexivity|].
  exfalso. rewrite <- (inv_locks _ _ Hinv) in Hlk.
  destruct (sum_list_with_pos (holds (second_account l)) (tasks s))
    as (j & q & Hj & Hq); [unfold holders in Hlk; lia|].
  assert (Hrq : runnable q = false).
  { eapply Forall_lookup in Hnone; eauto. }
  destruct q as [| |l'|l'|l'|l'|l' r0|l' r0|r0|]; simpl in Hq, Hrq;
    try discriminate; try lia.
  unfold indicator in Hq. case_decide as Heq; [|lia].
  assert (Hin : l' ∈ omap second_wanted (tasks s)).
  { apply list_elem_of_omap. exists (AcquireSecond l'). split; [|reflexivity].
    apply list_elem_of_lookup. eauto. }
  specialize (Hmax _ Hin).
  destruct (inv_locals _ _ Hinv _ _ _ Hi eq_refl) as (_ & _ & _ & _ & Hlt).
  specialize (Hlt Hordered). lia.
Qed.

(** No deadlock under ordered locking: a state of a Phase2Bank batch
    in which [run] has not returned can take a step that is not a
    timeout. *)
Lemma ordered_progress s :
  inv self s ->
  (exists m, main s = Finished m) \/
  (exists l s', l <> Timeout /\ step self l s = Some s').
Proof.
  intros Hinv.
  assert (Htask : forall i, is_Some (task_step self i s) ->
            exists l s', l <> Timeout /\ step self l s = Some s').
  { intros i [s' Hs']. exists (Task i), s'. split; [discriminate|exact Hs']. }
  destruct (none_or_some runnable (tasks s)) as [Hnone|(i & p & Hi & Hr)].
  2:{ right. apply (Htask i). eapply runnable_steps; eauto. }
  destruct (omap second_wanted (tasks s)) as [|l0 ls0] eqn:Hsec.
  2:{ right. destruct (highest_waiter_steps s Hinv Hnone) as [i Hi];
        [rewrite Hsec; discriminate|]. eauto. }
  (* nobody waits for a second lock: no lock is held at all *)
  assert (Hfree : forall r, locked (accounts (bank s)) r = 0%nat).
  { intros r. rewrite <- (inv_locks _ _ Hinv). apply sum_list_with_zero.
    intros p Hp. pose proof Hp as Hp'. eapply Forall_forall in Hp'; [|exact Hnone].
    simpl in Hp'.
    destruct p as [| |l|l|l|l|l r0|l r0|r0|]; try discriminate; try reflexivity.
    assert (l ∈ omap second_wanted (tasks s)) as Hin.
    { apply list_elem_of_omap. exists (AcquireSecond l). auto. }
    rewrite Hsec in Hin. inversion Hin. }
  destruct (none_or_some wants_first (tasks s)) as [Hnofirst|(i & p & Hi & Hf)].
  2:{ right. apply (Htask i). destruct p; try discriminate.
      eapply acquire_steps; eauto. }
  (* every task is queued or done *)
  assert (Hqd : forall p, p ∈ tasks s -> p = Queued \/ p = Done).
  { intros p Hp. pose proof Hp as Hp1. pose proof Hp as Hp2.
    eapply Forall_forall in Hp1; [|exact Hnone].
    eapply Forall_forall in Hp2; [|exact Hnofirst]. simpl in *.
    destruct p as [| |l|l|l|l|l r0|l r0|r0|]; try discriminate; auto.
    assert (l ∈ omap second_wanted (tasks s)) as Hin.
    { apply list_elem_of_omap. exists (AcquireSecond l). auto. }
    rewrite Hsec in Hin. inversion Hin. }
  destruct (none_or_some is_queued (tasks s)) as [Hnq|(i & p & Hi & Hq)].
  2:{ right. destruct (first_queued (tasks s)) as (i' & Hi' & Hbefore).
      { apply Exists_exists. exists p. split; [|assumption].
        apply list_elem_of_lookup. eauto. }
      apply (Htask i'). destruct (task_data _ _ _ Hinv Hi') as [d Hd].
      unfold task_step. rewrite Hd, Hi'. unfold can_start. rewrite Hbefore.
      assert (Hzero : length (filter (fun p => is_active p = true) (tasks s)) = 0%nat).
      { rewrite filter_length_sum. apply sum_list_with_zero. intros q Hq'.
        destruct (Hqd q Hq') as [-> | ->]; reflexivity. }
      rewrite Hzero. apply Nat.ltb_lt in Hpool. rewrite Hpool. simpl. eauto. }
  assert (Hdone : all_done (tasks s)).
  { apply Forall_forall. intros p Hp. destruct (Hqd p Hp) as [-> | ->]; [|reflexivity].
    eapply Forall_forall in Hnq; [|exact Hp]. discriminate. }
  (* only the caller of run is left *)
  destruct (main s) as [k|b|b|m] eqn:Hm.
  - right. exists Main. unfold step, main_step. rewrite Hm.
    destruct (tasks s !! k) as [p|] eqn:Hk.
    + rewrite (all_done_lookup _ _ _ Hdone Hk). eexists. split; [discriminate|reflexivity].
    + eexists. split; [discriminate|reflexivity].
  - right. exists Main. unfold step, main_step. rewrite Hm.
    replace (forallb is_done (tasks s)) with true.
    + eexists. split; [discriminate|reflexivity].
    + symmetry. apply forallb_forall. intros p Hp%list_elem_of_In.
      eapply Forall_forall in Hdone; [|exact Hp]. rewrite Hdone. reflexivity.
  - right. exists Main. unfold step, main_step. rewrite Hm.
    destruct (get_total_balance_idle (accounts (bank s))) as [total ->].
    + apply idle_locked. exact Hfree.
    + eexists. split; [discriminate|reflexivity].
  - left. eauto.
Qed.

(** Every batch gets to the end without a timeout. *)
Lemma ordered_completion s :
  inv self s ->
  exists ls s' m, (Timeout ∉ ls) /\ exec self ls s = Some s' /\ main s' = Finished m.
Proof.
  remember (measure self s) as n eqn:Hn. revert s Hn.
  induction n as [n IH] using lt_wf_ind. intros s -> Hinv.
  destruct (ordered_progress s Hinv) as [[m Hm]|(l & s1 & Hl & Hstep)].
  - exists [], s, m. split_and!; [apply not_elem_of_nil|reflexivity|assumption].
  - destruct (step_inv _ _ _ _ Hinv Hstep) as (Hinv1 & Hlt & _).
    destruct (IH _ Hlt s1 eq_refl Hinv1) as (ls & s' & m & Hno & Hexec & Hm).
    exists (l :: ls), s', m. split_and!; [|simpl; rewrite Hstep; assumption|assumption].
    intros Hin. apply elem_of_cons in Hin as [Heq|Hin]; [congruence|auto].
Qed.

End Progress.

(** ** The wait-for relation under ordered locking *)

Section WaitFor.

Import TransactionSimulator Inv.

Variable self : t.
Hypothesis Hordered : bank_class self = Phase2Bank.

Lemma waits_for_increasing s i j :
  inv self s -> waits_for s i j ->
  exists p r, tasks s !! i = Some p /\ wanted p = Some r /\
    forall q r', tasks s !! j = Some q -> wanted q = Some r' -> (r < r')%Z.
Proof.
  intros Hinv (p & q & r & Hi & Hj & Hw & Hh).
  exists p, r. split_and!; [assumption..|].
  intros q' r' Hj' Hw'. assert (q' = q) as -> by congruence.
  destruct q as [| |l|l|l|l|l r0|l r0|r0|]; simpl in Hw', Hh; try discriminate; try lia.
  injection Hw' as <-. unfold indicator in Hh. case_decide as Heq; [subst r|lia].
  destruct (inv_locals _ _ Hinv _ _ _ Hj eq_refl) as (_ & _ & _ & _ & Hlt).
  exact (Hlt Hordered).
Qed.

Lemma wait_chain_increasing s i j :
  inv self s -> tc (waits_for s) i j ->
  exists p r, tasks s !! i = Some p /\ wanted p = Some r /\
    forall q r', tasks s !! j = Some q -> wanted q = Some r' -> (r < r')%Z.
Proof.
  intros Hinv Htc. induction Htc as [i j H|i k j H Htc IH].
  - apply waits_for_increasing; assumption.
  - destruct (waits_for_increasing _ _ _ Hinv H) as (p & r & Hi & Hw & Hlt).
    destruct IH as (pk & rk & Hk & Hwk & Hltk).
    exists p, r. split_and!; [assumption..|].
    intros q r' Hj Hwj. specialize (Hlt _ _ Hk Hwk). specialize (Hltk _ _ Hj Hwj). lia.
Qed.

(** No circular wait under ordered locking. *)
Lemma no_wait_cycle s i :
  inv self s -> ~ tc (waits_for s) i i.
Proof.
  intros Hinv Hcycle.
  destruct (wait_chain_increasing _ _ _ Hinv Hcycle) as (p & r & Hi & Hw & Hlt).
  specialize (Hlt _ _ Hi Hw). lia.
Qed.

End WaitFor.

(** ** Whole batches *)

Section Batch.

Import TransactionSimulator Inv.

Lemma exec_app self ls1 ls2 s :
  exec self (ls1 ++ ls2) s =
    match exec self ls1 s with Some s1 => exec self ls2 s1 | None => None end.
Proof.
  revert s. induction ls1 as [|l ls1 IH]; intros s; simpl; [reflexivity|].
  destruct (step self l s); [apply IH|reflexivity].
Qed.

Lemma count_success_total (ts : list Transaction.t) :
  (count_success true ts + count_success false ts = length ts)%nat.
Proof.
  unfold count_success. induction ts as [|x ts IH]; [reflexivity|].
  rewrite !filter_cons. destruct (Transaction.success x); simpl in *; lia.
Qed.

Lemma all_done_count (ps : list pc) :
  all_done ps -> length (filter (fun p => is_done p = true) ps) = length ps.
Proof.
  induction 1 as [|p ps Hp _ IH]; [reflexivity|].
  rewrite filter_cons. subst p. simpl. lia.
Qed.

(** When [run] returns, every task of the batch has left its record. *)
Lemma finished_records self s m :
  inv self s -> main s = Finished m ->
  all_done (tasks s) /\
  m = metrics self (flag s) (transactions s) /\
  length (transactions s) = length (transfers_data self).
Proof.
  intros Hinv Hm. pose proof (inv_main _ _ Hinv) as Hmain.
  unfold main_ok in Hmain. rewrite Hm in Hmain. destruct Hmain as [Hdone Heq].
  split_and!; [assumption| |].
  - unfold flag. rewrite Hm. assumption.
  - rewrite (inv_log _ _ Hinv), all_done_count by assumption.
    apply (inv_length _ _ Hinv).
Qed.

Lemma run_inv self ls m :
  run self ls = Some (inr m) ->
  exists s0 s, start self = inr s0 /\ exec self ls s0 = Some s /\
               main s = Finished m /\ inv self s /\
               (Timeout ∉ ls -> flag s = false).
Proof.
  unfold run. destruct (start self) as [e|s0] eqn:Hstart; [discriminate|].
  destruct (exec self ls s0) as [s|] eqn:Hexec; [|discriminate].
  destruct (main s) as [| | |m'] eqn:Hm; try discriminate. intros [= <-].
  destruct (start_inv _ _ Hstart) as (Hinv0 & Hflag0 & _).
  destruct (exec_inv _ _ _ _ Hinv0 Hexec) as (Hinv & _ & Hflag).
  exists s0, s. split_and!; auto. intros Hno. rewrite Hflag; auto.
Qed.

End Batch.


(** ** The claims about whole batches *)

Section Claims.

Import TransactionSimulator Inv.

(** C1.  A batch run on a Phase2Bank cannot deadlock.  In every state
    that a schedule of a non-empty batch reaches:
    - every task that has chosen its lock order takes the lock of the
      lower id first and the lock of the higher id second, whatever
      the direction of its transfer;
    - no task waits, through any chain of tasks waiting for locks that
      the next one holds, for itself (no circular wait);
    - unless [run] has returned, some step other than a timeout is
      possible (no state is stuck on locks);
    - the schedule is at most [10 * n + 3] steps long, so every
      schedule ends;
    - the batch can be run to the end from there without any timeout,
      and then every task is done and has left its record;
    - if no timeout has fired, the metrics that [run] returns have
      [deadlocked = false] and one record per submitted transfer. *)
Theorem ordered_discipline_deadlock_free (self : t) (s0 s : state) (ls : list label) :
  bank_class self = Phase2Bank ->
  start self = inr s0 ->
  exec self ls s0 = Some s ->
  (forall i p l, tasks s !! i = Some p -> pc_locals p = Some l ->
     (first_account l < second_account l)%Z /\
     first_account l = Z.min (from_account l) (to_account l) /\
     second_account l = Z.max (from_account l) (to_account l)) /\
  (forall i, ~ tc (waits_for s) i i) /\
  ((exists m, main s = Finished m) \/
   (exists l s', l <> Timeout /\ step self l s = Some s')) /\
  (length ls + measure self s <= 10 * length (transfers_data self) + 3)%nat /\
  (exists ls' s' m,
     (Timeout ∉ ls') /\ exec self ls' s = Some s' /\ main s' = Finished m /\
     all_done (tasks s') /\
     length (SimulationMetrics.transactions m) = length (transfers_data self)) /\
  ((Timeout ∉ ls) -> forall m, main s = Finished m ->
     SimulationMetrics.deadlocked m = false /\
     length (SimulationMetrics.transactions m) = length (transfers_data self)).
Proof.
  intros Hcls Hstart Hexec.
  destruct (start_inv _ _ Hstart) as (Hinv0 & Hflag0 & Hpool & Hmeasure).
  destruct (exec_inv _ _ _ _ Hinv0 Hexec) as (Hinv & Hle & Hflag).
  split_and!.
  - intros i p l Hi Hl.
    destruct (inv_locals _ _ Hinv _ _ _ Hi Hl) as (_ & _ & Hne & Hord & Hlt).
    specialize (Hlt Hcls). destruct Hord as [[? ?]|[? ?]]; lia.
  - intros i. eapply no_wait_cycle; eassumption.
  - apply ordered_progress; assumption.
  - lia.
  - destruct (ordered_completion self Hcls Hpool s Hinv) as (ls' & s' & m & Hno & Hexec' & Hm).
    exists ls', s', m.
    destruct (exec_inv _ _ _ _ Hinv Hexec') as (Hinv' & _ & _).
    destruct (finished_records _ _ _ Hinv' Hm) as (Hdone & -> & Hlen).
    split_and!; auto.
  - intros Hno m Hm.
    destruct (finished_records _ _ _ Hinv Hm) as (Hdone & -> & Hlen).
    cbn [SimulationMetrics.deadlocked SimulationMetrics.transactions metrics].
    rewrite Hflag by assumption. auto.
Qed.

Lemma ordered_discipline_deadlock_free_witness :
  exists m, run ordered_sim ordered_schedule = Some (inr m) /\
            SimulationMetrics.deadlocked m = false /\
            length (SimulationMetrics.transactions m) = 2%nat.
Proof.
  destruct (start ordered_sim) as [e|s0] eqn:Hstart; [vm_compute in Hstart; discriminate|].
  destruct (exec ordered_sim ordered_schedule s0) as [s|] eqn:Hexec; cycle 1.
  { vm_compute in Hstart. injection Hstart as <-. vm_compute in Hexec. discriminate. }
  destruct (main s) as [k|b|b|m] eqn:Hm;
    try (vm_compute in Hstart; injection Hstart as <-;
         vm_compute in Hexec; injection Hexec as <-; discriminate).
  exists m. unfold run. rewrite Hstart, Hexec, Hm. split; [reflexivity|].
  refine (proj2 (proj2 (proj2 (proj2 (proj2
            (ordered_discipline_deadlock_free ordered_sim s0 s ordered_schedule
               eq_refl Hstart Hexec))))) _ m Hm).
  unfold ordered_schedule. intros Hin.
  repeat (apply elem_of_cons in Hin as [Hin|Hin]; [discriminate|]).
  inversion Hin.
Defined.

(** C7 (evaluation at the failing input).  Phase1Bank, two opposing
    transfers between accounts 1 and 2, each task holding its first
    lock and waiting for the other's (a circular wait) when the wait
    for the first future times out.  The claim has
    [run] return metrics with [deadlocked = true] from the records
    collected so far (none here).  In the code the timeout leaves the
    [with] block of the executor, whose exit joins the pool threads:
    the state reached is stuck, no step of any thread is possible from
    it, and no continuation of the schedule makes [run] return. *)
Theorem timeout_in_deadlock_never_returns :
  exists s0 s,
    start naive_sim = inr s0 /\
    exec naive_sim deadlock_schedule s0 = Some s /\
    main s = Shutdown true /\
    transactions s = [] /\
    waits_for s 0 1 /\ waits_for s 1 0 /\
    (forall l, step naive_sim l s = None) /\
    (forall ls, run naive_sim (deadlock_schedule ++ ls) = None).
Proof.
  destruct (start naive_sim) as [e|s0] eqn:Hstart; [vm_compute in Hstart; discriminate|].
  destruct (exec naive_sim deadlock_schedule s0) as [s|] eqn:Hexec; cycle 1.
  { vm_compute in Hstart. injection Hstart as <-. vm_compute in Hexec. discriminate. }
  assert (Hstuck : forall l, step naive_sim l s = None).
  { vm_compute in Hstart. injection Hstart as <-.
    vm_compute in Hexec. injection Hexec as <-.
    intros [i| |]; [|reflexivity|reflexivity].
    destruct i as [|[|i]]; [reflexivity|reflexivity|]. reflexivity. }
  exists s0, s. split_and!; auto.
  - vm_compute in Hstart. injection Hstart as <-.
    vm_compute in Hexec. injection Hexec as <-. reflexivity.
  - vm_compute in Hstart. injection Hstart as <-.
    vm_compute in Hexec. injection Hexec as <-. reflexivity.
  - vm_compute in Hstart. injection Hstart as <-.
    vm_compute in Hexec. injection Hexec as <-.
    do 3 eexists. split_and!; [reflexivity|reflexivity|reflexivity|]. vm_compute. lia.
  - vm_compute in Hstart. injection Hstart as <-.
    vm_compute in Hexec. injection Hexec as <-.
    do 3 eexists. split_and!; [reflexivity|reflexivity|reflexivity|]. vm_compute. lia.
  - intros ls. unfold run. rewrite Hstart, exec_app, Hexec.
    destruct ls as [|l ls]; simpl.
    + vm_compute in Hstart. injection Hstart as <-.
      vm_compute in Hexec. injection Hexec as <-. reflexivity.
    + rewrite Hstuck. reflexivity.
Qed.

(** The third scenario of the specification under one schedule: all 80
    transfers succeed, the total balance is still 40000 and [deadlocked]
    is false. *)
Example stress_run :
  exists s m,
    exec stress_sim stress_schedule
      (match start stress_sim with
       | inr s0 => s0
       | inl _ => Build_state (initial_world ∅) [] [] (Waiting 0)
       end) = Some s /\
    main s = Finished m /\
    SimulationMetrics.successful_transfers m = 80%nat /\
    SimulationMetrics.failed_transfers m = 0%nat /\
    SimulationMetrics.deadlocked m = false /\
    Bank.get_total_balance (accounts (bank s)) = Some 40000%Q.
Proof.
  do 2 eexists. split; [vm_compute; reflexivity|].
  split; [reflexivity|]. repeat split.
Qed.

(** Whenever [run] returns, it has waited for every task. *)
Lemma run_returns_all_records (self : t) (ls : list label) (m : SimulationMetrics.t) :
  run self ls = Some (inr m) ->
  length (SimulationMetrics.transactions m) = length (transfers_data self).
Proof.
  intros Hrun.
  destruct (run_inv _ _ _ Hrun) as (s0 & s & _ & _ & Hm & Hinv & _).
  destruct (finished_records _ _ _ Hinv Hm) as (_ & -> & Hlen). exact Hlen.
Qed.

End Claims.

(** ** The size of the pool *)

(** C8 (counterexample).  The claim gives [run] a worker-cap parameter
    and a pool of [min(len(requests), workerCap)] threads.  For the 80
    transfers of the stress scenario and a cap of 8 that is 8 threads;
    the simulator has no such parameter and sizes the pool at 20. *)
Lemma pool_size_ignores_worker_cap :
  length stress_transfers = 80%nat /\
  spec_pool_size stress_transfers 8 = 8%nat /\
  TransactionSimulator.max_workers stress_sim = 20%nat /\
  TransactionSimulator.max_workers stress_sim <> spec_pool_size stress_transfers 8.
Proof. vm_compute. repeat split; try reflexivity. discriminate. Qed.

(** C8 (amended).  The cap is the constant 20: a batch that [run]
    dispatches goes to a pool of [min(len(requests), 20)] threads, a
    positive number, and under every schedule at most that many tasks
    of the batch are in progress at a time. *)
Theorem pool_size_is_capped_at_20 (self : TransactionSimulator.t)
    (s0 s : TransactionSimulator.state) (ls : list TransactionSimulator.label) :
  TransactionSimulator.start self = inr s0 ->
  TransactionSimulator.exec self ls s0 = Some s ->
  TransactionSimulator.max_workers self
    = spec_pool_size (TransactionSimulator.transfers_data self) 20 /\
  (0 < TransactionSimulator.max_workers self)%nat /\
  (length (filter (fun p => TransactionSimulator.is_active p = true)
             (TransactionSimulator.tasks s))
   <= TransactionSimulator.max_workers self)%nat.
Proof.
  intros Hstart Hexec.
  destruct (start_inv _ _ Hstart) as (Hinv0 & _ & Hpool & _).
  destruct (exec_inv _ _ _ _ Hinv0 Hexec) as (Hinv & _ & _).
  split_and!; [reflexivity | assumption | apply (Inv.inv_active _ _ Hinv)].
Qed.

Lemma pool_size_is_capped_at_20_witness :
  TransactionSimulator.max_workers ordered_sim = 2%nat /\
  exists s, TransactionSimulator.exec ordered_sim
              (firstn 2 ordered_schedule)
              (match TransactionSimulator.start ordered_sim with
               | inr s0 => s0
               | inl _ => TransactionSimulator.Build_state (initial_world ∅) [] []
                            (TransactionSimulator.Waiting 0)
               end) = Some s /\
            (length (filter (fun p => TransactionSimulator.is_active p = true)
                       (TransactionSimulator.tasks s)) <= 2)%nat.
Proof.
  split; [reflexivity|].
  destruct (TransactionSimulator.start ordered_sim) as [e|s0] eqn:Hstart;
    [vm_compute in Hstart; discriminate|].
  destruct (TransactionSimulator.exec ordered_sim (firstn 2 ordered_schedule) s0)
    as [s|] eqn:Hexec; cycle 1.
  { vm_compute in Hstart. injection Hstart as <-. vm_compute in Hexec. discriminate. }
  exists s. split; [reflexivity|].
  exact (proj2 (proj2 (pool_size_is_capped_at_20 ordered_sim s0 s
                         (firstn 2 ordered_schedule) Hstart Hexec))).
Defined.

(* ================================================================== *)
(** * Part IV: further properties of the code *)
(* ================================================================== *)

(** ** The total balance *)

Section Totals.

Implicit Types (m : gmap Z Account.t).

Lemma Qplus_swap (x y z : Q) : (x + (y + z))%Q = (y + (x + z))%Q.
Proof.
  destruct x as [xn xd], y as [yn yd], z as [zn zd]. unfold Qplus. simpl.
  f_equal; [|lia]. rewrite !Pos2Z.inj_mul. ring.
Qed.

Lemma sum_balances_insert m k a :
  m !! k = None ->
  sum_balances (<[k := a]> m) = (Account._balance a + sum_balances m)%Q.
Proof.
  intros Hk. unfold sum_balances.
  apply (map_fold_insert_L (fun _ a acc => (Account._balance a + acc)%Q)); [|assumption].
  intros. apply Qplus_swap.
Qed.

Lemma sum_balances_delete m k a :
  m !! k = Some a ->
  sum_balances m = (Account._balance a + sum_balances (delete k m))%Q.
Proof.
  intros Hk. rewrite <- (insert_delete_id m k a Hk) at 1.
  apply sum_balances_insert. apply lookup_delete_eq.
Qed.

Lemma sum_balances_alter m k a (f : Account.t -> Account.t) :
  m !! k = Some a ->
  (sum_balances (alter f k m) + Account._balance a
   == sum_balances m + Account._balance (f a))%Q.
Proof.
  intros Hk.
  rewrite (sum_balances_delete m k a Hk).
  rewrite (sum_balances_delete (alter f k m) k (f a)).
  - rewrite delete_alter_eq. ring.
  - rewrite lookup_alter_eq, Hk. reflexivity.
Qed.


Lemma sum_balances_transferred m from_id to_id amount :
  from_id <> to_id -> is_Some (m !! from_id) -> is_Some (m !! to_id) ->
  (sum_balances (transferred m from_id to_id amount) == sum_balances m)%Q.
Proof.
  intros Hne [fa Hfa] [ta Hta]. unfold transferred.
  set (m1 := alter _ from_id m).
  assert (Hta1 : m1 !! to_id = Some ta).
  { unfold m1. rewrite lookup_alter_ne by assumption. assumption. }
  pose proof (sum_balances_alter m from_id fa
    (fun a => Account.set_balance a (Account._balance a - amount)) Hfa) as H1.
  pose proof (sum_balances_alter m1 to_id ta
    (fun a => Account.set_balance a (Account._balance a + amount)) Hta1) as H2.
  fold m1 in H1. simpl in H1, H2. lra.
Qed.

(** [get_total_balance] returns exactly when no lock is held, and then
    it returns the sum of the balances. *)
Lemma get_total_balance_spec m :
  (Bank.idle m -> Bank.get_total_balance m = Some (sum_balances m)) /\
  (~ Bank.idle m -> Bank.get_total_balance m = None).
Proof.
  unfold Bank.get_total_balance, sum_balances.
  apply (map_fold_weak_ind (fun r (m : gmap Z Account.t) =>
    (Bank.idle m -> r = Some (map_fold (fun _ a acc => (Account._balance a + acc)%Q) 0%Q m)) /\
    (~ Bank.idle m -> r = None))).
  - split; [intros _; rewrite map_fold_empty; reflexivity|].
    intros H. destruct H. intros k a. rewrite lookup_empty. discriminate.
  - intros k a m' r Hk [IH1 IH2].
    assert (Hidle : Bank.idle (<[k := a]> m') <-> Account.lock a = false /\ Bank.idle m').
    { split.
      - intros H. split; [apply (H k a), lookup_insert_eq|].
        intros k' a' E. apply (H k' a'). rewrite lookup_insert_ne; [assumption|congruence].
      - intros [Hl H] k' a'. rewrite lookup_insert. case_decide; [intros [= <-]; assumption|apply H]. }
    fold (sum_balances m') in *. fold (sum_balances (<[k:=a]> m')).
    rewrite sum_balances_insert by assumption.
    unfold Account.get_balance, Account.with_lock.
    split.
    + intros [Hl H]%Hidle. rewrite (IH1 H), Hl. reflexivity.
    + intros Hn. destruct (Account.lock a) eqn:Hl.
      * destruct r; reflexivity.
      * rewrite IH2; [reflexivity|]. intros H. apply Hn, Hidle. auto.
Qed.


End Totals.

(** ** Building the bank *)

Section BankInit.

Lemma bank_init_lookup (l : list Account.t) (k : Z) :
  Bank.__init__ l !! k = last (filter (fun a => Account.id a = k) l).
Proof.
  unfold Bank.__init__.
  assert (H : forall m : gmap Z Account.t,
    foldl (fun d acc => <[Account.id acc := acc]> d) m l !! k
    = match last (filter (fun a => Account.id a = k) l) with
      | Some a => Some a
      | None => m !! k
      end).
  { induction l as [|a l IH]; intros m; simpl; [reflexivity|].
    rewrite IH, filter_cons. case_decide as Hk.
    - rewrite last_cons. destruct (last _); [reflexivity|].
      subst k. apply lookup_insert_eq.
    - destruct (last _); [reflexivity|]. apply lookup_insert_ne. assumption. }
  rewrite H, lookup_empty. destruct (last _); reflexivity.
Qed.

(** X1.  The bank built from a list of accounts answers [get_account]
    with the last account of the list that has the id (a later account
    replaces an earlier one with the same id), and raises
    account-not-found exactly when no account of the list has the id. *)
Theorem get_account_after_init (l : list Account.t) (k : Z) :
  let w := initial_world (Bank.__init__ l) in
  (forall a, last (filter (fun a => Account.id a = k) l) = Some a ->
     Bank.get_account k w = Returned a w) /\
  ((forall a, a ∈ l -> Account.id a <> k) <->
     Bank.get_account k w = Raised (AccountNotFound k) w).
Proof.
  intros w. unfold Bank.get_account. subst w. cbn [accounts initial_world].
  rewrite bank_init_lookup. split.
  - intros a ->. reflexivity.
  - destruct (last _) as [a|] eqn:Hlast; split.
    + intros Hnone. exfalso. apply last_Some_elem_of in Hlast.
      apply list_elem_of_filter in Hlast as [Hid Hin]. exact (Hnone a Hin Hid).
    + discriminate.
    + reflexivity.
    + intros _ a Hin Hid. apply last_None in Hlast.
      assert (a ∈ filter (fun a => Account.id a = k) l) as Ha
        by (apply list_elem_of_filter; auto).
      rewrite Hlast in Ha. inversion Ha.
Qed.

End BankInit.

(** ** Ints stay ints *)

Section PyInt.

Implicit Types (m : gmap Z Account.t) (x y : Q).

Lemma py_int_plus x y : py_int x -> py_int y -> py_int (x + y).
Proof. unfold py_int. destruct x, y; simpl. intros -> ->. reflexivity. Qed.

Lemma py_int_opp x : py_int x -> py_int (- x).
Proof. unfold py_int. destruct x; simpl. auto. Qed.

Lemma py_int_minus x y : py_int x -> py_int y -> py_int (x - y).
Proof. intros Hx Hy. apply py_int_plus; [assumption|apply py_int_opp; assumption]. Qed.

(** Two ints that are equal as rationals are the same int. *)
Lemma py_int_eq x y : py_int x -> py_int y -> (x == y)%Q -> x = y.
Proof.
  unfold py_int, Qeq. destruct x, y; simpl. intros -> -> H. f_equal. lia.
Qed.

Lemma int_accounts_alter m k (f : Account.t -> Account.t) :
  (forall a, py_int (Account._balance a) -> py_int (Account._balance (f a))) ->
  int_accounts m -> int_accounts (alter f k m).
Proof.
  intros Hf Hm k' a'. rewrite lookup_alter. case_decide; [subst|apply Hm].
  destruct (m !! k') as [a|] eqn:E; simpl; [|discriminate].
  intros [= <-]. apply Hf. eapply Hm; eauto.
Qed.

Lemma int_accounts_transferred m from_id to_id amount :
  py_int amount -> int_accounts m -> int_accounts (transferred m from_id to_id amount).
Proof.
  intros Ha Hm. unfold transferred.
  apply int_accounts_alter; [intros a H; simpl; apply py_int_plus; assumption|].
  apply int_accounts_alter; [intros a H; simpl; apply py_int_minus; assumption|].
  assumption.
Qed.

Lemma py_int_sum_balances m : int_accounts m -> py_int (sum_balances m).
Proof.
  induction m as [|k a m Hk _ IH] using map_first_key_ind; intros Hm.
  - reflexivity.
  - rewrite sum_balances_insert by assumption. apply py_int_plus.
    + apply (Hm k). apply lookup_insert_eq.
    + apply IH. intros k' a' Hk'. apply (Hm k').
      rewrite lookup_insert_ne; [assumption|]. intros ->. congruence.
Qed.

Lemma bank_init_int (l : list Account.t) :
  Forall (fun a => py_int (Account._balance a)) l -> int_accounts (Bank.__init__ l).
Proof.
  intros Hall k a. rewrite bank_init_lookup. intros Hlast%last_Some_elem_of.
  apply list_elem_of_filter in Hlast as [_ Hin].
  eapply Forall_forall in Hall; [|exact Hin]. exact Hall.
Qed.

Lemma int_call_amount (c : account_call) : int_call c -> py_int (call_amount c).
Proof. destruct c; simpl; [auto|apply py_int_opp]. Qed.

End PyInt.

(** ** Transfers, one after the other *)

Section SequentialExtras.

Implicit Types (m : gmap Z Account.t) (w : world).

Lemma idle_alter m k (f : Account.t -> Account.t) :
  (forall a, Account.lock (f a) = Account.lock a) -> Bank.idle m -> Bank.idle (alter f k m).
Proof.
  intros Hf Hidle. apply idle_locked. intros r.
  rewrite locked_alter_balance by assumption. apply idle_locked. assumption.
Qed.

Lemma idle_transferred m from_id to_id amount :
  Bank.idle m -> Bank.idle (transferred m from_id to_id amount).
Proof. intros H. unfold transferred. do 2 (apply idle_alter; [reflexivity|]). assumption. Qed.


(** On an idle well-formed bank a transfer either raises and leaves
    the accounts, or returns after moving the amount. *)
Lemma transfer_idle_cases cls thread_delay from_id to_id amount w :
  Bank.wf (accounts w) -> Bank.idle (accounts w) ->
  (exists e w', transfer cls thread_delay from_id to_id amount w = Raised e w'
                /\ accounts w' = accounts w) \/
  (exists w' fa ta,
     transfer cls thread_delay from_id to_id amount w = Returned tt w' /\
     accounts w' = transferred (accounts w) from_id to_id amount /\
     from_id <> to_id /\ (0 < amount)%Q /\
     accounts w !! from_id = Some fa /\ accounts w !! to_id = Some ta /\
     (amount <= Account._balance fa)%Q).
Proof.
  intros Hwf Hidle.
  destruct (transfer_validation cls thread_delay from_id to_id amount w)
    as (Hsame & Hamount & Hfrom & Hto).
  destruct (decide (from_id = to_id)) as [Heq|Hne]; [left; eauto|].
  destruct (Qlt_le_dec 0 amount) as [Hpos|Hle]; [|left; eauto].
  destruct (accounts w !! from_id) as [fa|] eqn:Hfa; [|left; eauto].
  destruct (accounts w !! to_id) as [ta|] eqn:Hta; [|left; eauto 10].
  pose proof (Hidle _ _ Hfa) as Hlf. pose proof (Hidle _ _ Hta) as Hlt.
  rewrite (transfer_free cls thread_delay _ _ _ _ _ _ Hwf Hne Hpos Hfa Hta Hlf Hlt).
  cbv zeta. destruct (Qltb (Account._balance fa) amount) eqn:Hfunds.
  - left. eauto.
  - right. apply Qltb_ge in Hfunds. do 3 eexists. split_and!; eauto.
Qed.

(** X3.  For balances and an amount that are Python ints (there every
    sum is exact): on a well-formed bank with no lock held, a transfer
    of either class, whether it returns or raises and whatever its ids
    and its int amount, leaves int balances and a bank whose total
    balance can be read again and is the very total read before. *)
Theorem transfer_conserves_total (cls : bank_cls) (thread_delay : Q)
    (from_id to_id : Z) (amount : Q) (w : world) :
  Bank.wf (accounts w) -> Bank.idle (accounts w) ->
  int_accounts (accounts w) -> py_int amount ->
  let after := accounts (final_world (transfer cls thread_delay from_id to_id amount w)) in
  int_accounts after /\
  exists total,
    py_int total /\
    Bank.get_total_balance (accounts w) = Some total /\
    Bank.get_total_balance after = Some total.
Proof.
  intros Hwf Hidle Hint Hamount after. subst after.
  destruct (transfer_idle_cases cls thread_delay from_id to_id amount w Hwf Hidle)
    as [(e & w' & -> & Hacc)|(w' & fa & ta & -> & Hacc & Hne & _ & Hfa & Hta & _)];
    cbn [final_world]; rewrite Hacc.
  - split; [assumption|]. exists (sum_balances (accounts w)).
    rewrite (proj1 (get_total_balance_spec _) Hidle).
    split_and!; [apply py_int_sum_balances; assumption|reflexivity..].
  - pose proof (int_accounts_transferred _ from_id to_id _ Hamount Hint) as Hint'.
    split; [assumption|]. exists (sum_balances (accounts w)).
    rewrite (proj1 (get_total_balance_spec _) Hidle).
    rewrite (proj1 (get_total_balance_spec _) (idle_transferred _ _ _ _ Hidle)).
    split_and!; [apply py_int_sum_balances; assumption|reflexivity|].
    f_equal. apply py_int_eq; [apply py_int_sum_balances; assumption..|].
    apply sum_balances_transferred; eauto.
Qed.


End SequentialExtras.

(** ** The amounts of a transfer, on ints and on floats *)

Section FloatTransfer.

Import PrimFloat.
Import Binary64.



End FloatTransfer.

Section TransferAmounts.

Import PrimFloat.


(** On floats a deposit followed by the withdrawal of the same amount
    need not restore the balance: 1.0 + 1e16 is rounded to 1e16. *)
Example float_deposit_then_withdraw :
  exists a1 a2,
    Binary64.Account.deposit (Binary64.Account.__init__ 1 1) 1e16 = Binary64.Returned tt a1 /\
    Binary64.Account.withdraw a1 1e16 = Binary64.Returned tt a2 /\
    Binary64.Account._balance a2 = 0%float.
Proof. do 2 eexists. split_and!; reflexivity. Qed.


End TransferAmounts.

(** ** Calls on one account *)

Section AccountExtras.

Import Account.

Lemma call_cases (a : t) (c : account_call) :
  lock a = false ->
  (call a c = Returned tt (set_balance a (_balance a + call_amount c))
   /\ ((0 <= _balance a)%Q -> (0 <= _balance a + call_amount c)%Q))
  \/ (exists e, call a c = Raised e a).
Proof.
  intros Hl. destruct c as [amount|amount]; simpl.
  - destruct (deposit_spec a amount Hl) as [Hneg Hpos].
    destruct (Qlt_le_dec amount 0) as [H|H]; [right; eauto|left].
    split; [auto|]. intros Hb. lra.
  - destruct (withdraw_spec a amount Hl) as (Hneg & Hlow & Hok).
    destruct (Qlt_le_dec amount 0) as [H|H]; [right; eauto|].
    destruct (Qlt_le_dec (_balance a) amount) as [H'|H']; [right; eauto|left].
    split; [exact (Hok H H')|]. intros _. lra.
Qed.

(** X6.  For a balance and amounts that are Python ints: no sequence
    of [deposit] and [withdraw] calls overdraws an account.  From an
    unlocked account with a non-negative balance, whatever the int
    amounts and whichever calls fail, the account ends with the same
    id, a free lock, and an int balance that is non-negative and is
    the initial one plus the amounts of the calls that returned. *)
Theorem account_never_overdrawn (a : t) (cs : list account_call) :
  lock a = false ->
  py_int (_balance a) -> Forall int_call cs ->
  (0 <= _balance a)%Q ->
  id (calls a cs) = id a /\
  lock (calls a cs) = false /\
  py_int (_balance (calls a cs)) /\
  (0 <= _balance (calls a cs))%Q /\
  py_int (moved a cs) /\
  (_balance (calls a cs) == _balance a + moved a cs)%Q.
Proof.
  intros Hl Hi Hcs. revert a Hl Hi.
  induction Hcs as [|c cs Hc _ IH]; intros a Hl Hi Hb; simpl.
  - split_and!; auto; [reflexivity|ring].
  - apply int_call_amount in Hc.
    destruct (call_cases a c Hl) as [[-> Hpos]|[e ->]]; simpl.
    + destruct (IH (set_balance a (_balance a + call_amount c)) Hl
                  (py_int_plus _ _ Hi Hc) (Hpos Hb))
        as (H1 & H2 & H3 & H4 & H5 & H6).
      split_and!; auto; [apply py_int_plus; assumption|].
      rewrite H6. simpl. ring.
    + apply IH; assumption.
Qed.

(** X5.  For a balance and an amount that are Python ints: on an
    unlocked account a deposit of a non-negative amount returns.
    Withdrawing the same amount afterwards returns and gives the
    account back as it was, balance, id and free lock, when the
    account was not overdrawn to begin with; on an account with a
    negative balance the withdrawal fails for lack of funds. *)
Theorem deposit_then_withdraw (self : t) (amount : Q) :
  lock self = false ->
  py_int (_balance self) -> py_int amount ->
  (0 <= amount)%Q ->
  exists a1,
    deposit self amount = Returned tt a1 /\
    py_int (_balance a1) /\
    ((0 <= _balance self)%Q -> withdraw a1 amount = Returned tt self) /\
    ((_balance self < 0)%Q -> withdraw a1 amount = Raised AccountInsufficientFunds a1).
Proof.
  intros Hl Hi Hia Ha. destruct (deposit_spec self amount Hl) as [_ Hdep].
  eexists. split; [exact (Hdep Ha)|].
  destruct (withdraw_spec (set_balance self (_balance self + amount)) amount Hl)
    as (_ & Hlow & Hok).
  simpl in Hlow, Hok. split_and!.
  - simpl. apply py_int_plus; assumption.
  - intros Hb. rewrite Hok by lra.
    assert (Heq : (_balance self + amount - amount)%Q = _balance self).
    { apply py_int_eq; [|assumption|ring].
      apply py_int_minus; [apply py_int_plus|]; assumption. }
    rewrite Heq. destruct self; reflexivity.
  - intros Hb. apply Hlow; lra.
Qed.

End AccountExtras.

(** ** Facts about the steps of a batch *)

Section BatchExtras.

Import TransactionSimulator Inv.

Variable self : t.
Implicit Types (s : state) (p : pc).

(** A property of states that every step keeps holds after every schedule. *)
Lemma exec_preserves (P : state -> Prop) :
  (forall l s s', inv self s -> P s -> step self l s = Some s' -> P s') ->
  forall ls s s', inv self s -> P s -> exec self ls s = Some s' -> P s'.
Proof.
  intros Hstep ls. induction ls as [|l ls IH]; intros s s' Hinv HP Hexec; simpl in Hexec.
  - injection Hexec as <-. assumption.
  - destruct (step self l s) as [s1|] eqn:Hs; [|discriminate].
    destruct (step_inv _ _ _ _ Hinv Hs) as (Hinv1 & _).
    eapply IH; eauto.
Qed.

Lemma sum_list_with_two {A} (f : A -> nat) (l : list A) i j x y :
  i <> j -> l !! i = Some x -> l !! j = Some y ->
  (f x + f y <= sum_list_with f l)%nat.
Proof.
  revert i j. induction l as [|a l IH]; intros [|i] [|j] Hne Hi Hj;
    simpl in *; try discriminate; try congruence.
  - injection Hi as ->. pose proof (sum_list_with_lookup f l j y Hj). lia.
  - injection Hj as ->. pose proof (sum_list_with_lookup f l i x Hi). lia.
  - assert (i <> j) by congruence. specialize (IH i j H Hi Hj). lia.
Qed.

Lemma holds_locked s i p r :
  inv self s -> tasks s !! i = Some p -> (0 < holds r p)%nat ->
  exists a, accounts (bank s) !! r = Some a /\ Account.lock a = true.
Proof.
  intros Hinv Hi Hh.
  pose proof (sum_list_with_lookup (holds r) _ _ _ Hi) as Hle.
  fold (holders r (tasks s)) in Hle. rewrite (inv_locks _ _ Hinv) in Hle.
  unfold locked in Hle. destruct (accounts (bank s) !! r) as [a|]; [|lia].
  exists a. split; [reflexivity|]. destruct (Account.lock a); [reflexivity|lia].
Qed.

Lemma holds_exclusive s i j pi pj r :
  inv self s -> tasks s !! i = Some pi -> tasks s !! j = Some pj ->
  (0 < holds r pi)%nat -> (0 < holds r pj)%nat -> i = j.
Proof.
  intros Hinv Hi Hj Hhi Hhj. destruct (decide (i = j)) as [|Hne]; [assumption|].
  pose proof (sum_list_with_two (holds r) _ _ _ _ _ Hne Hi Hj) as Hle.
  fold (holders r (tasks s)) in Hle. rewrite (inv_locks _ _ Hinv) in Hle.
  pose proof (locked_le_1 (accounts (bank s)) r). lia.
Qed.

Lemma timeout_step_flag s s' : timeout_step self s = Some s' -> flag s' = true.
Proof.
  unfold timeout_step, flag. destruct (main s); try discriminate.
  destruct (tasks s !! k) as [[]|]; try discriminate; intros [= <-]; reflexivity.
Qed.

Lemma exec_flag ls s s' :
  inv self s -> exec self ls s = Some s' ->
  (flag s' = true <-> flag s = true \/ Timeout ∈ ls).
Proof.
  revert s. induction ls as [|l ls IH]; intros s Hinv Hexec; simpl in Hexec.
  - injection Hexec as <-. split; [auto|]. intros [H|H]; [assumption|inversion H].
  - destruct (step self l s) as [s1|] eqn:Hs; [|discriminate].
    destruct (step_inv _ _ _ _ Hinv Hs) as (Hinv1 & _ & Hflag).
    rewrite (IH _ Hinv1 Hexec). rewrite elem_of_cons.
    assert (Hdec : l = Timeout \/ l <> Timeout)
      by (destruct l; [right; discriminate|right; discriminate|left; reflexivity]).
    destruct Hdec as [->|Hne].
    + simpl in Hs. rewrite (timeout_step_flag _ _ Hs). tauto.
    + rewrite (Hflag Hne). split; [tauto|]. intros [H|[H|H]]; [tauto|congruence|tauto].
Qed.

Lemma all_done_idle s :
  inv self s -> all_done (tasks s) -> Bank.idle (accounts (bank s)).
Proof.
  intros Hinv Hdone. apply idle_locked. intros r.
  rewrite <- (inv_locks _ _ Hinv). apply sum_list_with_zero.
  intros p Hp. eapply Forall_forall in Hdone; [|exact Hp]. subst p. reflexivity.
Qed.

Lemma critical_section_returned f t a w w' :
  critical_section f t a w = Returned tt w' ->
  exists fa, accounts w !! f = Some fa /\ (a <= Account._balance fa)%Q /\
             accounts w' = transferred (accounts w) f t a.
Proof.
  unfold critical_section, bind, read_balance.
  destruct (accounts w !! f) as [fa|]; [|discriminate].
  destruct (Qltb (Account._balance fa) a) eqn:E; [discriminate|].
  intros [= <-]. apply Qltb_ge in E. eauto.
Qed.

Lemma critical_section_raised f t a w e w' :
  critical_section f t a w = Raised e w' -> w' = w.
Proof.
  intros H. pose proof (critical_section_accounts f t a w) as Hc.
  rewrite H in Hc. assumption.
Qed.


(** What a step does to the bank: nothing, or one step of one task. *)
Lemma step_bank l s s' :
  step self l s = Some s' ->
  bank s' = bank s \/
  exists i d p p', l = Task i /\ transfers_data self !! i = Some d /\
    tasks s !! i = Some p /\
    thread_step (bank_class self) (thread_delay self) d (bank s) p = Some (bank s', p').
Proof.
  destruct l as [i| |]; simpl.
  - unfold task_step. destruct (transfers_data self !! i) as [d|] eqn:Hd; [|discriminate].
    destruct (tasks s !! i) as [p|] eqn:Hp; [|discriminate].
    destruct p as [| |l|l|l|l|l r0|l r0|r0|];
      try (destruct (thread_step _ _ d (bank s) _) as [[w' p']|] eqn:E; [|discriminate];
           intros [= <-]; right; exists i, d; eauto 10).
    + destruct (can_start _ _ _); [|discriminate]. intros [= <-]. left. reflexivity.
    + intros [= <-]. left. reflexivity.
  - unfold main_step. destruct (main s) as [k|b|b|m].
    + destruct (tasks s !! k) as [[]|]; try discriminate; intros [= <-]; left; reflexivity.
    + destruct (forallb _ _); [|discriminate]. intros [= <-]. left. reflexivity.
    + destruct (Bank.get_total_balance _); [|discriminate]. intros [= <-]. left. reflexivity.
    + discriminate.
  - unfold timeout_step. destruct (main s) as [k|b|b|m]; try discriminate.
    destruct (tasks s !! k) as [[]|]; try discriminate; intros [= <-]; left; reflexivity.
Qed.



End BatchExtras.

(** ** Balances never go negative *)

Section Overdraft.

Import TransactionSimulator Inv.

Variable self : t.
Implicit Types (s : state) (p : pc).

Lemma enter_locals cls d w l :
  Bank.wf (accounts w) ->
  pc_locals (enter cls d w) = Some l ->
  (0 < TransferData.amount d)%Q /\
  from_account l = TransferData.from d /\ to_account l = TransferData.to d.
Proof.
  intros Hwf. unfold enter, Bank.get_account.
  destruct (_ =? _)%Z; [discriminate|].
  destruct (Qle_bool _ _) eqn:Hle; [discriminate|]. apply Qle_bool_gt in Hle.
  destruct (accounts w !! TransferData.from d) as [fa|] eqn:Hfa; [|discriminate].
  destruct (accounts w !! TransferData.to d) as [ta|] eqn:Hta; [|discriminate].
  pose proof (Hwf _ _ Hfa). pose proof (Hwf _ _ Hta).
  destruct cls; [|destruct (Phase2Bank._get_ordered_accounts fa ta)];
    intros [= <-]; simpl; auto.
Qed.

Lemma thread_step_locals cls thread_delay d w p w' p' l :
  thread_step cls thread_delay d w p = Some (w', p') ->
  pc_locals p' = Some l ->
  pc_locals p = Some l \/ (p = Entered /\ p' = enter cls d w).
Proof.
  intros Hstep Hl.
  destruct p as [| |l0|l0|l0|l0|l0 r0|l0 r0|r0|]; simpl in Hstep; try discriminate.
  - injection Hstep as _ <-. auto.
  - destruct (lock_acquire _ w) as [[] ?|?|?]; try discriminate.
    injection Hstep as _ <-. left.
    destruct cls; [destruct (Qltb 0 thread_delay)|]; exact Hl.
  - injection Hstep as _ <-. auto.
  - destruct (lock_acquire _ w) as [[] ?|?|?]; try discriminate.
    injection Hstep as _ <-. auto.
  - destruct (critical_section _ _ _ w) as [[] ?|?|?]; try discriminate;
      injection Hstep as _ <-; auto.
  - unfold lock_release, bind, update_account, emit in Hstep.
    injection Hstep as _ <-. auto.
  - unfold lock_release, bind, update_account, emit in Hstep.
    injection Hstep as _ <-. discriminate.
Qed.

(** What a step does to the tasks: nothing, or it moves one task. *)
Lemma step_tasks l s s' :
  step self l s = Some s' ->
  (tasks s' = tasks s /\ transactions s' = transactions s /\ bank s' = bank s) \/
  exists i d p p', l = Task i /\ transfers_data self !! i = Some d /\
    tasks s !! i = Some p /\ tasks s' = <[i := p']> (tasks s) /\
    ((p = Queued /\ p' = Entered /\ bank s' = bank s /\
      transactions s' = transactions s) \/
     (exists r, p = Recording r /\ p' = Done /\ bank s' = bank s /\
                transactions s' = transactions s ++ [record_of d r]) \/
     (thread_step (bank_class self) (thread_delay self) d (bank s) p
        = Some (bank s', p') /\ transactions s' = transactions s)).
Proof.
  destruct l as [i| |]; simpl.
  - unfold task_step. destruct (transfers_data self !! i) as [d|] eqn:Hd; [|discriminate].
    destruct (tasks s !! i) as [p|] eqn:Hp; [|discriminate].
    destruct p as [| |l|l|l|l|l r0|l r0|r0|];
      try (destruct (thread_step _ _ d (bank s) _) as [[w' p']|] eqn:E; [|discriminate];
           intros [= <-]; right; exists i, d; eexists; exists p';
           split_and!; [reflexivity|exact Hd|exact Hp|reflexivity|];
           right; right; split; [exact E|reflexivity]).
    + destruct (can_start _ _ _); [|discriminate]. intros [= <-]. right.
      exists i, d, Queued, Entered. split_and!; auto.
    + intros [= <-]. right. exists i, d, (Recording r0), Done.
      split_and!; auto. right. left. eauto.
  - unfold main_step. destruct (main s) as [k|b|b|m].
    + destruct (tasks s !! k) as [[]|]; try discriminate; intros [= <-]; left; split_and!; reflexivity.
    + destruct (forallb _ _); [|discriminate]. intros [= <-]. left. split_and!; reflexivity.
    + destruct (Bank.get_total_balance _); [|discriminate]. intros [= <-]. left.
      split_and!; reflexivity.
    + discriminate.
  - unfold timeout_step. destruct (main s) as [k|b|b|m]; try discriminate.
    destruct (tasks s !! k) as [[]|]; try discriminate; intros [= <-]; left;
      split_and!; reflexivity.
Qed.

Lemma step_validated l s s' :
  inv self s -> validated self s -> step self l s = Some s' -> validated self s'.
Proof.
  intros Hinv Hval Hstep.
  destruct (step_tasks _ _ _ Hstep) as [[Heq _]|(i & d & p & p' & _ & Hd & Hp & Htasks & Hkind)].
  { unfold validated. rewrite Heq. exact Hval. }
  intros j q l0 d0 Hj Hl0 Hd0. rewrite Htasks in Hj.
  destruct (decide (j = i)) as [->|Hne].
  - rewrite list_lookup_insert_eq in Hj by (eapply lookup_lt_Some; eauto).
    injection Hj as <-. assert (d0 = d) as -> by congruence.
    destruct Hkind as [(-> & -> & _)|[(r & -> & -> & _)|[Hts _]]]; try discriminate.
    destruct (thread_step_locals _ _ _ _ _ _ _ _ Hts Hl0) as [Hold|[-> ->]].
    + eapply Hval; eauto.
    + eapply enter_locals; [apply (inv_wf _ _ Hinv)|exact Hl0].
  - rewrite list_lookup_insert_ne in Hj by congruence. eapply Hval; eauto.
Qed.

Lemma no_overdraft_alter m k (f : Account.t -> Account.t) :
  (forall a, Account._balance (f a) = Account._balance a) ->
  no_overdraft m -> no_overdraft (alter f k m).
Proof.
  intros Hf Hm k' a'. rewrite lookup_alter. case_decide; [subst|apply Hm].
  destruct (m !! k') as [a|] eqn:E; simpl; [|discriminate].
  intros [= <-]. rewrite Hf. eapply Hm; eauto.
Qed.

Lemma no_overdraft_transferred m from_id to_id amount fa :
  from_id <> to_id -> m !! from_id = Some fa ->
  (0 < amount)%Q -> (amount <= Account._balance fa)%Q ->
  no_overdraft m -> no_overdraft (transferred m from_id to_id amount).
Proof.
  intros Hne Hfa Hpos Hle Hm k a.
  destruct (decide (k = from_id)) as [->|Hkf].
  - rewrite (transferred_lookup_from _ _ _ _ _ Hne Hfa). intros [= <-]. simpl. lra.
  - destruct (decide (k = to_id)) as [->|Hkt].
    + destruct (m !! to_id) as [ta|] eqn:Hta.
      * rewrite (transferred_lookup_to _ _ _ _ _ Hne Hta). intros [= <-]. simpl.
        pose proof (Hm _ _ Hta). lra.
      * unfold transferred. rewrite lookup_alter_eq, lookup_alter_ne by assumption.
        rewrite Hta. discriminate.
    + rewrite transferred_lookup_other by assumption. apply Hm.
Qed.

Lemma step_no_overdraft l s s' :
  inv self s -> validated self s -> no_overdraft (accounts (bank s)) ->
  step self l s = Some s' -> no_overdraft (accounts (bank s')).
Proof.
  intros Hinv Hval Hno Hstep.
  destruct (step_bank _ _ _ _ Hstep) as [->|(i & d & p & p' & _ & Hd & Hp & Hts)];
    [assumption|].
  destruct p as [| |l0|l0|l0|l0|l0 r0|l0 r0|r0|]; simpl in Hts; try discriminate.
  - injection Hts as <- _. assumption.
  - destruct (lock_acquire _ _) as [[] w1|?|?] eqn:E; try discriminate.
    apply lock_acquire_inv in E as (a & _ & _ & ->). injection Hts as <- _.
    apply no_overdraft_alter; [reflexivity|assumption].
  - injection Hts as <- _. assumption.
  - destruct (lock_acquire _ _) as [[] w1|?|?] eqn:E; try discriminate.
    apply lock_acquire_inv in E as (a & _ & _ & ->). injection Hts as <- _.
    apply no_overdraft_alter; [reflexivity|assumption].
  - destruct (critical_section _ _ _ _) as [[] w1|e w1|w1] eqn:E; try discriminate;
      injection Hts as <- _.
    + apply critical_section_returned in E as (fa & Hfa & Hle & ->).
      destruct (inv_locals _ _ Hinv _ _ _ Hp eq_refl) as (_ & _ & Hne & _).
      destruct (Hval _ _ _ _ Hp eq_refl Hd) as (Hpos & _).
      eapply no_overdraft_transferred; eauto.
    + apply critical_section_raised in E as ->. assumption.
  - unfold lock_release, bind, update_account, emit in Hts. injection Hts as <- _.
    apply no_overdraft_alter; [reflexivity|assumption].
  - unfold lock_release, bind, update_account, emit in Hts. injection Hts as <- _.
    apply no_overdraft_alter; [reflexivity|assumption].
Qed.

Lemma start_validated s0 : start self = inr s0 -> validated self s0.
Proof.
  unfold start. destruct (max_workers self =? 0)%nat; [discriminate|].
  intros [= <-] i p l d Hi Hl. cbn [tasks] in Hi.
  apply lookup_replicate in Hi as [-> _]. discriminate.
Qed.

Lemma start_no_overdraft s0 :
  start self = inr s0 ->
  Forall (fun acc => (0 <= AccountData.initial_balance acc)%Q) (accounts_data self) ->
  no_overdraft (accounts (bank s0)).
Proof.
  unfold start. destruct (max_workers self =? 0)%nat; [discriminate|].
  intros [= <-] Hall k a. cbn [bank accounts initial_world].
  rewrite bank_init_lookup. intros Hlast%last_Some_elem_of.
  apply list_elem_of_filter in Hlast as [_ Hin].
  apply list_elem_of_fmap in Hin as (acc & -> & Hacc).
  eapply Forall_forall in Hall; [|exact Hacc]. exact Hall.
Qed.

(** X8.  If no account starts with a negative balance, no account has
    a negative balance in any state that any schedule of the batch
    reaches, for either bank class. *)
Theorem batch_never_overdraws (s0 s : state) (ls : list label) :
  start self = inr s0 ->
  Forall (fun acc => (0 <= AccountData.initial_balance acc)%Q) (accounts_data self) ->
  exec self ls s0 = Some s ->
  no_overdraft (accounts (bank s)).
Proof.
  intros Hstart Hall Hexec.
  destruct (start_inv _ _ Hstart) as (Hinv0 & _).
  apply (exec_preserves self
           (fun s1 => validated self s1 /\ no_overdraft (accounts (bank s1))))
    with ls s0; [|assumption| |assumption].
  - intros l s1 s2 Hinv1 [Hv Hn] Hs. split.
    + exact (step_validated l s1 s2 Hinv1 Hv Hs).
    + exact (step_no_overdraft l s1 s2 Hinv1 Hv Hn Hs).
  - split; [exact (start_validated s0 Hstart)|exact (start_no_overdraft s0 Hstart Hall)].
Qed.

End Overdraft.

(** ** Batches on ints *)

Section BatchInt.

Import TransactionSimulator Inv.

Variable self : t.
Implicit Types (s : state) (p : pc).




End BatchInt.

(** ** The records of a batch *)

Section Records.

Import TransactionSimulator Inv.

Variable self : t.
Implicit Types (s : state) (p : pc).

Lemma done_requests_same ds (ps : list pc) i p p' :
  ps !! i = Some p -> is_done p = false -> is_done p' = false ->
  done_requests ds (<[i := p']> ps) = done_requests ds ps.
Proof.
  revert ds i. induction ps as [|q ps IH]; intros [|d ds] [|i] Hi Hp Hp';
    simpl in *; try discriminate; try reflexivity.
  - injection Hi as ->. rewrite Hp, Hp'. reflexivity.
  - rewrite (IH ds i Hi Hp Hp'). reflexivity.
Qed.

Lemma done_requests_done ds (ps : list pc) i d p :
  ds !! i = Some d -> ps !! i = Some p -> is_done p = false ->
  Permutation (done_requests ds (<[i := Done]> ps)) (done_requests ds ps ++ [d]).
Proof.
  revert ds i. induction ps as [|q ps IH]; intros [|d0 ds] [|i] Hd Hi Hp;
    simpl in *; try discriminate.
  - injection Hi as ->. injection Hd as ->. rewrite Hp.
    apply Permutation_cons_append.
  - specialize (IH ds i Hd Hi Hp). destruct (is_done q); [|exact IH].
    simpl. apply perm_skip. exact IH.
Qed.

Lemma done_requests_all ds (ps : list pc) :
  all_done ps -> length ps = length ds -> done_requests ds ps = ds.
Proof.
  intros Hdone. revert ds. induction Hdone as [|p ps Hp _ IH]; intros [|d ds] Hlen;
    simpl in *; try discriminate; [reflexivity|].
  subst p. simpl. rewrite IH by lia. reflexivity.
Qed.

Lemma request_of_record d r : request_of (record_of d r) = d.
Proof. destruct d. reflexivity. Qed.

Lemma record_of_consistent d r : record_consistent (record_of d r).
Proof. unfold record_consistent. destruct r; simpl; split; congruence. Qed.

Lemma thread_step_active cls thread_delay d w p w' p' :
  thread_step cls thread_delay d w p = Some (w', p') ->
  is_done p = false /\ is_done p' = false.
Proof.
  intros Hstep.
  destruct p as [| |l|l|l|l|l r0|l r0|r0|]; simpl in Hstep; try discriminate;
    (split; [reflexivity|]).
  - injection Hstep as _ <-. unfold enter.
    destruct (_ =? _)%Z; [reflexivity|]. destruct (Qle_bool _ _); [reflexivity|].
    destruct (Bank.get_account _ w) as [fa ?|?|?]; try reflexivity.
    destruct (Bank.get_account _ _) as [ta ?|?|?]; try reflexivity.
    destruct cls; [|destruct (Phase2Bank._get_ordered_accounts fa ta)]; reflexivity.
  - destruct (lock_acquire _ w) as [[] ?|?|?]; try discriminate.
    injection Hstep as _ <-. destruct cls; [destruct (Qltb 0 thread_delay)|]; reflexivity.
  - injection Hstep as _ <-. reflexivity.
  - destruct (lock_acquire _ w) as [[] ?|?|?]; try discriminate.
    injection Hstep as _ <-. reflexivity.
  - destruct (critical_section _ _ _ w) as [[] ?|?|?]; try discriminate;
      injection Hstep as _ <-; reflexivity.
  - unfold lock_release, bind, update_account, emit in Hstep.
    injection Hstep as _ <-. reflexivity.
  - unfold lock_release, bind, update_account, emit in Hstep.
    injection Hstep as _ <-. reflexivity.
Qed.

Lemma enter_explained cls d w :
  pc_explained (dom (accounts w)) d (enter cls d w).
Proof.
  unfold enter, Bank.get_account, pc_explained, result_explained, validation_error.
  destruct (_ =? _)%Z; [reflexivity|]. destruct (Qle_bool _ _); [reflexivity|].
  destruct (accounts w !! TransferData.from d) as [fa|] eqn:Hfa.
  - rewrite decide_True by (apply elem_of_dom; eauto).
    destruct (accounts w !! TransferData.to d) as [ta|] eqn:Hta.
    + rewrite decide_True by (apply elem_of_dom; eauto).
      destruct cls; [|destruct (Phase2Bank._get_ordered_accounts fa ta)]; reflexivity.
    + rewrite decide_False by (apply not_elem_of_dom; assumption). reflexivity.
  - rewrite decide_False by (apply not_elem_of_dom; assumption). reflexivity.
Qed.

Lemma thread_step_explained ids cls thread_delay d w p w' p' :
  dom (accounts w) = ids ->
  (forall l, pc_locals p = Some l -> from_account l = TransferData.from d) ->
  pc_explained ids d p ->
  thread_step cls thread_delay d w p = Some (w', p') ->
  pc_explained ids d p'.
Proof.
  intros Hdom Hloc Hp Hstep.
  destruct p as [| |l|l|l|l|l r0|l r0|r0|]; simpl in Hstep; try discriminate.
  - injection Hstep as _ <-. subst ids. apply enter_explained.
  - destruct (lock_acquire _ w) as [[] ?|?|?]; try discriminate.
    injection Hstep as _ <-. destruct cls; [destruct (Qltb 0 thread_delay)|]; exact Hp.
  - injection Hstep as _ <-. exact Hp.
  - destruct (lock_acquire _ w) as [[] ?|?|?]; try discriminate.
    injection Hstep as _ <-. exact Hp.
  - simpl in Hp. unfold critical_section, bind, read_balance in Hstep.
    destruct (accounts w !! from_account l) as [fa|]; [|discriminate].
    destruct (Qltb (Account._balance fa) (TransferData.amount d)) eqn:E;
      injection Hstep as _ <-; simpl; (split; [assumption|]);
      unfold result_explained; rewrite Hp; [right|left; reflexivity].
    rewrite (Hloc l eq_refl). eexists. split; [reflexivity|].
    apply Qltb_lt. assumption.
  - unfold lock_release, bind, update_account, emit in Hstep.
    injection Hstep as _ <-. exact Hp.
  - unfold lock_release, bind, update_account, emit in Hstep.
    injection Hstep as _ <-. apply Hp.
Qed.

Lemma step_dom l s s' :
  inv self s -> step self l s = Some s' ->
  dom (accounts (bank s')) = dom (accounts (bank s)).
Proof.
  intros Hinv Hstep.
  destruct (step_bank _ _ _ _ Hstep) as [->|(i & d & p & p' & _ & Hd & Hp & Hts)];
    [reflexivity|].
  eapply (thread_step_inv _ _ _ _ _ _ _ (inv_wf _ _ Hinv)); [| |exact Hts].
  - intros r. rewrite <- (inv_locks _ _ Hinv). eapply sum_list_with_lookup; eauto.
  - intros l0 Hl0. eapply (inv_locals _ _ Hinv); eauto.
Qed.

Lemma step_log_ok l s s' :
  inv self s -> validated self s -> log_ok self s -> step self l s = Some s' ->
  log_ok self s'.
Proof.
  intros Hinv Hval [Hdom Hperm Hrec Htask] Hstep.
  pose proof (step_dom _ _ _ Hinv Hstep) as Hdom'.
  destruct (step_tasks _ _ _ _ Hstep)
    as [(Heq & Htr & _)|(i & d & p & p' & _ & Hd & Hp & Htasks & Hkind)].
  { constructor; rewrite ?Heq, ?Htr; congruence || assumption. }
  assert (Hothers : forall p', pc_explained (account_ids self) d p' ->
            forall j q d0, <[i := p']> (tasks s) !! j = Some q ->
              transfers_data self !! j = Some d0 ->
              pc_explained (account_ids self) d0 q).
  { intros q' Hq' j q d0 Hj Hd0. destruct (decide (j = i)) as [->|Hne].
    - rewrite list_lookup_insert_eq in Hj by (eapply lookup_lt_Some; eauto).
      injection Hj as <-. congruence.
    - rewrite list_lookup_insert_ne in Hj by congruence. eauto. }
  destruct Hkind as [(-> & -> & _ & Htr)|[(r & -> & -> & _ & Htr)|[Hts Htr]]].
  - constructor; rewrite ?Htasks, ?Htr.
    + congruence.
    + rewrite (done_requests_same _ _ _ Queued Entered Hp eq_refl eq_refl). assumption.
    + assumption.
    + apply Hothers. exact I.
  - constructor; rewrite ?Htasks, ?Htr.
    + congruence.
    + rewrite map_app, (done_requests_done _ _ _ _ (Recording r) Hd Hp eq_refl). simpl.
      rewrite request_of_record. apply Permutation_app_tail. assumption.
    + apply Forall_app. split; [assumption|]. constructor; [|constructor].
      split; [apply record_of_consistent|]. rewrite request_of_record.
      apply (Htask _ _ _ Hp Hd).
    + apply Hothers. exact I.
  - destruct (thread_step_active _ _ _ _ _ _ _ Hts) as [Hnp Hnp'].
    constructor; rewrite ?Htasks, ?Htr.
    + congruence.
    + rewrite (done_requests_same _ _ _ _ _ Hp Hnp Hnp'). assumption.
    + assumption.
    + apply Hothers. eapply thread_step_explained; [exact Hdom| | |exact Hts].
      * intros l0 Hl0. eapply Hval; eauto.
      * eauto.
Qed.

Lemma bank_init_dom (l : list Account.t) :
  dom (Bank.__init__ l) = list_to_set (map Account.id l).
Proof.
  apply set_eq. intros k. rewrite elem_of_dom, bank_init_lookup, elem_of_list_to_set.
  rewrite list_elem_of_fmap. split.
  - intros [a Ha]. apply last_Some_elem_of in Ha.
    apply list_elem_of_filter in Ha as [Hk Hin]. eauto.
  - intros (a & -> & Hin).
    destruct (last (filter (fun a0 => Account.id a0 = Account.id a) l)) eqn:E; [eauto|].
    apply last_None in E.
    assert (a ∈ filter (fun a0 => Account.id a0 = Account.id a) l)
      by (apply list_elem_of_filter; auto).
    rewrite E in H. inversion H.
Qed.

Lemma start_log_ok s0 : start self = inr s0 -> log_ok self s0.
Proof.
  unfold start. destruct (max_workers self =? 0)%nat; [discriminate|].
  intros [= <-]. constructor; cbn [bank tasks transactions accounts initial_world].
  - rewrite bank_init_dom. unfold account_ids. rewrite map_map. reflexivity.
  - simpl. generalize (transfers_data self). intros ds.
    induction ds as [|d ds IH]; simpl; [constructor|assumption].
  - constructor.
  - intros i p d Hi _. apply lookup_replicate in Hi as [-> _]. exact I.
Qed.

Lemma exec_log_ok ls s0 s :
  start self = inr s0 -> exec self ls s0 = Some s -> log_ok self s.
Proof.
  intros Hstart Hexec.
  destruct (start_inv _ _ Hstart) as (Hinv0 & _).
  apply (exec_preserves self (fun s1 => validated self s1 /\ log_ok self s1))
    with ls s0; [|assumption| |assumption].
  - intros l s1 s2 Hinv1 [Hv Hn] Hs. split.
    + exact (step_validated self l s1 s2 Hinv1 Hv Hs).
    + exact (step_log_ok l s1 s2 Hinv1 Hv Hn Hs).
  - split; [exact (start_validated self s0 Hstart)|exact (start_log_ok s0 Hstart)].
Qed.

(** X10.  When [run] returns, its records are one per submitted
    request: the requests of the records are a permutation of
    [transfers_data] (the order is that of completion), and a record
    is marked successful exactly when it carries no error. *)
Theorem run_records_every_request (ls : list label) (m : SimulationMetrics.t) :
  run self ls = Some (inr m) ->
  Permutation (map request_of (SimulationMetrics.transactions m)) (transfers_data self) /\
  Forall record_consistent (SimulationMetrics.transactions m).
Proof.
  intros Hrun.
  destruct (run_inv _ _ _ Hrun) as (s0 & s & Hstart & Hexec & Hm & Hinv & _).
  destruct (finished_records _ _ _ Hinv Hm) as (Hdone & -> & _).
  destruct (exec_log_ok _ _ _ Hstart Hexec) as [_ Hperm Hrec _].
  cbn [SimulationMetrics.transactions metrics]. split.
  - rewrite Hperm, done_requests_all; [reflexivity|assumption|].
    apply (inv_length _ _ Hinv).
  - eapply Forall_impl; [exact Hrec|]. intros t [Ht _]. exact Ht.
Qed.


End Records.

(** ** Circular waits *)

Section CircularWait.

Import TransactionSimulator Inv.

Variable self : t.
Implicit Types (s : state) (p : pc).

(** A task that waits for a lock held by a task cannot move. *)
Lemma waiting_blocked s i j :
  inv self s -> waits_for s i j -> step self (Task i) s = None.
Proof.
  intros Hinv (p & q & r & Hi & Hj & Hw & Hh). simpl. unfold task_step. rewrite Hi.
  destruct (transfers_data self !! i) as [d|]; [|reflexivity].
  destruct (holds_locked _ _ _ _ _ Hinv Hj Hh) as (a & Ha & Hl).
  destruct p; simpl in Hw; try discriminate; injection Hw as <-;
    cbn [thread_step]; rewrite (lock_acquire_held _ _ _ Ha Hl); reflexivity.
Qed.

Lemma cycle_next {A} (R : relation A) (x : A) :
  tc R x x -> exists y, R x y /\ tc R y y.
Proof.
  intros H. inversion H as [? ? Hxx|? y ? Hxy Hyx]; subst.
  - eauto.
  - exists y. split; [assumption|]. eapply tc_r; eauto.
Qed.

(** The tasks of a circular wait stay where they are. *)
Lemma cycle_frozen s ls s' :
  inv self s -> exec self ls s = Some s' ->
  forall k, tc (waits_for s) k k -> tasks s' !! k = tasks s !! k.
Proof.
  intros Hinv Hexec.
  apply (exec_preserves self
           (fun s1 => forall k, tc (waits_for s) k k -> tasks s1 !! k = tasks s !! k))
    with ls s; [|assumption|reflexivity|assumption].
  intros l s1 s2 Hinv1 Hsame Hstep k Hk.
  rewrite <- (Hsame k Hk).
  destruct (cycle_next _ _ Hk) as (k' & (p & q & r & Hp & Hq & Hw & Hh) & Hk').
  assert (Hwait : waits_for s1 k k').
  { exists p, q, r. rewrite (Hsame k Hk), (Hsame k' Hk'). auto. }
  pose proof (waiting_blocked _ _ _ Hinv1 Hwait) as Hblocked.
  destruct (step_tasks _ _ _ _ Hstep) as [(-> & _)|(i & _ & _ & p' & -> & _ & _ & -> & _)];
    [reflexivity|].
  apply list_lookup_insert_ne. intros ->. congruence.
Qed.

Lemma cycle_never_finished s ls s' k :
  inv self s -> exec self ls s = Some s' -> tc (waits_for s) k k ->
  forall m, main s' <> Finished m.
Proof.
  intros Hinv Hexec Hk m Hm.
  pose proof (cycle_frozen _ _ _ Hinv Hexec k Hk) as Hsame.
  destruct (exec_inv _ _ _ _ Hinv Hexec) as (Hinv' & _).
  destruct (finished_records _ _ _ Hinv' Hm) as (Hdone & _).
  destruct (cycle_next _ _ Hk) as (k' & (p & q & r & Hp & _ & Hw & _) & _).
  rewrite Hp in Hsame. pose proof (all_done_lookup _ _ _ Hdone Hsame) as ->.
  discriminate.
Qed.

Lemma cycle_run_none s0 ls s k ls' :
  start self = inr s0 -> exec self ls s0 = Some s -> tc (waits_for s) k k ->
  run self (ls ++ ls') = None.
Proof.
  intros Hstart Hexec Hk. unfold run. rewrite Hstart, exec_app, Hexec.
  destruct (start_inv _ _ Hstart) as (Hinv0 & _).
  destruct (exec_inv _ _ _ _ Hinv0 Hexec) as (Hinv & _).
  destruct (exec self ls' s) as [s'|] eqn:Hexec'; [|reflexivity].
  pose proof (cycle_never_finished _ _ _ _ Hinv Hexec' Hk) as Hnf.
  destruct (main s') as [| | |m]; try reflexivity. destruct (Hnf m eq_refl).
Qed.

(** X16.  A circular wait is for ever.  If in a reachable state a task
    waits, through a chain of tasks each waiting for a lock the next
    one holds, for itself, then under every continuation of the
    schedule, timeouts included, that task stays where it is and [run]
    does not return. *)
Theorem circular_wait_is_permanent (s0 s : state) (ls : list label) (k : nat) :
  start self = inr s0 ->
  exec self ls s0 = Some s ->
  tc (waits_for s) k k ->
  (forall ls' s', exec self ls' s = Some s' ->
     tasks s' !! k = tasks s !! k /\ forall m, main s' <> Finished m) /\
  (forall ls', run self (ls ++ ls') = None).
Proof.
  intros Hstart Hexec Hk.
  destruct (start_inv _ _ Hstart) as (Hinv0 & _).
  destruct (exec_inv _ _ _ _ Hinv0 Hexec) as (Hinv & _).
  split.
  - intros ls' s' Hexec'. split.
    + eapply cycle_frozen; eauto.
    + eapply cycle_never_finished; eauto.
  - intros ls'. eapply cycle_run_none; eauto.
Qed.

End CircularWait.

(** ** The naive lock order can deadlock *)

Section NaiveDeadlock.

Import TransactionSimulator Inv.

Variable self : t.
Implicit Types (s : state) (p : pc).








End NaiveDeadlock.

(** ** The metrics of a run *)

Section Metrics.

Import TransactionSimulator Inv.

Lemma rate_bounds (n t : nat) :
  (n <= t)%nat -> (0 < t)%nat ->
  let rate := (inject_Z (Z.of_nat n) / inject_Z (Z.of_nat t) * 100)%Q in
  (0 <= rate)%Q /\ (rate <= 100)%Q /\
  ((rate == 100)%Q <-> n = t) /\ ((rate == 0)%Q <-> n = 0%nat).
Proof.
  intros Hle Hpos rate.
  assert (Ht : (0 < inject_Z (Z.of_nat t))%Q).
  { replace 0%Q with (inject_Z 0) by reflexivity. rewrite <- Zlt_Qlt. lia. }
  assert (Hn : (0 <= inject_Z (Z.of_nat n))%Q).
  { replace 0%Q with (inject_Z 0) by reflexivity. rewrite <- Zle_Qle. lia. }
  assert (Hnt : (inject_Z (Z.of_nat n) <= inject_Z (Z.of_nat t))%Q).
  { rewrite <- Zle_Qle. lia. }
  assert (Heq : (rate * inject_Z (Z.of_nat t) == 100 * inject_Z (Z.of_nat n))%Q).
  { unfold rate. field. intros H0. rewrite H0 in Ht. apply (Qlt_irrefl 0). exact Ht. }
  assert (Hinj : forall a b : nat,
            (inject_Z (Z.of_nat a) == inject_Z (Z.of_nat b))%Q <-> a = b).
  { intros a b. rewrite inject_Z_injective. lia. }
  split_and!.
  - apply Qnot_lt_le. intros Hneg.
    assert ((rate * inject_Z (Z.of_nat t) < 0)%Q) by nra. nra.
  - apply Qnot_lt_le. intros Hbig.
    assert ((100 * inject_Z (Z.of_nat t) < rate * inject_Z (Z.of_nat t))%Q) by nra.
    nra.
  - rewrite <- Hinj. split; intros H.
    + rewrite H in Heq. nra.
    + rewrite H in Heq. nra.
  - rewrite <- (Hinj n 0%nat). change (inject_Z (Z.of_nat 0)) with 0%Q. split; intros H.
    + rewrite H in Heq. nra.
    + rewrite H in Heq. nra.
Qed.

(** X13.  For the metrics that [run] returns, [total_transfers] is
    positive (the guard of [success_rate] for an empty total is never
    taken), the success rate is between 0 and 100, it is 100 exactly
    when no transfer failed and 0 exactly when none succeeded. *)
Theorem success_rate_of_a_run (self : t) (ls : list label) (m : SimulationMetrics.t) :
  run self ls = Some (inr m) ->
  (0 < SimulationMetrics.total_transfers m)%nat /\
  (0 <= SimulationMetrics.success_rate m)%Q /\
  (SimulationMetrics.success_rate m <= 100)%Q /\
  ((SimulationMetrics.success_rate m == 100)%Q
     <-> SimulationMetrics.failed_transfers m = 0%nat) /\
  ((SimulationMetrics.success_rate m == 0)%Q
     <-> SimulationMetrics.successful_transfers m = 0%nat).
Proof.
  intros Hrun.
  destruct (run_inv _ _ _ Hrun) as (s0 & s & Hstart & Hexec & Hm & Hinv & _).
  destruct (finished_records _ _ _ Hinv Hm) as (Hdone & -> & Hlen).
  destruct (start_inv _ _ Hstart) as (_ & _ & Hpool & _).
  unfold max_workers in Hpool.
  pose proof (count_success_total (transactions s)) as Htot.
  unfold SimulationMetrics.success_rate.
  cbn [SimulationMetrics.total_transfers SimulationMetrics.successful_transfers
       SimulationMetrics.failed_transfers metrics].
  assert (Hpos : (0 < length (transfers_data self))%nat) by lia.
  destruct (Nat.eqb_spec (length (transfers_data self)) 0) as [H0|_]; [lia|].
  destruct (rate_bounds (count_success true (transactions s))
              (length (transfers_data self)) ltac:(lia) Hpos) as (H1 & H2 & H3 & H4).
  split_and!; try assumption.
  rewrite H3. lia.
Qed.

End Metrics.

(** ** The ledger *)

Section Ledger.

Import TransactionSimulator Inv.

Variable self : t.
Implicit Types (s : state) (p : pc).









End Ledger.

(** ** Conservation, the deadlock flag, and the locks *)

Section BatchTheorems.

Import TransactionSimulator Inv.



(** X12.  When [run] returns, [deadlocked] is true exactly when a wait
    for a future has timed out.  (Since [run] only returns once every
    task is done, a true flag means a slow batch, not a stuck one.) *)
Theorem deadlocked_iff_timeout (self : t) (ls : list label) (m : SimulationMetrics.t) :
  run self ls = Some (inr m) ->
  (SimulationMetrics.deadlocked m = true <-> Timeout ∈ ls).
Proof.
  intros Hrun.
  destruct (run_inv _ _ _ Hrun) as (s0 & s & Hstart & Hexec & Hm & Hinv & _).
  destruct (start_inv _ _ Hstart) as (Hinv0 & Hflag0 & _).
  pose proof (exec_flag _ _ _ _ Hinv0 Hexec) as Hflag.
  unfold flag at 1 in Hflag. rewrite Hm in Hflag. rewrite Hflag, Hflag0.
  split; [intros [H|H]; [discriminate|assumption] | auto].
Qed.

(** X15.  Mutual exclusion.  In every state that a schedule reaches, a
    task in the critical section belongs to a request, its two
    accounts are distinct accounts of the bank with both locks taken,
    and no other task holds either of the two locks. *)
Theorem critical_section_exclusive (self : t) (s0 s : state) (ls : list label)
    (i : nat) (l : locals) :
  start self = inr s0 ->
  exec self ls s0 = Some s ->
  tasks s !! i = Some (Critical l) ->
  (exists d, transfers_data self !! i = Some d) /\
  from_account l <> to_account l /\
  (exists fa ta,
     accounts (bank s) !! from_account l = Some fa /\ Account.lock fa = true /\
     accounts (bank s) !! to_account l = Some ta /\ Account.lock ta = true) /\
  (forall j p r, tasks s !! j = Some p -> (0 < holds r p)%nat ->
     r = from_account l \/ r = to_account l -> j = i).
Proof.
  intros Hstart Hexec Hi.
  destruct (start_inv _ _ Hstart) as (Hinv0 & _).
  destruct (exec_inv _ _ _ _ Hinv0 Hexec) as (Hinv & _).
  destruct (inv_locals _ _ Hinv _ _ _ Hi eq_refl) as (_ & _ & Hne & Hord & _).
  assert (Hboth : forall r, r = from_account l \/ r = to_account l ->
                    (0 < holds r (Critical l))%nat).
  { intros r Hr. simpl. unfold indicator.
    destruct Hord as [[-> ->]|[-> ->]]; destruct Hr as [->| ->];
      repeat case_decide; try lia; congruence. }
  split_and!.
  - destruct (task_data _ _ _ _ Hinv Hi) as [d Hd]. eauto.
  - assumption.
  - destruct (holds_locked _ _ _ _ (from_account l) Hinv Hi) as (fa & Hfa & Hlf); [auto|].
    destruct (holds_locked _ _ _ _ (to_account l) Hinv Hi) as (ta & Hta & Hlt); [auto|].
    eauto 10.
  - intros j p r Hj Hh Hr. eapply holds_exclusive; eauto.
Qed.

(** X14.  In every state that a schedule reaches, the lock of an
    account is taken exactly when some task of the batch is between
    acquiring and releasing it, and there is at most one such task. *)
Theorem lock_held_iff_task_holds (self : t) (s0 s : state) (ls : list label)
    (r : Z) (a : Account.t) :
  start self = inr s0 ->
  exec self ls s0 = Some s ->
  accounts (bank s) !! r = Some a ->
  (Account.lock a = true <->
     exists i p, tasks s !! i = Some p /\ (0 < holds r p)%nat) /\
  (forall i j p q, tasks s !! i = Some p -> tasks s !! j = Some q ->
     (0 < holds r p)%nat -> (0 < holds r q)%nat -> i = j).
Proof.
  intros Hstart Hexec Ha.
  destruct (start_inv _ _ Hstart) as (Hinv0 & _).
  destruct (exec_inv _ _ _ _ Hinv0 Hexec) as (Hinv & _).
  split.
  - split.
    + intros Hl. apply sum_list_with_pos.
      fold (holders r (tasks s)). rewrite (inv_locks _ _ Hinv).
      unfold locked. rewrite Ha, Hl. lia.
    + intros (i & p & Hi & Hh).
      destruct (holds_locked _ _ _ _ _ Hinv Hi Hh) as (a' & Ha' & Hl). congruence.
  - intros i j p q Hi Hj Hp Hq. eapply holds_exclusive; eauto.
Qed.



End BatchTheorems.

(** ** Stuck states *)

Section Stuck.

Import TransactionSimulator Inv.

Variable self : t.
Implicit Types (s : state) (p : pc).

(** A list with a repetition holds the same element at two positions. *)
Lemma repeated_position (l : list nat) :
  ~ NoDup l -> exists a b x, (a < b)%nat /\ l !! a = Some x /\ l !! b = Some x.
Proof.
  induction l as [|x l IH]; intros Hdup; [destruct Hdup; constructor|].
  destruct (decide (x ∈ l)) as [Hin|Hnin].
  - apply list_elem_of_lookup in Hin as [b Hb].
    exists 0%nat, (S b), x. split_and!; [lia|reflexivity|exact Hb].
  - destruct IH as (a & b & y & Hlt & Ha & Hb).
    { intros Hnd. apply Hdup. constructor; assumption. }
    exists (S a), (S b), y. split_and!; [lia|exact Ha|exact Hb].
Qed.

(** More than [n] numbers below [n]: two positions hold the same one. *)
Lemma pigeonhole (l : list nat) (n : nat) :
  (forall x, x ∈ l -> (x < n)%nat) -> (n < length l)%nat ->
  exists a b x, (a < b)%nat /\ l !! a = Some x /\ l !! b = Some x.
Proof.
  intros Hbound Hlen. apply repeated_position. intros Hnd.
  assert (Hle : (length l <= length (seq 0 n))%nat).
  { apply submseteq_length, NoDup_submseteq; [assumption|].
    intros x Hx. apply elem_of_seq. apply Hbound in Hx. lia. }
  rewrite length_seq in Hle. lia.
Qed.

(** Along a chain of a relation, an earlier element reaches a later one. *)
Lemma chain_tc {A} (R : relation A) (l : list A) :
  (forall a x y, l !! a = Some x -> l !! S a = Some y -> R x y) ->
  forall b a x y, (a < b)%nat -> l !! a = Some x -> l !! b = Some y -> tc R x y.
Proof.
  intros Hchain. induction b as [|b IH]; intros a x y Hlt Ha Hb; [lia|].
  destruct (decide (a = b)) as [->|Hne].
  - apply tc_once. eapply Hchain; eauto.
  - destruct (l !! b) as [z|] eqn:Hz.
    + eapply tc_r; [apply (IH a x z); [lia|assumption|reflexivity]|].
      eapply Hchain; eauto.
    + apply lookup_ge_None in Hz. apply lookup_lt_Some in Hb. lia.
Qed.

(** In a state where no task can move, a task that waits for a lock
    waits for a task that itself waits for a lock. *)
Lemma stuck_waits_for s i p r :
  inv self s ->
  (forall j, task_step self j s = None) ->
  tasks s !! i = Some p -> wanted p = Some r ->
  exists j q r', waits_for s i j /\ tasks s !! j = Some q /\ wanted q = Some r'.
Proof.
  intros Hinv Hstuck Hi Hw.
  assert (Hlocked : locked (accounts (bank s)) r <> 0%nat).
  { intros Hfree.
    assert (Hp : exists l, (p = AcquireFirst l /\ r = first_account l) \/
                           (p = AcquireSecond l /\ r = second_account l)).
    { destruct p as [| |l|l|l|l|l r0|l r0|r0|]; simpl in Hw; try discriminate;
        injection Hw as <-; eauto. }
    destruct Hp as [l Hp].
    destruct (acquire_steps self s i p l r Hinv Hi Hp Hfree) as [s' Hs'].
    rewrite Hstuck in Hs'. discriminate. }
  rewrite <- (inv_locks _ _ Hinv) in Hlocked.
  destruct (sum_list_with_pos (holds r) (tasks s)) as (j & q & Hj & Hq);
    [unfold holders in Hlocked; lia|].
  assert (Hrun : runnable q = false).
  { destruct (runnable q) eqn:E; [|reflexivity].
    destruct (runnable_steps self s j q Hinv Hj E) as [s' Hs'].
    rewrite Hstuck in Hs'. discriminate. }
  exists j, q. destruct q as [| |l|l|l|l|l r0|l r0|r0|]; simpl in Hq, Hrun;
    try discriminate; try lia.
  exists (second_account l). split_and!; [|assumption|reflexivity].
  exists p, (AcquireSecond l), r. auto.
Qed.

(** A chain of waiting tasks of any length. *)
Lemma stuck_chain s :
  inv self s ->
  (forall j, task_step self j s = None) ->
  forall n i p r, tasks s !! i = Some p -> wanted p = Some r ->
  exists l : list nat,
    length l = S n /\ l !! 0%nat = Some i /\
    (forall x, x ∈ l -> (x < length (tasks s))%nat) /\
    (forall a x y, l !! a = Some x -> l !! S a = Some y -> waits_for s x y).
Proof.
  intros Hinv Hstuck. induction n as [|n IH]; intros i p r Hi Hw.
  - exists [i]. split_and!; [reflexivity|reflexivity| |].
    + intros x Hx. apply list_elem_of_singleton in Hx as ->. eapply lookup_lt_Some; eauto.
    + intros [|a] x y Hx Hy; discriminate.
  - destruct (stuck_waits_for s i p r Hinv Hstuck Hi Hw) as (j & q & r' & Hij & Hj & Hq).
    destruct (IH j q r' Hj Hq) as (l & Hlen & Hhead & Hbound & Hchain).
    exists (i :: l). split_and!; [simpl; lia|reflexivity| |].
    + intros x Hx. apply elem_of_cons in Hx as [->|Hx]; [|auto].
      eapply lookup_lt_Some; eauto.
    + intros [|a] x y Hx Hy; simpl in Hx, Hy.
      * injection Hx as <-. rewrite Hhead in Hy. injection Hy as <-. assumption.
      * eapply Hchain; eauto.
Qed.

(** In a state where nothing but a timeout can happen and [run] has not
    returned, some task waits for a lock. *)
Lemma stuck_has_waiter s :
  inv self s -> (0 < max_workers self)%nat ->
  (forall m, main s <> Finished m) ->
  (forall l, l <> Timeout -> step self l s = None) ->
  exists i p r, tasks s !! i = Some p /\ wanted p = Some r.
Proof.
  intros Hinv Hpool Hnf Hstuck.
  assert (Htask : forall j, task_step self j s = None).
  { intros j. apply (Hstuck (Task j)). discriminate. }
  destruct (none_or_some (fun p => match wanted p with Some _ => true | None => false end)
              (tasks s)) as [Hnone|(i & p & Hi & Hw)]; cycle 1.
  { destruct (wanted p) as [r|] eqn:E; [|discriminate]. eauto. }
  exfalso.
  assert (Hqd : forall p, p ∈ tasks s -> p = Queued \/ p = Done).
  { intros p Hp. pose proof Hp as Hp1. eapply Forall_forall in Hp1; [|exact Hnone].
    apply list_elem_of_lookup in Hp as [i Hi].
    destruct (runnable p) eqn:E.
    - destruct (runnable_steps self s i p Hinv Hi E) as [s' Hs'].
      rewrite Htask in Hs'. discriminate.
    - destruct p; simpl in Hp1, E; try discriminate; auto. }
  destruct (none_or_some is_queued (tasks s)) as [Hnq|(i & p & Hi & Hq)].
  2:{ destruct (first_queued (tasks s)) as (i' & Hi' & Hbefore).
      { apply Exists_exists. exists p. split; [|assumption].
        apply list_elem_of_lookup. eauto. }
      destruct (task_data _ _ _ _ Hinv Hi') as [d Hd].
      specialize (Htask i'). unfold task_step in Htask. rewrite Hd, Hi' in Htask.
      unfold can_start in Htask. rewrite Hbefore in Htask.
      assert (Hzero : length (filter (fun p => is_active p = true) (tasks s)) = 0%nat).
      { rewrite filter_length_sum. apply sum_list_with_zero. intros q Hq'.
        destruct (Hqd q Hq') as [-> | ->]; reflexivity. }
      rewrite Hzero in Htask. apply Nat.ltb_lt in Hpool. rewrite Hpool in Htask.
      discriminate. }
  assert (Hdone : all_done (tasks s)).
  { apply Forall_forall. intros p Hp. destruct (Hqd p Hp) as [-> | ->]; [|reflexivity].
    eapply Forall_forall in Hnq; [|exact Hp]. discriminate. }
  specialize (Hstuck Main ltac:(discriminate)). simpl in Hstuck. unfold main_step in Hstuck.
  destruct (main s) as [k|b|b|m] eqn:Hm.
  - destruct (tasks s !! k) as [p|] eqn:Hk; [|discriminate].
    rewrite (all_done_lookup _ _ _ Hdone Hk) in Hstuck. discriminate.
  - replace (forallb is_done (tasks s)) with true in Hstuck; [discriminate|].
    symmetry. apply forallb_forall. intros p Hp%list_elem_of_In.
    eapply Forall_forall in Hdone; [|exact Hp]. rewrite Hdone. reflexivity.
  - destruct (get_total_balance_idle (accounts (bank s))) as [total Ht].
    + eapply all_done_idle; eauto.
    + rewrite Ht in Hstuck. discriminate.
  - exact (Hnf m eq_refl).
Qed.

(** Where nothing but a timeout can happen before [run] has returned,
    there is a circular wait. *)
Lemma stuck_cycle s :
  inv self s -> (0 < max_workers self)%nat ->
  (forall m, main s <> Finished m) ->
  (forall l, l <> Timeout -> step self l s = None) ->
  exists k, tc (waits_for s) k k.
Proof.
  intros Hinv Hpool Hnf Hstuck.
  assert (Htask : forall j, task_step self j s = None).
  { intros j. apply (Hstuck (Task j)). discriminate. }
  destruct (stuck_has_waiter s Hinv Hpool Hnf Hstuck) as (i & p & r & Hi & Hw).
  destruct (stuck_chain s Hinv Htask (length (tasks s)) i p r Hi Hw)
    as (l & Hlen & _ & Hbound & Hchain).
  destruct (pigeonhole l (length (tasks s)) Hbound ltac:(lia)) as (a & b & x & Hlt & Ha & Hb).
  exists x. exact (chain_tc (waits_for s) l Hchain b a x x Hlt Ha Hb).
Qed.

(** X20.  Deadlock means circular wait.  If in a reachable state [run]
    has not returned and nothing but a timeout can happen (no task and
    not the caller of [run] can take a step), then some task waits,
    through a chain of tasks each waiting for a lock the next one
    holds, for itself. *)
Theorem stuck_means_circular_wait (s0 s : state) (ls : list label) :
  start self = inr s0 ->
  exec self ls s0 = Some s ->
  (forall m, main s <> Finished m) ->
  (forall l, l <> Timeout -> step self l s = None) ->
  exists k, tc (waits_for s) k k.
Proof.
  intros Hstart Hexec Hnf Hstuck.
  destruct (start_inv _ _ Hstart) as (Hinv0 & _ & Hpool & _).
  destruct (exec_inv _ _ _ _ Hinv0 Hexec) as (Hinv & _).
  apply stuck_cycle; assumption.
Qed.

(** Whether some task can move. *)
Lemma some_task_steps s (n : nat) :
  (forall i, (i < n)%nat -> task_step self i s = None) \/
  (exists i s', task_step self i s = Some s').
Proof.
  induction n as [|n IH]; [left; intros i Hi; lia|].
  destruct IH as [IH|IH]; [|right; assumption].
  destruct (task_step self n s) as [s'|] eqn:E; [right; eauto|].
  left. intros i Hi. destruct (decide (i = n)) as [->|Hne]; [assumption|].
  apply IH. lia.
Qed.

Lemma stuck_or_steps s :
  (forall l, l <> Timeout -> step self l s = None) \/
  (exists l s', l <> Timeout /\ step self l s = Some s').
Proof.
  destruct (main_step self s) as [s'|] eqn:Hmain.
  { right. exists Main, s'. split; [discriminate|assumption]. }
  destruct (some_task_steps s (length (tasks s))) as [Hnone|(i & s' & Hs')].
  - left. intros [i| |] Hl; [|assumption|congruence]. simpl.
    destruct (decide (i < length (tasks s))%nat) as [Hlt|Hge]; [auto|].
    unfold task_step. rewrite (proj2 (lookup_ge_None (tasks s) i)) by lia.
    destruct (transfers_data self !! i); reflexivity.
  - right. exists (Task i), s'. split; [discriminate|assumption].
Qed.

Lemma finishes_or_deadlocks s :
  inv self s -> (0 < max_workers self)%nat ->
  exists ls s', (Timeout ∉ ls) /\ exec self ls s = Some s' /\
    ((exists m, main s' = Finished m) \/ (exists k, tc (waits_for s') k k)).
Proof.
  intros Hinv Hpool. remember (measure self s) as n eqn:Hn. revert s Hn Hinv.
  induction n as [n IH] using lt_wf_ind. intros s -> Hinv.
  destruct (main s) as [k|b|b|m] eqn:Hm; cycle 3.
  { exists [], s. split_and!; [apply not_elem_of_nil|reflexivity|left; eauto]. }
  all: destruct (stuck_or_steps s) as [Hstuck|(l & s1 & Hl & Hstep)];
    [ exists [], s; split_and!; [apply not_elem_of_nil|reflexivity|];
      right; apply stuck_cycle; try assumption; intros m; rewrite Hm; discriminate
    | destruct (step_inv _ _ _ _ Hinv Hstep) as (Hinv1 & Hlt & _);
      destruct (IH _ Hlt s1 eq_refl Hinv1) as (ls & s' & Hno & Hexec & Hend);
      exists (l :: ls), s'; split_and!; [|simpl; rewrite Hstep; assumption|assumption];
      intros Hin; apply elem_of_cons in Hin as [Heq|Hin]; [congruence|auto] ].
Qed.

(** X21.  A batch of either class finishes or deadlocks, and cannot run
    for ever: every schedule has at most [10 * n + 3] steps for [n]
    requests, and from every reachable state some continuation without
    a timeout either makes [run] return or ends in a circular wait. *)
Theorem batch_finishes_or_deadlocks (s0 s : state) (ls : list label) :
  start self = inr s0 ->
  exec self ls s0 = Some s ->
  (length ls <= 10 * length (transfers_data self) + 3)%nat /\
  exists ls' s', (Timeout ∉ ls') /\ exec self ls' s = Some s' /\
    ((exists m, main s' = Finished m) \/ (exists k, tc (waits_for s') k k)).
Proof.
  intros Hstart Hexec.
  destruct (start_inv _ _ Hstart) as (Hinv0 & _ & Hpool & Hmeasure).
  destruct (exec_inv _ _ _ _ Hinv0 Hexec) as (Hinv & Hle & _).
  split; [lia|]. apply finishes_or_deadlocks; assumption.
Qed.

End Stuck.

(** ** The configuration *)

Section Config.

Import ConfigLoader InteractiveMenu TransactionSimulator.

Lemma for_each_none check i xs :
  for_each check i xs = None ->
  forall j x, xs !! j = Some x -> check (i + j)%nat x = None.
Proof.
  revert i. induction xs as [|y xs IH]; intros i H [|j] x Hx; simpl in *; try discriminate.
  - injection Hx as ->. rewrite Nat.add_0_r. destruct (check i x); [discriminate|reflexivity].
  - destruct (check i y); [discriminate|].
    replace (i + S j)%nat with (S i + j)%nat by lia. eapply IH; eauto.
Qed.

Lemma validate_account_none i v :
  validate_account i v = None -> is_Some (account_data v).
Proof.
  unfold validate_account, account_data, get_int, get_number.
  destruct v as [| | | | | |items]; try discriminate.
  destruct (dict_get "id" items) as [id|]; [|discriminate].
  destruct (dict_get "initial_balance" items) as [b|]; [|discriminate]. simpl.
  destruct id; try discriminate; destruct b; try discriminate; simpl; eauto.
Qed.

Lemma validate_transfer_none i v :
  validate_transfer i v = None ->
  exists d, transfer_data v = Some d /\ (0 < TransferData.amount d)%Q.
Proof.
  unfold validate_transfer, transfer_data, get_int, get_number.
  destruct v as [| | | | | |items]; try discriminate.
  destruct (first_missing _ _); [discriminate|].
  destruct (dict_get "from" items) as [f|]; [|discriminate].
  destruct (dict_get "to" items) as [t|]; [|discriminate].
  destruct (dict_get "amount" items) as [a|]; [|discriminate]. simpl.
  destruct (is_int f) eqn:Hf; [|discriminate]. destruct (is_int t) eqn:Ht; [|discriminate].
  simpl. destruct (number_value a) as [q|] eqn:Ha; [|discriminate].
  destruct (Qle_bool q 0) eqn:Hq; [discriminate|]. intros _.
  apply Qle_bool_gt in Hq.
  destruct f; try discriminate; destruct t; try discriminate; simpl; eauto.
Qed.

Lemma mapM_for_each {B} check (f : json -> option B) (P : B -> Prop) xs :
  (forall i v, check i v = None -> exists b, f v = Some b /\ P b) ->
  forall i, for_each check i xs = None ->
  exists bs, mapM f xs = Some bs /\ Forall P bs.
Proof.
  intros Hf. induction xs as [|x xs IH]; intros i H; simpl in *.
  - exists []. split; [reflexivity|constructor].
  - destruct (check i x) eqn:E; [discriminate|].
    destruct (Hf _ _ E) as (b & Hb & HP). destruct (IH _ H) as (bs & Hbs & HPs).
    exists (b :: bs). rewrite Hb. simpl. rewrite Hbs. simpl. split; [reflexivity|].
    constructor; assumption.
Qed.

(** What a configuration that passes [_validate] looks like. *)
Lemma validate_none config :
  _validate config = None ->
  exists items accs trs sim accounts transfers,
    config = JDict items /\
    dict_get "accounts" items = Some (JList accs) /\
    dict_get "transfers" items = Some (JList trs) /\
    dict_get "simulation" items = Some (JDict sim) /\
    mapM account_data accs = Some accounts /\
    mapM transfer_data trs = Some transfers /\
    Forall (fun d => (0 < TransferData.amount d)%Q) transfers /\
    dict_has "thread_delay_seconds" sim = true /\
    dict_has "deadlock_timeout_seconds" sim = true /\
    dict_has "verbose_logging" sim = true.
Proof.
  unfold _validate.
  destruct (py_in "accounts" config) as [[]|]; try discriminate.
  destruct (py_in "transfers" config) as [[]|]; try discriminate.
  destruct (py_in "simulation" config) as [[]|]; try discriminate.
  destruct config as [| | | | | |items]; try discriminate.
  destruct (dict_get "accounts" items) as [a|] eqn:Hda; [|discriminate].
  destruct (dict_get "transfers" items) as [t|] eqn:Hdt; [|discriminate].
  destruct (dict_get "simulation" items) as [sm|] eqn:Hds; [|discriminate].
  destruct a as [| | | | |accs|]; try discriminate.
  destruct (for_each validate_account 0 accs) eqn:Ha; [discriminate|].
  destruct t as [| | | | |trs|]; try discriminate.
  destruct (for_each validate_transfer 0 trs) eqn:Ht; [discriminate|].
  unfold validate_simulation. destruct sm as [| | | | | |sim]; try discriminate.
  simpl. destruct (dict_has "thread_delay_seconds" sim) eqn:H1; [|discriminate].
  destruct (dict_has "deadlock_timeout_seconds" sim) eqn:H2; [|discriminate].
  destruct (dict_has "verbose_logging" sim) eqn:H3; [|discriminate]. intros _.
  destruct (mapM_for_each validate_account account_data (fun _ => True) accs) with (i := 0%nat)
    as (accounts & Haccounts & _); [|assumption|].
  { intros i v Hv. destruct (validate_account_none i v Hv) as [b Hb]. eauto. }
  destruct (mapM_for_each validate_transfer transfer_data
              (fun d => (0 < TransferData.amount d)%Q) trs) with (i := 0%nat)
    as (transfers & Htransfers & Hpos); [|assumption|].
  { intros i v Hv. apply (validate_transfer_none i v Hv). }
  exists items, accs, trs, sim, accounts, transfers. split_and!; auto.
Qed.

(** X18.  A configuration that [_validate] accepts is a dict whose
    accounts and transfers can all be read the way [run] and
    [transfer_task] read them, as integer ids and numbers.  Of what
    the menu passes to the simulator only the two simulation settings
    can still be of the wrong type, since they are checked for presence
    but not for being numbers: the simulator gets numbers throughout
    exactly when [deadlock_timeout_seconds] (and, for Phase1Bank,
    [thread_delay_seconds]) is a number. *)
Theorem validated_config_is_readable (config : json) :
  _validate config = None ->
  exists items simulation,
    config = JDict items /\
    dict_get "simulation" items = Some (JDict simulation) /\
    forall cls,
      is_Some (simulator cls config) <->
      is_Some (thread_delay_of cls simulation) /\
      is_Some (get_number "deadlock_timeout_seconds" simulation).
Proof.
  intros Hv.
  destruct (validate_none config Hv)
    as (items & accs & trs & sim & accounts & transfers & -> & Ha & Ht & Hs & Hma & Hmt & _).
  exists items, sim. split_and!; [reflexivity|assumption|].
  intros cls. unfold simulator. rewrite Ha, Ht, Hs, Hma, Hmt.
  destruct (thread_delay_of cls sim) as [delay|];
    destruct (get_number "deadlock_timeout_seconds" sim) as [timeout|]; split.
  - eauto.
  - eauto.
  - intros [? Hn]. discriminate.
  - intros [_ [? Hn]]. discriminate.
  - intros [? Hn]. discriminate.
  - intros [[? Hn] _]. discriminate.
  - intros [? Hn]. discriminate.
  - intros [[? Hn] _]. discriminate.
Qed.

Lemma simulator_transfers cls config sim :
  _validate config = None -> simulator cls config = Some sim ->
  Forall (fun d => (0 < TransferData.amount d)%Q) (transfers_data sim).
Proof.
  intros Hv Hsim.
  destruct (validate_none config Hv)
    as (items & accs & trs & sm & accounts & transfers & -> & Ha & Ht & Hs & Hma & Hmt
        & Hpos & _).
  unfold simulator in Hsim. rewrite Ha, Ht, Hs, Hma, Hmt in Hsim.
  destruct (thread_delay_of cls sm); [|discriminate].
  destruct (get_number _ sm); [|discriminate].
  injection Hsim as <-. exact Hpos.
Qed.

Lemma done_requests_elem_of ds (ps : list pc) d :
  d ∈ done_requests ds ps -> d ∈ ds.
Proof.
  revert ps. induction ds as [|d0 ds IH]; intros [|p ps]; simpl;
    try (intros H; inversion H; fail).
  destruct (is_done p); intros H.
  - apply elem_of_cons in H as [->|H]; [left|right; eauto].
  - right. eauto.
Qed.

(** X19.  For a simulator that the menu builds from a configuration
    accepted by [_validate] (the numbers of [json] are finite: the NaN
    and the infinities that [json.load] also reads are not among
    them): the test [amount <= 0] is false of every transfer, so no
    record of any schedule carries the non-positive-amount error; but
    an empty list of transfers is accepted too, and then [run] raises
    (a pool of 0 threads is refused) instead of returning metrics. *)
Theorem validated_config_guards_batch (cls : bank_cls) (config : json)
    (sim : TransactionSimulator.t) :
  _validate config = None ->
  simulator cls config = Some sim ->
  Forall (fun d => Qle_bool (TransferData.amount d) 0 = false) (transfers_data sim) /\
  (forall s0 s ls t,
     start sim = inr s0 -> exec sim ls s0 = Some s -> t ∈ transactions s ->
     Transaction.error_message t <> Some NonPositiveAmount) /\
  (transfers_data sim = [] -> forall ls, run sim ls = Some (inl PoolSizeError)).
Proof.
  intros Hv Hsim. pose proof (simulator_transfers cls config sim Hv Hsim) as Hpos.
  split_and!.
  - eapply Forall_impl; [exact Hpos|]. intros d Hd. apply Qle_bool_gt. exact Hd.
  - intros s0 s ls t Hstart Hexec Hin Herr.
    destruct (exec_log_ok sim ls s0 s Hstart Hexec) as [_ Hperm Hrec _].
    assert (Hd : request_of t ∈ transfers_data sim).
    { apply (done_requests_elem_of _ (tasks s)). rewrite <- Hperm.
      apply list_elem_of_fmap. eauto. }
    eapply Forall_forall in Hpos; [|exact Hd].
    eapply Forall_forall in Hrec; [|exact Hin]. destruct Hrec as [_ Hex].
    unfold result_explained, validation_error in Hex. rewrite Herr in Hex.
    apply Qle_bool_gt in Hpos. rewrite Hpos in Hex.
    destruct (_ =? _)%Z; [discriminate|].
    destruct (decide _); [destruct (decide _)|]; try discriminate.
    destruct Hex as [?|(b & ? & _)]; discriminate.
  - intros Hnil ls. unfold run, start, max_workers. rewrite Hnil. reflexivity.
Qed.

Lemma validated_config_guards_batch_witness :
  _validate empty_batch_config = None /\
  exists sim, simulator Phase1Bank empty_batch_config = Some sim /\
              run sim [] = Some (inl PoolSizeError).
Proof.
  split; [reflexivity|].
  destruct (simulator Phase1Bank empty_batch_config) as [sim|] eqn:Hsim;
    [|vm_compute in Hsim; discriminate].
  exists sim. split; [reflexivity|].
  apply (validated_config_guards_batch Phase1Bank empty_batch_config sim eq_refl Hsim).
  vm_compute in Hsim. injection Hsim as <-. reflexivity.
Defined.

End Config.

(** ** The further properties on the scenarios *)

Section Examples.

Import TransactionSimulator Inv.

Lemma example_bank_int : int_accounts example_bank.
Proof. apply bank_init_int. repeat constructor. Qed.


Lemma transfer_conserves_total_witness :
  exists total,
    Bank.get_total_balance example_bank = Some total /\
    Bank.get_total_balance
      (accounts (final_world (transfer Phase1Bank 0 1 2 100 (initial_world example_bank))))
      = Some total.
Proof.
  destruct (transfer_conserves_total Phase1Bank 0 1 2 100 (initial_world example_bank)
              example_bank_wf example_bank_idle example_bank_int eq_refl)
    as (_ & total & _ & H1 & H2).
  exists total. split; assumption.
Defined.


Lemma deposit_then_withdraw_witness :
  exists a1,
    Account.deposit (Account.__init__ 1 1000) 50 = Returned tt a1 /\
    Account.withdraw a1 50 = Returned tt (Account.__init__ 1 1000).
Proof.
  destruct (deposit_then_withdraw (Account.__init__ 1 1000) 50 eq_refl eq_refl eq_refl
              ltac:(unfold Qle; simpl; lia)) as (a1 & Hd & _ & Hw & _).
  exists a1. split; [assumption|]. apply Hw. unfold Qle; simpl; lia.
Defined.

Lemma account_never_overdrawn_witness :
  let a := calls (Account.__init__ 1 100)
             [CallWithdraw 30; CallWithdraw 100; CallDeposit (-5); CallDeposit 20] in
  Account.lock a = false /\ py_int (Account._balance a) /\ (0 <= Account._balance a)%Q.
Proof.
  intros a.
  destruct (account_never_overdrawn (Account.__init__ 1 100)
              [CallWithdraw 30; CallWithdraw 100; CallDeposit (-5); CallDeposit 20]
              eq_refl eq_refl ltac:(repeat constructor)
              ltac:(unfold Qle; simpl; lia)) as (_ & Hl & Hi & Hb & _).
  split_and!; assumption.
Defined.


Lemma batch_never_overdraws_witness :
  exists s0 s,
    start ordered_sim = inr s0 /\ exec ordered_sim ordered_schedule s0 = Some s /\
    no_overdraft (accounts (bank s)).
Proof.
  run_batch ordered_sim ordered_schedule s0 s Hstart Hexec.
  exists s0, s. split_and!; [reflexivity|exact Hexec|].
  apply (batch_never_overdraws ordered_sim s0 s ordered_schedule Hstart); [|exact Hexec].
  repeat constructor; unfold Qle; simpl; lia.
Defined.


Lemma run_records_every_request_witness :
  exists m, run ordered_sim ordered_schedule = Some (inr m) /\
    Permutation (map request_of (SimulationMetrics.transactions m)) opposing_transfers.
Proof.
  destruct (run ordered_sim ordered_schedule) as [[e|m]|] eqn:Hrun;
    try (vm_compute in Hrun; discriminate).
  exists m. split; [reflexivity|].
  exact (proj1 (run_records_every_request ordered_sim ordered_schedule m Hrun)).
Defined.


Lemma deadlocked_iff_timeout_witness :
  exists m, run ordered_sim ordered_schedule = Some (inr m) /\
    (SimulationMetrics.deadlocked m = true <-> Timeout ∈ ordered_schedule).
Proof.
  destruct (run ordered_sim ordered_schedule) as [[e|m]|] eqn:Hrun;
    try (vm_compute in Hrun; discriminate).
  exists m. split; [reflexivity|].
  exact (deadlocked_iff_timeout ordered_sim ordered_schedule m Hrun).
Defined.

Lemma success_rate_of_a_run_witness :
  exists m, run ordered_sim ordered_schedule = Some (inr m) /\
    (0 <= SimulationMetrics.success_rate m)%Q /\
    (SimulationMetrics.success_rate m <= 100)%Q.
Proof.
  destruct (run ordered_sim ordered_schedule) as [[e|m]|] eqn:Hrun;
    try (vm_compute in Hrun; discriminate).
  exists m. split; [reflexivity|].
  destruct (success_rate_of_a_run ordered_sim ordered_schedule m Hrun) as (_ & H1 & H2 & _).
  split; assumption.
Defined.

Lemma lock_held_iff_task_holds_witness :
  exists s0 s a,
    start ordered_sim = inr s0 /\
    exec ordered_sim (take 4 ordered_schedule) s0 = Some s /\
    accounts (bank s) !! 1%Z = Some a /\ Account.lock a = true /\
    exists i p, tasks s !! i = Some p /\ (0 < holds 1 p)%nat.
Proof.
  run_batch ordered_sim (take 4 ordered_schedule) s0 s Hstart Hexec.
  destruct (accounts (bank s) !! 1%Z) as [a|] eqn:Ha; cycle 1.
  { exfalso. vm_compute in Hstart. injection Hstart as <-.
    vm_compute in Hexec. injection Hexec as <-. vm_compute in Ha. discriminate. }
  assert (Hl : Account.lock a = true).
  { vm_compute in Hstart. injection Hstart as <-.
    vm_compute in Hexec. injection Hexec as <-.
    vm_compute in Ha. injection Ha as <-. reflexivity. }
  exists s0, s, a. split_and!; [reflexivity|exact Hexec|exact Ha|exact Hl|].
  exact (proj1 (proj1 (lock_held_iff_task_holds ordered_sim s0 s
                         (take 4 ordered_schedule) 1 a Hstart Hexec Ha)) Hl).
Defined.

Lemma critical_section_exclusive_witness :
  let l := {| from_account := 1; to_account := 2;
              first_account := 1; second_account := 2 |} in
  exists s0 s,
    start ordered_sim = inr s0 /\
    exec ordered_sim (take 6 ordered_schedule) s0 = Some s /\
    tasks s !! 0%nat = Some (Critical l) /\
    (forall j p r, tasks s !! j = Some p -> (0 < holds r p)%nat ->
       r = 1%Z \/ r = 2%Z -> j = 0%nat).
Proof.
  intros l.
  run_batch ordered_sim (take 6 ordered_schedule) s0 s Hstart Hexec.
  assert (Hi : tasks s !! 0%nat = Some (Critical l)).
  { vm_compute in Hstart. injection Hstart as <-.
    vm_compute in Hexec. injection Hexec as <-. reflexivity. }
  exists s0, s. split_and!; [reflexivity|exact Hexec|assumption|].
  exact (proj2 (proj2 (proj2 (critical_section_exclusive ordered_sim s0 s
                                (take 6 ordered_schedule) 0 l Hstart Hexec Hi)))).
Defined.

Lemma circular_wait_is_permanent_witness :
  exists s0 s,
    start naive_sim = inr s0 /\
    exec naive_sim (take 8 deadlock_schedule) s0 = Some s /\
    tc (waits_for s) 0%nat 0%nat /\
    forall ls', run naive_sim (take 8 deadlock_schedule ++ ls') = None.
Proof.
  run_batch naive_sim (take 8 deadlock_schedule) s0 s Hstart Hexec.
  assert (Hcycle : tc (waits_for s) 0%nat 0%nat).
  { vm_compute in Hstart. injection Hstart as <-.
    vm_compute in Hexec. injection Hexec as <-.
    apply tc_l with 1%nat; [|apply tc_once];
      (do 3 eexists; split_and!; [reflexivity|reflexivity|reflexivity|vm_compute; lia]). }
  exists s0, s. split_and!; [reflexivity|exact Hexec|exact Hcycle|].
  exact (proj2 (circular_wait_is_permanent naive_sim s0 s (take 8 deadlock_schedule) 0
                  Hstart Hexec Hcycle)).
Defined.


Lemma validated_config_is_readable_witness :
  exists items simulation,
    empty_batch_config = JDict items /\
    ConfigLoader.dict_get "simulation" items = Some (JDict simulation) /\
    is_Some (InteractiveMenu.simulator Phase2Bank empty_batch_config).
Proof.
  destruct (validated_config_is_readable empty_batch_config eq_refl)
    as (items & simulation & Hc & Hs & Hsim).
  exists items, simulation. split_and!; [assumption..|].
  apply Hsim. injection Hc as <-. vm_compute in Hs. injection Hs as <-.
  split; eexists; reflexivity.
Defined.

Lemma stuck_means_circular_wait_witness :
  exists s0 s k,
    start naive_sim = inr s0 /\
    exec naive_sim (take 8 deadlock_schedule) s0 = Some s /\
    (forall l, l <> Timeout -> step naive_sim l s = None) /\
    tc (waits_for s) k k.
Proof.
  run_batch naive_sim (take 8 deadlock_schedule) s0 s Hstart Hexec.
  assert (Hnf : forall m, main s <> Finished m).
  { pose proof Hstart as H1. pose proof Hexec as H2.
    vm_compute in H1. injection H1 as <-. vm_compute in H2. injection H2 as <-.
    intros m. discriminate. }
  assert (Hstuck : forall l, l <> Timeout -> step naive_sim l s = None).
  { pose proof Hstart as H1. pose proof Hexec as H2.
    vm_compute in H1. injection H1 as <-. vm_compute in H2. injection H2 as <-.
    intros [i| |] Hl; [|reflexivity|congruence].
    destruct i as [|[|i]]; reflexivity. }
  destruct (stuck_means_circular_wait naive_sim s0 s (take 8 deadlock_schedule)
              Hstart Hexec Hnf Hstuck) as [k Hk].
  exists s0, s, k. split_and!; [reflexivity|exact Hexec|exact Hstuck|exact Hk].
Defined.

Lemma batch_finishes_or_deadlocks_witness :
  exists s0 s,
    start naive_sim = inr s0 /\
    exec naive_sim (take 4 deadlock_schedule) s0 = Some s /\
    exists ls' s', (Timeout ∉ ls') /\ exec naive_sim ls' s = Some s' /\
      ((exists m, main s' = Finished m) \/ (exists k, tc (waits_for s') k k)).
Proof.
  run_batch naive_sim (take 4 deadlock_schedule) s0 s Hstart Hexec.
  exists s0, s. split_and!; [reflexivity|exact Hexec|].
  exact (proj2 (batch_finishes_or_deadlocks naive_sim s0 s (take 4 deadlock_schedule)
                  Hstart Hexec)).
Defined.


End Examples.

(** ** The amounts of a transfer on the first scenario *)

Section TransferExamples.

Import PrimFloat.



End TransferExamples.
